(** * Argus Terminal: decision and simulation core

    A shallow embedding of the indicator library (indicatorService),
    the risk-level calculator (riskManagementService), the Council
    synthesizer (analysisService), the backtest engine (backtestEngine)
    and the paper-trading portfolio (paperTradingService), with the
    properties the specification states about them.

    Modelling conventions.
    - A JavaScript [number] is a [num]: an exact rational, [+Infinity],
      [-Infinity] or [NaN].  Arithmetic is IEEE-754 arithmetic without
      rounding and with a single zero: dividing by zero yields an
      infinity or [NaN], never an exception, and every comparison with
      [NaN] is false.  Finite results are kept in lowest terms.
      A statement that gives a result as a rational number, or bounds
      it by one, is therefore a statement of exact arithmetic: the
      doubles of the code agree with it up to rounding, and as long as
      nothing overflows.  A statement written with the operations of
      [num] themselves follows the code operation by operation.
    - [(number | null)[]] is [list (option num)]; reading an index
      outside the array yields [undefined], here the outer [None] of the
      lookup.
    - An exception is the [Throw] case of [result].
    - [Math.sqrt] and [Number.prototype.toFixed] are primitives of the
      runtime: they are the fields of the class [Runtime], which the
      functions that call them take as a parameter.
    - Candles carry finite prices.  Array indices are integers;
      indicator periods are natural numbers. *)

From Stdlib Require Import QArith Qreduction Qabs Lqa Lia ZArith ZifyBool.
From stdpp Require Import base option list strings gmap pretty.

Set Default Proof Using "Type".
Close Scope Q_scope.

(* ================================================================= *)
(** ** JavaScript numbers *)

Module JsNum.

Inductive num : Type :=
  | Fin (q : Q)
  | PInf
  | NInf
  | NaN.

Coercion Fin : Q >-> num.

Definition Qltb (x y : Q) : bool := negb (Qle_bool y x).

(** [inf_times pos q]: the product of an infinity ([+] when [pos]) and
    the finite number [q]. *)
Definition inf_times (pos : bool) (q : Q) : num :=
  match (q ?= 0)%Q with
  | Eq => NaN
  | Gt => if pos then PInf else NInf
  | Lt => if pos then NInf else PInf
  end.

Definition nopp (a : num) : num :=
  match a with
  | Fin x => Fin (Qred (- x))
  | PInf => NInf
  | NInf => PInf
  | NaN => NaN
  end.

Definition nadd (a b : num) : num :=
  match a, b with
  | Fin x, Fin y => Fin (Qred (x + y))
  | NaN, _ | _, NaN => NaN
  | PInf, NInf | NInf, PInf => NaN
  | PInf, _ | _, PInf => PInf
  | NInf, _ | _, NInf => NInf
  end.

Definition nsub (a b : num) : num :=
  match a, b with
  | Fin x, Fin y => Fin (Qred (x - y))
  | NaN, _ | _, NaN => NaN
  | PInf, PInf | NInf, NInf => NaN
  | PInf, _ | _, NInf => PInf
  | NInf, _ | _, PInf => NInf
  end.

Definition nmul (a b : num) : num :=
  match a, b with
  | Fin x, Fin y => Fin (Qred (x * y))
  | NaN, _ | _, NaN => NaN
  | PInf, Fin y | Fin y, PInf => inf_times true y
  | NInf, Fin y | Fin y, NInf => inf_times false y
  | PInf, PInf | NInf, NInf => PInf
  | PInf, NInf | NInf, PInf => NInf
  end.

Definition ndiv (a b : num) : num :=
  match a, b with
  | Fin x, Fin y =>
      if Qeq_bool y 0 then
        match (x ?= 0)%Q with Eq => NaN | Gt => PInf | Lt => NInf end
      else Fin (Qred (x / y))
  | NaN, _ | _, NaN => NaN
  | Fin _, (PInf | NInf) => Fin 0
  | PInf, Fin y => if Qltb y 0 then NInf else PInf
  | NInf, Fin y => if Qltb y 0 then PInf else NInf
  | (PInf | NInf), (PInf | NInf) => NaN
  end.

(** [a < b], [a <= b], [a === b]; [>] and [>=] swap the operands. *)
Definition nlt (a b : num) : bool :=
  match a, b with
  | Fin x, Fin y => Qltb x y
  | NaN, _ | _, NaN => false
  | NInf, (Fin _ | PInf) => true
  | Fin _, PInf => true
  | _, _ => false
  end.

Definition nle (a b : num) : bool :=
  match a, b with
  | Fin x, Fin y => Qle_bool x y
  | NaN, _ | _, NaN => false
  | NInf, _ => true
  | _, PInf => true
  | _, _ => false
  end.

Definition neqb (a b : num) : bool :=
  match a, b with
  | Fin x, Fin y => Qeq_bool x y
  | PInf, PInf | NInf, NInf => true
  | _, _ => false
  end.

Definition ngt (a b : num) : bool := nlt b a.
Definition nge (a b : num) : bool := nle b a.

(** Truthiness of a number: [0] and [NaN] are falsy. *)
Definition truthy (a : num) : bool :=
  match a with
  | Fin x => negb (Qeq_bool x 0)
  | NaN => false
  | _ => true
  end.

(** [Math.abs], and [Math.max] / [Math.min] of two arguments. *)
Definition nabs (a : num) : num :=
  match a with
  | Fin x => Fin (Qred (Qabs x))
  | NaN => NaN
  | _ => PInf
  end.

Definition nmax (a b : num) : num :=
  match a, b with
  | NaN, _ | _, NaN => NaN
  | _, _ => if nlt a b then b else a
  end.

Definition nmin (a b : num) : num :=
  match a, b with
  | NaN, _ | _, NaN => NaN
  | _, _ => if nlt b a then b else a
  end.

(** [Math.max(...xs)] and [Math.min(...xs)]: the empty maximum is
    [-Infinity], the empty minimum [+Infinity]. *)
Definition max_list (xs : list num) : num := foldr nmax NInf xs.
Definition min_list (xs : list num) : num := foldr nmin PInf xs.

(** [xs.reduce((a, b) => a + b, 0)]. *)
Definition sum_list (xs : list num) : num := fold_left nadd xs (Fin 0).

Definition is_fin (a : num) : Prop :=
  match a with Fin _ => True | _ => False end.

(** Two numbers denote the same value. *)
Definition num_equiv (a b : num) : Prop :=
  match a, b with
  | Fin x, Fin y => (x == y)%Q
  | PInf, PInf | NInf, NInf | NaN, NaN => True
  | _, _ => False
  end.

(** [a] is the finite number [q]. *)
Definition is_val (a : num) (q : Q) : Prop :=
  match a with Fin x => (x == q)%Q | _ => False end.

End JsNum.
Export JsNum.

Declare Scope js_scope.
Delimit Scope js_scope with js.
Bind Scope js_scope with num.
Infix "+" := nadd : js_scope.
Infix "-" := nsub : js_scope.
Infix "*" := nmul : js_scope.
Infix "/" := ndiv : js_scope.
Notation "- x" := (nopp x) : js_scope.
Infix "<?" := nlt : js_scope.
Infix "<=?" := nle : js_scope.
Infix ">?" := ngt : js_scope.
Infix ">=?" := nge : js_scope.
Infix "===" := neqb (at level 70, no associativity) : js_scope.
Infix "≈" := num_equiv (at level 70, no associativity) : js_scope.

(* ================================================================= *)
(** ** Arrays, loops and exceptions *)

Inductive exn : Type := TypeError.

Inductive result (A : Type) : Type :=
  | Ok (a : A)
  | Throw (e : exn).
Arguments Ok {A} a.
Arguments Throw {A} e.

#[export] Instance result_ret : MRet result := λ A a, Ok a.
#[export] Instance result_bind : MBind result := λ A B f m,
  match m with Ok a => f a | Throw e => Throw e end.

Definition len {A} (l : list A) : Z := Z.of_nat (length l).

(** [l[i]]: [None] is [undefined]. *)
Definition idx {A} (l : list A) (i : Z) : option A :=
  if (i <? 0)%Z then None else l !! Z.to_nat i.

(** [l[i] = v] for an index inside the array; a negative index sets a
    property and leaves the elements alone.  (The indicators write
    inside the array they have allocated, or at index [-1] when a period
    is 0; no write extends an array.) *)
Definition aset {A} (l : list A) (i : Z) (v : A) : list A :=
  if (i <? 0)%Z then l else <[Z.to_nat i := v]> l.

(** [l.slice(b, e)] and [l.slice(b)]; a negative bound counts from the
    end. *)
Definition slice {A} (l : list A) (b e : Z) : list A :=
  let norm k := if (k <? 0)%Z then Z.max (len l + k) 0 else Z.min k (len l) in
  take (Z.to_nat (norm e - norm b)) (drop (Z.to_nat (norm b)) l).

Definition slice_from {A} (l : list A) (b : Z) : list A := slice l b (len l).

(** [for (let i = lo; i < hi; i++) s = body(i, s)]. *)
Definition for_loop {S} (lo hi : Z) (body : Z → S → S) (s : S) : S :=
  fold_left (λ s k, body (lo + Z.of_nat k)%Z s) (seq 0 (Z.to_nat (hi - lo))) s.

(** The same loop with a body that may throw. *)
Definition for_loop_r {S} (lo hi : Z) (body : Z → S → result S) (s : S)
    : result S :=
  fold_left (λ r k, s ← r; body (lo + Z.of_nat k)%Z s)
            (seq 0 (Z.to_nat (hi - lo))) (Ok s).

(** Reading a [number[]]: [undefined] behaves as [NaN] in arithmetic and
    in comparisons. *)
Definition rd (l : list num) (i : Z) : num := default NaN (idx l i).

(** Reading a [(number | null)[]] as a number ([x!]), testing it against
    [null], and [x || d]. *)
Definition to_num (v : option (option num)) : num :=
  match v with
  | Some (Some n) => n
  | Some None => Fin 0
  | None => NaN
  end.

Definition not_null (v : option (option num)) : bool :=
  match v with Some None => false | _ => true end.

Definition or_else (v : option (option num)) (d : num) : num :=
  match v with
  | Some (Some n) => if truthy n then n else d
  | _ => d
  end.

Definition znum (z : Z) : num := Fin (inject_Z z).

(** The runtime primitives that exact rational arithmetic cannot
    express: [Math.sqrt] on a non-negative rational, and
    [x.toFixed(digits)]. *)
Class Runtime : Type := {
  sqrtQ : Q → Q;
  toFixed : num → nat → string;
}.

Definition Math_sqrt `{Runtime} (a : num) : num :=
  match a with
  | Fin x => if Qltb x 0 then NaN else Fin (Qred (sqrtQ x))
  | PInf => PInf
  | _ => NaN
  end.

(** A runtime for the examples: square roots rounded down to six
    decimals, and [toFixed] rounding half away from zero. *)
Definition sqrt_floor (q : Q) : Q :=
  (inject_Z (Z.sqrt (Qnum q * 10 ^ 12 / Zpos (Qden q))) / inject_Z (10 ^ 6))%Q.

Definition pad_zeros (digits : nat) (s : string) : string :=
  String.concat "" (replicate (digits - String.length s) "0") +:+ s.

Definition toFixed_decimal (a : num) (digits : nat) : string :=
  match a with
  | NaN => "NaN"
  | PInf => "Infinity"
  | NInf => "-Infinity"
  | Fin q =>
      let scale := (10 ^ Z.of_nat digits)%Z in
      let m := ((2 * Z.abs (Qnum q) * scale + Zpos (Qden q))
                / (2 * Zpos (Qden q)))%Z in
      (if Qltb q 0 then "-" else "")
      +:+ pretty (m / scale)%Z
      +:+ (if digits is O then ""
           else "." +:+ pad_zeros digits (pretty (m mod scale)%Z))
  end.

Definition example_runtime : Runtime :=
  {| sqrtQ := sqrt_floor; toFixed := toFixed_decimal |}.

(* ================================================================= *)
(** ** Data model (types) *)

Record Candle : Type := {
  date : Z;
  open : Q;
  high : Q;
  low : Q;
  close : Q;
  volume : Q;
}.

(** [candles[i]] followed by a property read: [undefined.close] throws. *)
Definition cget (candles : list Candle) (i : Z) : result Candle :=
  match idx candles i with
  | Some c => Ok c
  | None => Throw TypeError
  end.

(* ================================================================= *)
(** ** indicatorService *)

Module Indicators.
Local Open Scope Q_scope.
Local Open Scope js_scope.

Definition calculateSMA (values : list num) (period : nat)
    : list (option num) :=
  let p := Z.of_nat period in
  let smaValues := replicate (length values) None in
  if (len values <? p)%Z then smaValues else
  for_loop (p - 1) (len values) (λ i smaValues,
    let slice_ := slice values (i - p + 1) (i + 1) in
    let sum := sum_list slice_ in
    aset smaValues i (Some (sum / znum p))) smaValues.

Definition calculateEMA (values : list num) (period : nat)
    : list (option num) :=
  let p := Z.of_nat period in
  let emaValues := replicate (length values) None in
  if (len values <? p)%Z then emaValues else
  let k := 2 / (znum p + 1) in
  let ema := sum_list (slice values 0 p) / znum p in
  let emaValues := aset emaValues (p - 1) (Some ema) in
  (for_loop p (len values) (λ i '(ema, emaValues),
     let ema := (rd values i * k) + (ema * (1 - k)) in
     (ema, aset emaValues i (Some ema))) (ema, emaValues)).2.

(** The block the source writes twice, for the first RSI value and
    inside the smoothing loop. *)
Definition rsi_value (avgGain avgLoss : num) : num :=
  if avgLoss === 0 then 100
  else let rs := avgGain / avgLoss in 100 - (100 / (1 + rs)).

(** The initial changes of [calculateRSI]: the simple averages of the
    gains and of the losses over the first [period] changes. *)
Definition rsi_init (values : list num) (period : nat) : num * num :=
  let p := Z.of_nat period in
  let '(gains, losses) :=
    for_loop 1 (p + 1) (λ i '(gains, losses),
      let change := rd values i - rd values (i - 1) in
      (gains ++ [if change >? 0 then change else 0],
       losses ++ [if change <? 0 then - change else 0]))
      ([], []) in
  (sum_list gains / znum p, sum_list losses / znum p).

(** One iteration of the loop with Wilder's smoothing. *)
Definition rsi_step (values : list num) (period : nat) (i : Z)
    (st : num * num * list (option num)) : num * num * list (option num) :=
  let p := Z.of_nat period in
  let '(avgGain, avgLoss, rsiValues) := st in
  let change := rd values i - rd values (i - 1) in
  let gain := if change >? 0 then change else 0 in
  let loss := if change <? 0 then - change else 0 in
  let avgGain := ((avgGain * (znum p - 1)) + gain) / znum p in
  let avgLoss := ((avgLoss * (znum p - 1)) + loss) / znum p in
  (avgGain, avgLoss, aset rsiValues i (Some (rsi_value avgGain avgLoss))).

(** The state of [calculateRSI] when its loop has reached index [hi]:
    the smoothed averages and the series written so far. *)
Definition rsi_run (values : list num) (period : nat) (hi : Z)
    : num * num * list (option num) :=
  let p := Z.of_nat period in
  let rsiValues := replicate (length values) None in
  let '(avgGain, avgLoss) := rsi_init values period in
  let rsiValues := aset rsiValues p (Some (rsi_value avgGain avgLoss)) in
  for_loop (p + 1) hi (rsi_step values period) (avgGain, avgLoss, rsiValues).

Definition calculateRSI (values : list num) (period : nat)
    : list (option num) :=
  let p := Z.of_nat period in
  let rsiValues := replicate (length values) None in
  if (len values <=? p)%Z then rsiValues else
  (rsi_run values period (len values)).2.

Record MACD : Type := {
  macd : list (option num);
  signal : list (option num);
  histogram : list (option num);
}.

Definition calculateMACD (values : list num)
    (fastPeriod slowPeriod signalPeriod : nat) : MACD :=
  let fastEMA := calculateEMA values fastPeriod in
  let slowEMA := calculateEMA values slowPeriod in
  let macdLine := replicate (length values) None in
  let macdLine :=
    for_loop 0 (len values) (λ i macdLine,
      if not_null (idx fastEMA i) && not_null (idx slowEMA i)
      then aset macdLine i
             (Some (to_num (idx fastEMA i) - to_num (idx slowEMA i)))
      else macdLine) macdLine in
  let '(validMacd, firstValidIndex) :=
    for_loop 0 (len macdLine) (λ i '(validMacd, firstValidIndex),
      if not_null (idx macdLine i)
      then (validMacd ++ [to_num (idx macdLine i)],
            if (firstValidIndex =? -1)%Z then i else firstValidIndex)
      else (validMacd, firstValidIndex)) ([], (-1)%Z) in
  let signalLineValid := calculateEMA validMacd signalPeriod in
  let signalLine := replicate (length values) None in
  let histogram := replicate (length values) None in
  let '(signalLine, histogram) :=
    for_loop 0 (len signalLineValid) (λ index '(signalLine, histogram),
      let originalIndex := (firstValidIndex + index)%Z in
      let signalLine :=
        aset signalLine originalIndex
             (default None (idx signalLineValid index)) in
      if not_null (idx macdLine originalIndex)
         && not_null (idx signalLineValid index)
      then (signalLine,
            aset histogram originalIndex
              (Some (to_num (idx macdLine originalIndex)
                     - to_num (idx signalLineValid index))))
      else (signalLine, histogram)) (signalLine, histogram) in
  {| macd := macdLine; signal := signalLine; histogram := histogram |}.

Record Bollinger : Type := {
  upper : list (option num);
  middle : list (option num);
  lower : list (option num);
}.

Definition calculateBollingerBands `{Runtime} (values : list num)
    (period : nat) (stdDevMultiplier : num) : Bollinger :=
  let p := Z.of_nat period in
  let sma := calculateSMA values period in
  let upper := replicate (length values) None in
  let lower := replicate (length values) None in
  let '(upper, lower) :=
    for_loop (p - 1) (len values) (λ i '(upper, lower),
      let slice_ := slice values (i - p + 1) (i + 1) in
      let mean := to_num (idx sma i) in
      let variance :=
        fold_left (λ sum val, sum + ((val - mean) * (val - mean)))
                  slice_ (Fin 0) / znum p in
      let stdDev := Math_sqrt variance in
      (aset upper i (Some (mean + (stdDev * stdDevMultiplier))),
       aset lower i (Some (mean - (stdDev * stdDevMultiplier)))))
      (upper, lower) in
  {| upper := upper; middle := sma; lower := lower |}.

Definition calculateATR (candles : list Candle) (period : nat)
    : result (list (option num)) :=
  let p := Z.of_nat period in
  let atrValues := replicate (length candles) None in
  if (len candles <=? p)%Z then Ok atrValues else
  c0 ← cget candles 0;
  let trValues := [high c0 - low c0] in
  trValues ← for_loop_r 1 (len candles) (λ i trValues,
    ci ← cget candles i;
    let high := high ci in
    let low := low ci in
    cp ← cget candles (i - 1);
    let prevClose := close cp in
    let tr := max_list [high - low; nabs (high - prevClose);
                        nabs (low - prevClose)] in
    Ok (trValues ++ [tr])) trValues;
  let atr := sum_list (slice trValues 0 p) / znum p in
  let atrValues := aset atrValues (p - 1) (Some atr) in
  Ok (for_loop p (len candles) (λ i '(atr, atrValues),
        let atr := ((atr * (znum p - 1)) + rd trValues i) / znum p in
        (atr, aset atrValues i (Some atr))) (atr, atrValues)).2.

Record Stochastic : Type := {
  k : list (option num);
  d : list (option num);
}.

Definition calculateStochastic (candles : list Candle)
    (kPeriod dPeriod : nat) : result Stochastic :=
  let kp := Z.of_nat kPeriod in
  let dp := Z.of_nat dPeriod in
  let kValues := replicate (length candles) None in
  let dValues := replicate (length candles) None in
  if (len candles <? kp)%Z then Ok {| k := kValues; d := dValues |} else
  kValues ← for_loop_r (kp - 1) (len candles) (λ i kValues,
    let slice_ := slice candles (i - kp + 1) (i + 1) in
    let lowestLow := min_list (map (λ c, Fin (low c)) slice_) in
    let highestHigh := max_list (map (λ c, Fin (high c)) slice_) in
    ci ← cget candles i;
    let close := close ci in
    if negb (highestHigh === lowestLow)
    then Ok (aset kValues i
               (Some (((close - lowestLow) / (highestHigh - lowestLow))
                      * 100)))
    else Ok (aset kValues i (Some (Fin 50)))) kValues;
  let dValues :=
    for_loop (kp + dp - 2) (len candles) (λ i dValues,
      let kSlice := omap id (slice kValues (i - dp + 1) (i + 1)) in
      if (len kSlice =? dp)%Z
      then aset dValues i (Some (sum_list kSlice / znum dp))
      else dValues) dValues in
  Ok {| k := kValues; d := dValues |}.

Definition calculateCCI (candles : list Candle) (period : nat)
    : list (option num) :=
  let p := Z.of_nat period in
  let cciValues := replicate (length candles) None in
  if (len candles <? p)%Z then cciValues else
  let typicalPrices :=
    map (λ c, ((Fin (high c) + low c) + close c) / 3) candles in
  let sma := calculateSMA typicalPrices period in
  for_loop (p - 1) (len candles) (λ i cciValues,
    let slice_ := slice typicalPrices (i - p + 1) (i + 1) in
    let mean := to_num (idx sma i) in
    let meanDeviation :=
      fold_left (λ sum val, sum + nabs (val - mean)) slice_ (Fin 0)
      / znum p in
    if negb (meanDeviation === 0)
    then aset cciValues i
           (Some ((rd typicalPrices i - mean) / (0.015 * meanDeviation)))
    else cciValues) cciValues.

(** The local closure [smooth] of [calculateADX] (Wilder's smoothing). *)
Definition adx_smooth (period : nat) (values : list num) : list num :=
  let p := Z.of_nat period in
  let smoothed := replicate (length values) (Fin 0) in
  let smoothed := aset smoothed p (sum_list (slice values 0 (p + 1))) in
  for_loop (p + 1) (len values) (λ i smoothed,
    aset smoothed i
      ((rd smoothed (i - 1) - (rd smoothed (i - 1) / znum p))
       + rd values i)) smoothed.

Definition calculateADX (candles : list Candle) (period : nat)
    : result (list (option num)) :=
  let p := Z.of_nat period in
  let adxValues := replicate (length candles) None in
  if (len candles <=? p * 2)%Z then Ok adxValues else
  '(tr, plusDM, minusDM) ←
    for_loop_r 0 (len candles) (λ i '(tr, plusDM, minusDM),
      if (i =? 0)%Z then
        ci ← cget candles i;
        Ok (tr ++ [high ci - low ci], plusDM ++ [Fin 0], minusDM ++ [Fin 0])
      else
        ci ← cget candles i;
        let high_ := high ci in
        let low_ := low ci in
        cp ← cget candles (i - 1);
        let prevHigh := high cp in
        let prevLow := low cp in
        let prevClose := close cp in
        let tr := tr ++ [max_list [high_ - low_; nabs (high_ - prevClose);
                                   nabs (low_ - prevClose)]] in
        let upMove := high_ - prevHigh in
        let downMove := prevLow - low_ in
        Ok (tr,
            plusDM ++ [if (upMove >? downMove) && (upMove >? 0)
                       then upMove else 0],
            minusDM ++ [if (downMove >? upMove) && (downMove >? 0)
                        then downMove else 0]))
      ([], [], []);
  let trSmooth := adx_smooth period tr in
  let plusDMSmooth := adx_smooth period plusDM in
  let minusDMSmooth := adx_smooth period minusDM in
  let dxValues :=
    for_loop p (len candles) (λ i dxValues,
      let plusDI := (rd plusDMSmooth i / rd trSmooth i) * 100 in
      let minusDI := (rd minusDMSmooth i / rd trSmooth i) * 100 in
      let diSum := plusDI + minusDI in
      dxValues ++ [if negb (diSum === 0)
                   then (nabs (plusDI - minusDI) / diSum) * 100
                   else 0]) [] in
  Ok (for_loop (p * 2) (len candles) (λ i adxValues,
        let dxSlice := slice dxValues (i - p * 2) (i - p) in
        if (len dxSlice >? 0)%Z
        then aset adxValues i (Some (sum_list dxSlice / znum (len dxSlice)))
        else adxValues) adxValues).

Definition calculateWilliamsR (candles : list Candle) (period : nat)
    : result (list (option num)) :=
  let p := Z.of_nat period in
  let wrValues := replicate (length candles) None in
  if (len candles <? p)%Z then Ok wrValues else
  for_loop_r (p - 1) (len candles) (λ i wrValues,
    let slice_ := slice candles (i - p + 1) (i + 1) in
    let highestHigh := max_list (map (λ c, Fin (high c)) slice_) in
    let lowestLow := min_list (map (λ c, Fin (low c)) slice_) in
    ci ← cget candles i;
    let close := close ci in
    if negb (highestHigh === lowestLow)
    then Ok (aset wrValues i
               (Some (((highestHigh - close) / (highestHigh - lowestLow))
                      * -100)))
    else Ok wrValues) wrValues.

(** The signal helpers.  Their argument is an element read from an
    indicator series: a number, [null], or [undefined] when the index is
    outside the series. *)
Inductive IndicatorSignal : Type := ind_buy | ind_sell | ind_hold.

Definition getRSISignal (value : option (option num)) : IndicatorSignal :=
  if negb (not_null value) then ind_hold
  else if to_num value <? 30 then ind_buy
  else if to_num value >? 70 then ind_sell
  else ind_hold.

Definition getMACDSignal (histogram : option (option num))
    : IndicatorSignal :=
  if negb (not_null histogram) then ind_hold
  else if to_num histogram >? 0 then ind_buy
  else if to_num histogram <? 0 then ind_sell
  else ind_hold.

Definition getStochSignal (k d : option (option num)) : IndicatorSignal :=
  if negb (not_null k) || negb (not_null d) then ind_hold
  else if (to_num k <? 20) && (to_num d <? 20) then ind_buy
  else if (to_num k >? 80) && (to_num d >? 80) then ind_sell
  else ind_hold.

Definition getCCISignal (value : option (option num)) : IndicatorSignal :=
  if negb (not_null value) then ind_hold
  else if to_num value <? -100 then ind_buy
  else if to_num value >? 100 then ind_sell
  else ind_hold.

Definition getWilliamsRSignal (value : option (option num))
    : IndicatorSignal :=
  if negb (not_null value) then ind_hold
  else if to_num value <? -80 then ind_buy
  else if to_num value >? -20 then ind_sell
  else ind_hold.

Definition getADXInterpretation (value : option (option num)) : string :=
  if negb (not_null value) then "Bilinmiyor"
  else if to_num value >? 50 then "Çok Güçlü Trend"
  else if to_num value >? 25 then "Güçlü Trend"
  else if to_num value >? 20 then "Zayıf Trend"
  else "Trend Yok (Yatay)".

Record IndicatorResult : Type := {
  ir_name : string;
  ir_value : option (option num);
  ir_signal : option IndicatorSignal;
  ir_interpretation : option string;
}.

Definition getAllIndicators `{Runtime} (candles : list Candle)
    : result (list IndicatorResult) :=
  let closes := map (λ c, Fin (close c)) candles in
  let lastIndex := (len candles - 1)%Z in
  let rsi := calculateRSI closes 14 in
  let m := calculateMACD closes 12 26 9 in
  let bb := calculateBollingerBands closes 20 2 in
  stoch ← calculateStochastic candles 14 3;
  let cci := calculateCCI candles 20 in
  adx ← calculateADX candles 14;
  atr ← calculateATR candles 14;
  williamsR ← calculateWilliamsR candles 14;
  let sma20 := calculateSMA closes 20 in
  let sma50 := calculateSMA closes 50 in
  let ema12 := calculateEMA closes 12 in
  let ema26 := calculateEMA closes 26 in
  let plain name series :=
    {| ir_name := name; ir_value := idx series lastIndex;
       ir_signal := None; ir_interpretation := None |} in
  let with_signal name series sg :=
    {| ir_name := name; ir_value := idx series lastIndex;
       ir_signal := Some sg; ir_interpretation := None |} in
  Ok [with_signal "RSI (14)" rsi (getRSISignal (idx rsi lastIndex));
      with_signal "MACD" (macd m)
        (getMACDSignal (idx (histogram m) lastIndex));
      plain "MACD Signal" (signal m);
      plain "MACD Histogram" (histogram m);
      plain "Bollinger Upper" (upper bb);
      plain "Bollinger Middle" (middle bb);
      plain "Bollinger Lower" (lower bb);
      with_signal "Stochastic %K" (k stoch)
        (getStochSignal (idx (k stoch) lastIndex) (idx (d stoch) lastIndex));
      plain "Stochastic %D" (d stoch);
      with_signal "CCI (20)" cci (getCCISignal (idx cci lastIndex));
      {| ir_name := "ADX (14)"; ir_value := idx adx lastIndex;
         ir_signal := None;
         ir_interpretation :=
           Some (getADXInterpretation (idx adx lastIndex)) |};
      plain "ATR (14)" atr;
      with_signal "Williams %R" williamsR
        (getWilliamsRSignal (idx williamsR lastIndex));
      plain "SMA 20" sma20;
      plain "SMA 50" sma50;
      plain "EMA 12" ema12;
      plain "EMA 26" ema26].

End Indicators.

(* ================================================================= *)
(** ** riskManagementService *)

Module Risk.
Import Indicators.
Local Open Scope Q_scope.
Local Open Scope js_scope.

Inductive Direction : Type := long | short.
Inductive Volatility : Type := vol_low | vol_medium | vol_high.

Record RiskLevels : Type := {
  entryPrice : num;
  stopLoss : num;
  takeProfit1 : num;
  takeProfit2 : num;
  takeProfit3 : num;
  stopLossPercent : num;
  takeProfitPercent : num;
  riskRewardRatio : num;
  atrValue : num;
  volatilityLevel : Volatility;
}.

(** "Determine volatility level". *)
Definition classifyVolatility (atrPercent : num) : Volatility :=
  if atrPercent <? 2 then vol_low
  else if atrPercent <? 5 then vol_medium
  else vol_high.

(** "Adjust multipliers based on volatility": the adjusted stop-loss and
    take-profit multipliers. *)
Definition adjustMultipliers (volatilityLevel : Volatility)
    (atrMultiplierSL atrMultiplierTP : num) : num * num :=
  match volatilityLevel with
  | vol_high => (atrMultiplierSL * 0.8, atrMultiplierTP * 1.2)
  | vol_low => (atrMultiplierSL * 1.2, atrMultiplierTP * 0.9)
  | vol_medium => (atrMultiplierSL, atrMultiplierTP)
  end.

(** [currentATR] and [atrPercent] of [calculateDynamicRiskLevels]. *)
Definition currentATR_of (candles : list Candle) (entryPrice : num)
    : result num :=
  atrValues ← calculateATR candles 14;
  Ok (or_else (idx atrValues (len atrValues - 1)) (entryPrice * 0.02)).

Definition atrPercent_of (candles : list Candle) (currentATR : num) : num :=
  let avgPrice :=
    fold_left (λ sum c, sum + close c) (slice_from candles (-14)) (Fin 0)
    / 14 in
  (currentATR / avgPrice) * 100.

Definition calculateDynamicRiskLevels (candles : list Candle)
    (entryPrice : num) (direction : Direction)
    (atrMultiplierSL atrMultiplierTP : num) : result RiskLevels :=
  currentATR ← currentATR_of candles entryPrice;
  let atrPercent := atrPercent_of candles currentATR in
  let volatilityLevel := classifyVolatility atrPercent in
  let '(adjustedSLMult, adjustedTPMult) :=
    adjustMultipliers volatilityLevel atrMultiplierSL atrMultiplierTP in
  let '(stopLoss, takeProfit1, takeProfit2, takeProfit3) :=
    match direction with
    | long =>
        (entryPrice - (currentATR * adjustedSLMult),
         entryPrice + ((currentATR * adjustedTPMult) * 0.5),
         entryPrice + (currentATR * adjustedTPMult),
         entryPrice + ((currentATR * adjustedTPMult) * 1.5))
    | short =>
        (entryPrice + (currentATR * adjustedSLMult),
         entryPrice - ((currentATR * adjustedTPMult) * 0.5),
         entryPrice - (currentATR * adjustedTPMult),
         entryPrice - ((currentATR * adjustedTPMult) * 1.5))
    end in
  let stopLossPercent := nabs ((entryPrice - stopLoss) / entryPrice) * 100 in
  let takeProfitPercent :=
    nabs ((takeProfit2 - entryPrice) / entryPrice) * 100 in
  let riskRewardRatio := takeProfitPercent / stopLossPercent in
  Ok {| entryPrice := entryPrice;
        stopLoss := stopLoss;
        takeProfit1 := takeProfit1;
        takeProfit2 := takeProfit2;
        takeProfit3 := takeProfit3;
        stopLossPercent := stopLossPercent;
        takeProfitPercent := takeProfitPercent;
        riskRewardRatio := riskRewardRatio;
        atrValue := currentATR;
        volatilityLevel := volatilityLevel |}.

(** The defaults of the optional parameters. *)
Definition default_atrMultiplierSL : num := 2.
Definition default_atrMultiplierTP : num := 3.

(** [[...new Set(xs)]]: first occurrences, in insertion order. *)
Definition same_value (a b : num) : bool :=
  match a, b with NaN, NaN => true | _, _ => a === b end.

Definition dedupe (xs : list num) : list num :=
  fold_left (λ acc x, if existsb (same_value x) acc then acc else acc ++ [x])
            xs [].

(** [xs.sort(cmp)] as a stable insertion sort; [after a b] says that
    [cmp(a, b) > 0]. *)
Fixpoint sort_insert (after : num → num → bool) (x : num) (l : list num)
    : list num :=
  match l with
  | [] => [x]
  | y :: l' => if after x y then y :: sort_insert after x l' else x :: l
  end.

Definition js_sort (after : num → num → bool) (xs : list num) : list num :=
  foldr (sort_insert after) [] xs.

(** [a || b] on a value that may be [undefined]. *)
Definition or_undef (a : option num) (b : option num) : option num :=
  match a with
  | Some n => if truthy n then Some n else b
  | None => b
  end.

Record SupportResistance : Type := {
  supports : list num;
  resistances : list num;
  pivotPoint : num;
  nearestSupport : num;
  nearestResistance : num;
}.

Definition getSupportResistanceLevels (candles : list Candle)
    (lookback : Z) : result SupportResistance :=
  let recentCandles := slice_from candles (- lookback) in
  '(swingHighs, swingLows) ←
    for_loop_r 2 (len recentCandles - 2) (λ i '(swingHighs, swingLows),
      current ← cget recentCandles i;
      prev1 ← cget recentCandles (i - 1);
      prev2 ← cget recentCandles (i - 2);
      next1 ← cget recentCandles (i + 1);
      next2 ← cget recentCandles (i + 2);
      let swingHighs :=
        if (high current >? high prev1) && (high current >? high prev2)
           && (high current >? high next1) && (high current >? high next2)
        then swingHighs ++ [Fin (high current)] else swingHighs in
      let swingLows :=
        if (low current <? low prev1) && (low current <? low prev2)
           && (low current <? low next1) && (low current <? low next2)
        then swingLows ++ [Fin (low current)] else swingLows in
      Ok (swingHighs, swingLows)) ([], []);
  lastCandle ← cget recentCandles (len recentCandles - 1);
  let pivotPoint :=
    ((Fin (high lastCandle) + low lastCandle) + close lastCandle) / 3 in
  let supports := js_sort (λ a b, (b - a) >? 0) (dedupe swingLows) in
  let resistances := js_sort (λ a b, (a - b) >? 0) (dedupe swingHighs) in
  let currentPrice : num := close lastCandle in
  let nearestSupport :=
    default (currentPrice * 0.95)
      (or_undef (or_undef (find (λ s, s <? currentPrice) supports)
                          (idx supports 0))
                (Some (currentPrice * 0.95))) in
  let nearestResistance :=
    default (currentPrice * 1.05)
      (or_undef (or_undef (find (λ r, r >? currentPrice) resistances)
                          (idx resistances (len resistances - 1)))
                (Some (currentPrice * 1.05))) in
  Ok {| supports := slice supports 0 5;
        resistances := slice resistances 0 5;
        pivotPoint := pivotPoint;
        nearestSupport := nearestSupport;
        nearestResistance := nearestResistance |}.

Record SmartRiskLevels : Type := {
  levels : RiskLevels;
  method : string;
  supportResistance : SupportResistance;
}.

Definition getSmartRiskLevels (candles : list Candle) (entryPrice : num)
    (direction : Direction) : result SmartRiskLevels :=
  atrLevels ← calculateDynamicRiskLevels candles entryPrice direction
                 default_atrMultiplierSL default_atrMultiplierTP;
  srLevels ← getSupportResistanceLevels candles 100;
  let smartSL := stopLoss atrLevels in
  let smartTP := takeProfit2 atrLevels in
  let method := "ATR-Based" in
  let '(smartSL, smartTP, method) :=
    match direction with
    | long =>
        let '(smartSL, method) :=
          if (nearestSupport srLevels >? stopLoss atrLevels)
             && (nearestSupport srLevels <? entryPrice)
          then (nearestSupport srLevels * 0.995, "Support-Based")
          else (smartSL, method) in
        let smartTP :=
          if (nearestResistance srLevels <? takeProfit2 atrLevels)
             && (nearestResistance srLevels >? entryPrice)
          then nearestResistance srLevels * 0.995
          else smartTP in
        (smartSL, smartTP, method)
    | short =>
        let '(smartSL, method) :=
          if (nearestResistance srLevels <? stopLoss atrLevels)
             && (nearestResistance srLevels >? entryPrice)
          then (nearestResistance srLevels * 1.005, "Resistance-Based")
          else (smartSL, method) in
        let smartTP :=
          if (nearestSupport srLevels >? takeProfit2 atrLevels)
             && (nearestSupport srLevels <? entryPrice)
          then nearestSupport srLevels * 1.005
          else smartTP in
        (smartSL, smartTP, method)
    end in
  let stopLossPercent := nabs ((entryPrice - smartSL) / entryPrice) * 100 in
  let takeProfitPercent :=
    nabs ((smartTP - entryPrice) / entryPrice) * 100 in
  Ok {| levels :=
          {| entryPrice := Risk.entryPrice atrLevels;
             stopLoss := smartSL;
             takeProfit1 := takeProfit1 atrLevels;
             takeProfit2 := smartTP;
             takeProfit3 := takeProfit3 atrLevels;
             stopLossPercent := stopLossPercent;
             takeProfitPercent := takeProfitPercent;
             riskRewardRatio := takeProfitPercent / stopLossPercent;
             atrValue := atrValue atrLevels;
             volatilityLevel := volatilityLevel atrLevels |};
        method := method;
        supportResistance := srLevels |}.

Record PositionSizeResult : Type := {
  recommendedSize : num;
  maxSize : num;
  riskAmount : num;
  portfolioRiskPercent : num;
}.

Definition calculatePositionSize (portfolioValue entryPrice stopLoss
    maxRiskPercent : num) : PositionSizeResult :=
  let riskPerUnit := nabs (entryPrice - stopLoss) in
  let riskAmount := portfolioValue * (maxRiskPercent / 100) in
  let recommendedSize := riskAmount / riskPerUnit in
  let maxSize := (portfolioValue * 0.1) / entryPrice in
  {| recommendedSize := nmin recommendedSize maxSize;
     maxSize := maxSize;
     riskAmount := riskAmount;
     portfolioRiskPercent := maxRiskPercent |}.

Definition default_maxRiskPercent : num := 2.

Definition calculateTrailingStop (entryPrice currentPrice highestPrice atr
    trailingMultiplier : num) : num :=
  let atrTrail := highestPrice - (atr * trailingMultiplier) in
  let percentTrail := highestPrice * 0.95 in
  let trailingStop := nmax atrTrail percentTrail in
  if currentPrice >? entryPrice * 1.02 then nmax trailingStop entryPrice
  else trailingStop.

Definition default_trailingMultiplier : num := 2.5.

End Risk.

(* ================================================================= *)
(** ** analysisService: the Council *)

Module Council.
Import Indicators.
Local Open Scope Q_scope.
Local Open Scope js_scope.

Inductive SignalAction : Type := buy | sell | hold | wait | skip.

#[export] Instance SignalAction_eq_dec : EqDecision SignalAction :=
  ltac:(solve_decision).

Record ModuleVote : Type := {
  module : string;
  score : num;
  direction : SignalAction;
  confidence : num;
  reason : string;
}.

Record CouncilDecision : Type := {
  id : string;
  symbol : string;
  timestamp : Z;
  finalAction : SignalAction;
  overallScore : num;
  decisionConfidence : num;
  votes : list ModuleVote;
  conflicts : list string;
  dominantSignals : list string;
  decisionReason : string;
}.

Definition nnum (n : nat) : num := znum (Z.of_nat n).

(** [score > hi ? 'buy' : score < -hi ? 'sell' : 'hold']. *)
Definition direction_of (score hi : num) : SignalAction :=
  if score >? hi then buy else if score <? - hi then sell else hold.

Definition getOrionVote (candles : list Candle) : result ModuleVote :=
  let closes := map (λ c, Fin (close c)) candles in
  let last := (len closes - 1)%Z in
  let m := calculateMACD closes 12 26 9 in
  adx ← calculateADX candles 14;
  let currH := or_else (idx (histogram m) last) 0 in
  let prevH := or_else (idx (histogram m) (last - 1)) 0 in
  let adxVal := or_else (idx adx last) 0 in
  let currMACD := or_else (idx (macd m) last) 0 in
  let currSignal := or_else (idx (signal m) last) 0 in
  let momentum := currH - prevH in
  let score := (currH * 8) + (momentum * 15) in
  let score :=
    if (currMACD >? currSignal) && (momentum >? 0) then score + 20
    else score in
  let score :=
    if (currMACD <? currSignal) && (momentum <? 0) then score - 20
    else score in
  let score := nmax (-100) (nmin 100 score) in
  let reason :=
    if score >? 60 then "Süper-akışkan momentum artışı tespit edildi"
    else if score >? 20 then "Pozitif momentum dalgası oluşuyor"
    else if score <? -60 then "Momentum çöküşü, hacimli satış baskısı"
    else if score <? -20 then "Negatif ivme hızlanıyor"
    else "Momentum stabil" in
  Ok {| module := "Orion";
        score := score;
        direction := direction_of score 15;
        confidence := nmin 100 ((adxVal * 2.5) + 20);
        reason := reason |}.

Definition getAtlasVote (candles : list Candle) : ModuleVote :=
  let closes := map (λ c, Fin (close c)) candles in
  let last := (len closes - 1)%Z in
  let sma20 := calculateSMA closes 20 in
  let sma50 := calculateSMA closes 50 in
  let sma200 := calculateSMA closes 200 in
  let s20 := or_else (idx sma20 last) 0 in
  let s50 := or_else (idx sma50 last) 0 in
  let s200 := or_else (idx sma200 last) 0 in
  let price := rd closes last in
  let '(score, reason) :=
    if (price >? s50) && (s50 >? s200)
    then (Fin 70, "Makro trend boğa piyasasını işaret ediyor")
    else if (price <? s50) && (s50 <? s200)
    then (Fin (-70), "Makro trend ayı piyasası derinleşiyor")
    else if (price >? s20) && (s20 >? s50)
    then (Fin 40, "Kısa vadeli trend yükseliş modunda")
    else if (price <? s20) && (s20 <? s50)
    then (Fin (-40), "Kısa vadeli trend düşüş baskısı altında")
    else (Fin 0, "Piyasa dengede") in
  let '(score, reason) :=
    if s200 >? 0 then
      let dist := (price - s200) / s200 in
      if dist >? 0.2 then (score - 15, reason +:+ " (Aşırı genişleme)")
      else if dist <? -0.2
      then (score + 15, reason +:+ " (Aşırı satım bölgesi)")
      else (score, reason)
    else (score, reason) in
  {| module := "Atlas";
     score := nmax (-100) (nmin 100 score);
     direction := direction_of score 20;
     confidence := 85;
     reason := reason |}.

(** The divisor and the unclamped score of [getAetherVote]. *)
Definition aether_inputs `{Runtime} (candles : list Candle)
    : num * num * num * num :=
  let closes := map (λ c, Fin (close c)) candles in
  let last := (len closes - 1)%Z in
  let bb := calculateBollingerBands closes 20 2 in
  let u := or_else (idx (upper bb) last) 0 in
  let l := or_else (idx (lower bb) last) 0 in
  let mid := or_else (idx (middle bb) last) 0 in
  let p := rd closes last in
  (u, l, mid, p).

Definition getAetherVote `{Runtime} (candles : list Candle) : ModuleVote :=
  let '(u, l, mid, p) := aether_inputs candles in
  let bandWidth := u - l in
  let score := ((mid - p) / (u - mid)) * 80 in
  let reason :=
    if p <=? l then "Fiyat alt bantta, tepki alımı beklenebilir"
    else if p >=? u then "Fiyat üst bantta, kar satışı sinyali"
    else if p >? mid then "Bant içi pozitif akış devam ediyor"
    else "Bant içi negatif baskı hakim" in
  {| module := "Aether";
     score := nmax (-100) (nmin 100 score);
     direction := direction_of score 20;
     confidence := 75;
     reason := reason |}.

Definition getHermesVote (candles : list Candle) : result ModuleVote :=
  let closes := map (λ c, Fin (close c)) candles in
  let last := (len closes - 1)%Z in
  let rsi := or_else (idx (calculateRSI closes 14) last) 50 in
  st ← calculateStochastic candles 14 3;
  let sk := or_else (idx (k st) last) 50 in
  let sd := or_else (idx (d st) last) 50 in
  let score := (50 - rsi) * 2 in
  let score := if (rsi <? 30) && (sk <? 20) then score + 30 else score in
  let score := if (rsi >? 70) && (sk >? 80) then score - 30 else score in
  let score := nmax (-100) (nmin 100 score) in
  let reason :=
    if rsi <? 30 then "Aşırı satım: Toparlanma sinyalleri"
    else if rsi >? 70 then "Aşırı alım: Düzeltme riski yüksek"
    else if sk >? sd then "Stokastik yukarı yönlü kesişim"
    else "Fiyat hızı yavaşlıyor" in
  Ok {| module := "Hermes";
        score := score;
        direction := direction_of score 15;
        confidence := 70;
        reason := reason |}.

Definition getChronosVote (candles : list Candle) : ModuleVote :=
  let last := (len candles - 1)%Z in
  let cci := or_else (idx (calculateCCI candles 20) last) 0 in
  let score := (- cci) / 1.5 in
  let reason :=
    if cci >? 200 then "Döngü tepe noktasına ulaştı, satış yakın"
    else if cci <? -200 then "Döngü dip yaptı, güçlü dönüş beklentisi"
    else if nabs cci >? 100 then "Döngüsel aşırılık başladı"
    else "Döngüsel denge" in
  {| module := "Chronos";
     score := nmax (-100) (nmin 100 score);
     direction := direction_of score 20;
     confidence := 72;
     reason := reason |}.

Definition getPoseidonVote (candles : list Candle) : ModuleVote :=
  let volumes := map (λ c, Fin (volume c)) candles in
  let closes := map (λ c, Fin (close c)) candles in
  let last := (len volumes - 1)%Z in
  let avgVol := sum_list (slice_from volumes (-20)) / 20 in
  let currentVol := rd volumes last in
  let volRatio := currentVol / avgVol in
  let priceChange :=
    (rd closes last - rd closes (last - 1)) / rd closes (last - 1) in
  let score := (priceChange * volRatio) * 1500 in
  let reason :=
    if volRatio >? 2.5 then "OLAĞANÜSTÜ HACİM: Balina aktivitesi!"
    else if volRatio >? 1.5 then "Hacim artışı: Kurumsal ilgi"
    else if volRatio <? 0.6 then "Düşük hacim: İlgi kaybı"
    else "Hacim stabil" in
  {| module := "Poseidon";
     score := nmax (-100) (nmin 100 score);
     direction := direction_of score 10;
     confidence := nmin 100 ((volRatio * 40) + 20);
     reason := reason |}.

Definition count_direction (a : SignalAction) (vs : list ModuleVote) : nat :=
  length (filter (λ v, direction v = a) vs).

Definition getArgusVote (prevVotes : list ModuleVote) : ModuleVote :=
  let avgScore :=
    fold_left (λ a b, a + score b) prevVotes (Fin 0)
    / nnum (length prevVotes) in
  let consensus :=
    count_direction (if avgScore >? 0 then buy else sell) prevVotes in
  let reason :=
    if (5 <=? consensus)%nat then "GÜÇLÜ KONSEY KONSENSÜSÜ"
    else if (3 <=? consensus)%nat then "Ilımlı konsensüs oluşuyor"
    else "Modüller arası uyumsuzluk" in
  {| module := "Argus";
     score := avgScore;
     direction := direction_of avgScore 10;
     confidence := 90 + nnum consensus;
     reason := reason |}.

Definition createFallbackDecision (symbol : string) (now : Z)
    : CouncilDecision :=
  {| id := "fallback";
     symbol := symbol;
     timestamp := now;
     finalAction := hold;
     overallScore := 0;
     decisionConfidence := 0;
     votes := [];
     conflicts := [];
     dominantSignals := [];
     decisionReason := "Yetersiz veri (Minimum 50 mum gerekli)" |}.

Definition toUpperCase (a : SignalAction) : string :=
  match a with
  | buy => "BUY" | sell => "SELL" | hold => "HOLD"
  | wait => "WAIT" | skip => "SKIP"
  end.

(** The seven votes, in the order they are pushed. *)
Definition council_votes `{Runtime} (candles : list Candle)
    : result (list ModuleVote) :=
  orion ← getOrionVote candles;
  let votes := [orion] in
  let votes := votes ++ [getAtlasVote candles] in
  let votes := votes ++ [getAetherVote candles] in
  hermes ← getHermesVote candles;
  let votes := votes ++ [hermes] in
  let votes := votes ++ [getChronosVote candles] in
  let votes := votes ++ [getPoseidonVote candles] in
  Ok (votes ++ [getArgusVote votes]).

(** [uuid] and [now] stand for [crypto.randomUUID()] and [new Date()]. *)
Definition generateCouncilDecision `{Runtime} (candles : list Candle)
    (symbol : string) (uuid : string) (now : Z) : result CouncilDecision :=
  if (len candles <? 50)%Z then Ok (createFallbackDecision symbol now) else
  votes ← council_votes candles;
  let avgScore :=
    fold_left (λ a b, a + score b) votes (Fin 0) / nnum (length votes) in
  let buyVotes := count_direction buy votes in
  let sellVotes := count_direction sell votes in
  let closes := map (λ c, Fin (close c)) candles in
  let last := (len closes - 1)%Z in
  let rsi := or_else (idx (calculateRSI closes 14) last) 50 in
  let '(finalAction, triggerReason) :=
    if rsi <? 24
    then (buy, "KRİTİK AŞIRI SATIM TETİKLENDİ (RSI < 24)")
    else if rsi >? 78
    then (sell, "KRİTİK AŞIRI ALIM TETİKLENDİ (RSI > 78)")
    else if (4 <=? buyVotes)%nat then (buy, "")
    else if (4 <=? sellVotes)%nat then (sell, "")
    else (hold, "") in
  let confidence :=
    (nabs avgScore * 0.5) + (nmax (nnum buyVotes) (nnum sellVotes) * 10) in
  let confidence :=
    if (4 <=? buyVotes)%nat || (4 <=? sellVotes)%nat
    then nmax 65 confidence else confidence in
  let confidence :=
    if (6 <=? buyVotes)%nat || (6 <=? sellVotes)%nat
    then nmax 85 confidence else confidence in
  let confidence := nmin 100 confidence in
  Ok {| id := uuid;
        symbol := symbol;
        timestamp := now;
        finalAction := finalAction;
        overallScore := avgScore;
        decisionConfidence := confidence;
        votes := votes;
        conflicts := [];
        dominantSignals := [];
        decisionReason :=
          if String.eqb triggerReason "" then
            "Konsey " +:+ pretty buyVotes +:+ " Al, " +:+ pretty sellVotes
            +:+ " Sat oyu ile " +:+ toUpperCase finalAction
            +:+ " kararı verdi."
          else triggerReason |}.

(** The compatibility exports.  [breakdown] is the empty object. *)
Record CompositeScore : Type := {
  totalScore : num;
  breakdown : list (string * num);
  sentiment : SignalAction;
}.

Definition calculateCompositeScore `{Runtime} (candles : list Candle)
    (uuid : string) (now : Z) : result CompositeScore :=
  decision ← generateCouncilDecision candles "TEMP" uuid now;
  Ok {| totalScore := overallScore decision;
        breakdown := [];
        sentiment := finalAction decision |}.

Inductive MarketRegime : Type := trending | ranging | volatile.

Definition detectMarketRegime (candles : list Candle) : result MarketRegime :=
  let closes := map (λ c, Fin (close c)) candles in
  let last := (len closes - 1)%Z in
  adxValues ← calculateADX candles 14;
  let adx := or_else (idx adxValues last) 0 in
  if adx >? 25 then Ok trending
  else if adx <? 15 then Ok ranging
  else Ok volatile.

Record TradeSignal : Type := {
  sig_id : string;
  sig_symbol : string;
  sig_action : SignalAction;
  sig_price : num;
  sig_confidence : num;
  sig_timestamp : Z;
  sig_reason : string;
}.

Definition generateSignals `{Runtime} (candles : list Candle)
    (uuid : string) (now : Z) : result (list TradeSignal) :=
  decision ← generateCouncilDecision candles "TEMP" uuid now;
  if bool_decide (finalAction decision = hold) then Ok [] else
  lastCandle ← cget candles (len candles - 1);
  Ok [{| sig_id := id decision;
         sig_symbol := symbol decision;
         sig_action := finalAction decision;
         sig_price := close lastCandle;
         sig_confidence := decisionConfidence decision;
         sig_timestamp := timestamp decision;
         sig_reason := decisionReason decision |}].

End Council.

(* ================================================================= *)
(** ** backtestEngine *)

Module Backtest.
Import Indicators.
Local Open Scope Q_scope.
Local Open Scope js_scope.

(** Values of the untyped ([any]) indicator object: a property that an
    object does not have reads as [undefined], and reading a property
    or an index of [undefined] or [null] throws. *)
#[warnings="-register-all"]
Inductive jsv : Type :=
  | VUndef
  | VNull
  | VNum (n : num)
  | VArr (a : list (option num))
  | VObj (fields : list (string * jsv)).

Fixpoint assoc (k : string) (fields : list (string * jsv)) : option jsv :=
  match fields with
  | [] => None
  | (k', v) :: fields' => if String.eqb k k' then Some v else assoc k fields'
  end.

Definition get_prop (v : jsv) (k : string) : result jsv :=
  match v with
  | VObj fields => Ok (default VUndef (assoc k fields))
  | VUndef | VNull => Throw TypeError
  | _ => Ok VUndef
  end.

Definition get_index (v : jsv) (i : Z) : result jsv :=
  match v with
  | VArr a =>
      Ok match idx a i with
         | Some (Some n) => VNum n
         | Some None => VNull
         | None => VUndef
         end
  | VUndef | VNull => Throw TypeError
  | _ => Ok VUndef
  end.

(** [v !== null] and the number a value compares as. *)
Definition jnot_null (v : jsv) : bool :=
  match v with VNull => false | _ => true end.

Definition jnum (v : jsv) : num :=
  match v with
  | VNum n => n
  | VNull => Fin 0
  | _ => NaN
  end.

Inductive BacktestStrategy : Type :=
  | rsiMeanReversion
  | macdCrossover
  | bollingerBreakout
  | goldenCross
  | trendFollowing
  | argusComposite.

Record BacktestConfig : Type := {
  strategy : BacktestStrategy;
  initialCapital : num;
  positionSize : num;
  stopLoss : num;
  takeProfit : num;
  commission : num;
}.

Record PartialConfig : Type := {
  p_strategy : option BacktestStrategy;
  p_initialCapital : option num;
  p_positionSize : option num;
  p_stopLoss : option num;
  p_takeProfit : option num;
  p_commission : option num;
}.

Inductive Signal : Type := sig_buy | sig_sell | sig_hold.
Inductive TradeType : Type := type_buy | type_sell.

Record BacktestTrade : Type := {
  id : string;
  type : TradeType;
  entryDate : Z;
  exitDate : option Z;
  entryPrice : num;
  exitPrice : option num;
  quantity : num;
  pnl : option num;
  pnlPercent : option num;
  reason : string;
  exitReason : option string;
}.

Record SignalEvent : Type := {
  sig_date : Z;
  sig_type : TradeType;
  sig_price : num;
  sig_reason : string;
}.

Record BacktestResult : Type := {
  r_strategy : BacktestStrategy;
  r_symbol : string;
  startDate : Z;
  endDate : Z;
  r_initialCapital : num;
  finalCapital : num;
  totalReturn : num;
  totalReturnPercent : num;
  maxDrawdown : num;
  maxDrawdownPercent : num;
  winRate : num;
  totalTrades : nat;
  winningTrades : nat;
  losingTrades : nat;
  avgWin : num;
  avgLoss : num;
  profitFactor : num;
  sharpeRatio : num;
  trades : list BacktestTrade;
  equityCurve : list (Z * num);
  signals : list SignalEvent;
}.

Definition DEFAULT_CONFIG : BacktestConfig :=
  {| strategy := rsiMeanReversion;
     initialCapital := 10000;
     positionSize := 0.2;
     stopLoss := 0.05;
     takeProfit := 0.15;
     commission := 0.001 |}.

(** [{ ...DEFAULT_CONFIG, ...config }]. *)
Definition merge_config (config : PartialConfig) : BacktestConfig :=
  {| strategy := default (strategy DEFAULT_CONFIG) (p_strategy config);
     initialCapital :=
       default (initialCapital DEFAULT_CONFIG) (p_initialCapital config);
     positionSize :=
       default (positionSize DEFAULT_CONFIG) (p_positionSize config);
     stopLoss := default (stopLoss DEFAULT_CONFIG) (p_stopLoss config);
     takeProfit := default (takeProfit DEFAULT_CONFIG) (p_takeProfit config);
     commission := default (commission DEFAULT_CONFIG) (p_commission config) |}.

Definition calculateIndicators `{Runtime} (candles : list Candle)
    (strategy : BacktestStrategy) : jsv :=
  let prices := map (λ c, Fin (close c)) candles in
  let m := calculateMACD prices 12 26 9 in
  let bb := calculateBollingerBands prices 20 2 in
  VObj [("rsi", VArr (calculateRSI prices 14));
        ("macd", VObj [("macd", VArr (macd m));
                       ("signal", VArr (signal m));
                       ("histogram", VArr (histogram m))]);
        ("bollinger", VObj [("upper", VArr (upper bb));
                            ("middle", VArr (middle bb));
                            ("lower", VArr (lower bb))]);
        ("sma20", VArr (calculateSMA prices 20));
        ("sma50", VArr (calculateSMA prices 50));
        ("sma200", VArr (calculateSMA prices 200));
        ("ema12", VArr (calculateEMA prices 12));
        ("ema26", VArr (calculateEMA prices 26))].

(** [o.a[i]] and [o.a.b[i]]. *)
Definition at1 (o : jsv) (a : string) (i : Z) : result jsv :=
  x ← get_prop o a; get_index x i.

Definition at2 (o : jsv) (a b : string) (i : Z) : result jsv :=
  x ← get_prop o a; y ← get_prop x b; get_index y i.

Definition generateSignal (index : Z) (candles : list Candle)
    (indicators : jsv) (strategy : BacktestStrategy) : result Signal :=
  c ← cget candles index;
  let price : num := close c in
  cp ← cget candles (index - 1);
  let prevPrice : num := close cp in
  match strategy with
  | rsiMeanReversion =>
      rsi ← at1 indicators "rsi" index;
      prevRsi ← at1 indicators "rsi" (index - 1);
      if jnot_null rsi && jnot_null prevRsi then
        if (jnum rsi <? 30) && (jnum prevRsi <=? jnum rsi) then Ok sig_buy
        else if (jnum rsi >? 70) && (jnum prevRsi >=? jnum rsi)
        then Ok sig_sell
        else Ok sig_hold
      else Ok sig_hold
  | macdCrossover =>
      macdLine ← at2 indicators "macd" "macdLine" index;
      signalLine ← at2 indicators "macd" "signalLine" index;
      prevMacd ← at2 indicators "macd" "macdLine" (index - 1);
      prevSignal ← at2 indicators "macd" "signalLine" (index - 1);
      if jnot_null macdLine && jnot_null signalLine
         && jnot_null prevMacd && jnot_null prevSignal then
        if (jnum prevMacd <=? jnum prevSignal)
           && (jnum macdLine >? jnum signalLine) then Ok sig_buy
        else if (jnum prevMacd >=? jnum prevSignal)
                && (jnum macdLine <? jnum signalLine) then Ok sig_sell
        else Ok sig_hold
      else Ok sig_hold
  | bollingerBreakout =>
      upper ← at2 indicators "bollinger" "upper" index;
      lower ← at2 indicators "bollinger" "lower" index;
      middle ← at2 indicators "bollinger" "middle" index;
      if jnot_null upper && jnot_null lower then
        if price <? jnum lower then Ok sig_buy
        else if price >? jnum upper then Ok sig_sell
        else Ok sig_hold
      else Ok sig_hold
  | goldenCross =>
      sma50 ← at1 indicators "sma50" index;
      sma200 ← at1 indicators "sma200" index;
      prevSma50 ← at1 indicators "sma50" (index - 1);
      prevSma200 ← at1 indicators "sma200" (index - 1);
      if jnot_null sma50 && jnot_null sma200
         && jnot_null prevSma50 && jnot_null prevSma200 then
        if (jnum prevSma50 <=? jnum prevSma200)
           && (jnum sma50 >? jnum sma200) then Ok sig_buy
        else if (jnum prevSma50 >=? jnum prevSma200)
                && (jnum sma50 <? jnum sma200) then Ok sig_sell
        else Ok sig_hold
      else Ok sig_hold
  | trendFollowing =>
      sma20 ← at1 indicators "sma20" index;
      sma50 ← at1 indicators "sma50" index;
      rsi ← at1 indicators "rsi" index;
      if jnot_null sma20 && jnot_null sma50 && jnot_null rsi then
        if (price >? jnum sma20) && (jnum sma20 >? jnum sma50)
           && (jnum rsi >? 50) && (jnum rsi <? 70) then Ok sig_buy
        else if (price <? jnum sma20) && (jnum sma20 <? jnum sma50)
                && (jnum rsi <? 50) then Ok sig_sell
        else Ok sig_hold
      else Ok sig_hold
  | argusComposite =>
      rsi ← at1 indicators "rsi" index;
      macdHist ← at2 indicators "macd" "histogram" index;
      sma20 ← at1 indicators "sma20" index;
      lower ← at2 indicators "bollinger" "lower" index;
      upper ← at2 indicators "bollinger" "upper" index;
      let score := 0%Z in
      let score :=
        if jnot_null rsi then
          if jnum rsi <? 30 then (score + 2)%Z
          else if jnum rsi <? 40 then (score + 1)%Z
          else if jnum rsi >? 70 then (score - 2)%Z
          else if jnum rsi >? 60 then (score - 1)%Z
          else score
        else score in
      let score :=
        if jnot_null macdHist then
          if jnum macdHist >? 0 then (score + 1)%Z else (score - 1)%Z
        else score in
      let score :=
        if jnot_null sma20 then
          if price >? jnum sma20 then (score + 1)%Z else (score - 1)%Z
        else score in
      let score :=
        if jnot_null lower && (price <? jnum lower) then (score + 2)%Z
        else score in
      let score :=
        if jnot_null upper && (price >? jnum upper) then (score - 2)%Z
        else score in
      if (score >=? 3)%Z then Ok sig_buy
      else if (score <=? -3)%Z then Ok sig_sell
      else Ok sig_hold
  end.

(** [indicators.rsi[index]?.toFixed(1) || '-']. *)
Definition rsi_label `{Runtime} (indicators : jsv) (index : Z)
    : result string :=
  v ← at1 indicators "rsi" index;
  match v with
  | VNum n => let t := toFixed n 1 in
              Ok (if String.eqb t "" then "-" else t)
  | _ => Ok "-"
  end.

Definition getSignalReason `{Runtime} (strategy : BacktestStrategy)
    (type : TradeType) (indicators : jsv) (index : Z) : result string :=
  oversold ← rsi_label indicators index;
  overbought ← rsi_label indicators index;
  Ok match strategy, type with
     | rsiMeanReversion, type_buy => "RSI Oversold (" +:+ oversold +:+ ")"
     | rsiMeanReversion, type_sell =>
         "RSI Overbought (" +:+ overbought +:+ ")"
     | macdCrossover, type_buy => "MACD Bullish Crossover"
     | macdCrossover, type_sell => "MACD Bearish Crossover"
     | bollingerBreakout, type_buy => "Price Below Lower Band"
     | bollingerBreakout, type_sell => "Price Above Upper Band"
     | goldenCross, type_buy => "Golden Cross (SMA50 > SMA200)"
     | goldenCross, type_sell => "Death Cross (SMA50 < SMA200)"
     | trendFollowing, type_buy => "Uptrend Confirmed"
     | trendFollowing, type_sell => "Downtrend Confirmed"
     | argusComposite, type_buy => "Argus Composite Signal (Strong Buy)"
     | argusComposite, type_sell => "Argus Composite Signal (Strong Sell)"
     end.

Definition createEmptyResult (symbol : string) (config : BacktestConfig)
    (now : Z) : BacktestResult :=
  {| r_strategy := strategy config;
     r_symbol := symbol;
     startDate := now;
     endDate := now;
     r_initialCapital := initialCapital config;
     finalCapital := initialCapital config;
     totalReturn := 0;
     totalReturnPercent := 0;
     maxDrawdown := 0;
     maxDrawdownPercent := 0;
     winRate := 0;
     totalTrades := 0;
     winningTrades := 0;
     losingTrades := 0;
     avgWin := 0;
     avgLoss := 0;
     profitFactor := 0;
     sharpeRatio := 0;
     trades := [];
     equityCurve := [];
     signals := [] |}.

(** The variables of [runBacktest] that its main loop updates. *)
Record LoopState : Type := {
  capital : num;
  position : option BacktestTrade;
  ls_trades : list BacktestTrade;
  ls_equityCurve : list (Z * num);
  ls_signals : list SignalEvent;
  peakEquity : num;
  ls_maxDrawdown : num;
}.

(** [t.pnl || 0]. *)
Definition pnl_or_0 (t : BacktestTrade) : num :=
  match pnl t with
  | Some n => if truthy n then n else 0
  | None => 0
  end.

(** One iteration of the main backtest loop. *)
Definition backtest_step `{Runtime} (cfg : BacktestConfig)
    (candles : list Candle) (indicators : jsv) (i : Z) (st : LoopState)
    : result LoopState :=
  candle ← cget candles i;
  let price : num := close candle in
  let currentEquity :=
    match position st with
    | Some pos =>
        let positionValue := quantity pos * price in
        (capital st + positionValue) - (quantity pos * entryPrice pos)
    | None => capital st
    end in
  let equityCurve := ls_equityCurve st ++ [(date candle, currentEquity)] in
  let peakEquity :=
    if currentEquity >? peakEquity st then currentEquity
    else peakEquity st in
  let drawdown := (peakEquity - currentEquity) / peakEquity in
  let maxDrawdown :=
    if drawdown >? ls_maxDrawdown st then drawdown else ls_maxDrawdown st in
  signal ← generateSignal i candles indicators (strategy cfg);
  match position st, signal with
  | None, sig_buy =>
      let positionCapital := capital st * positionSize cfg in
      let quantity := positionCapital / price in
      let commission := positionCapital * commission cfg in
      let capital := capital st - commission in
      reason ← getSignalReason (strategy cfg) type_buy indicators i;
      let position :=
        {| id := "trade-" +:+ pretty (length (ls_trades st) + 1)%nat;
           type := type_buy;
           entryDate := date candle;
           exitDate := None;
           entryPrice := price;
           exitPrice := None;
           quantity := quantity;
           pnl := None;
           pnlPercent := None;
           reason := reason;
           exitReason := None |} in
      Ok {| capital := capital;
            position := Some position;
            ls_trades := ls_trades st;
            ls_equityCurve := equityCurve;
            ls_signals :=
              ls_signals st
              ++ [{| sig_date := date candle; sig_type := type_buy;
                     sig_price := price; sig_reason := reason |}];
            peakEquity := peakEquity;
            ls_maxDrawdown := maxDrawdown |}
  | Some pos, _ =>
      let pnlPercent := (price - entryPrice pos) / entryPrice pos in
      exitReason ←
        match signal with
        | sig_sell =>
            r ← getSignalReason (strategy cfg) type_sell indicators i;
            Ok (Some r)
        | _ =>
            if pnlPercent <=? - stopLoss cfg
            then Ok (Some ("Stop Loss (" +:+ toFixed (pnlPercent * 100) 1
                           +:+ "%)"))
            else if pnlPercent >=? takeProfit cfg
            then Ok (Some ("Take Profit (" +:+ toFixed (pnlPercent * 100) 1
                           +:+ "%)"))
            else Ok None
        end;
      match exitReason with
      | Some exitReason =>
          let exitValue := quantity pos * price in
          let commission := exitValue * commission cfg in
          let pnl := ((price - entryPrice pos) * quantity pos) - commission in
          let capital :=
            capital st + ((quantity pos * entryPrice pos) + pnl) in
          let completedTrade :=
            {| id := id pos;
               type := type pos;
               entryDate := entryDate pos;
               exitDate := Some (date candle);
               entryPrice := entryPrice pos;
               exitPrice := Some price;
               quantity := quantity pos;
               pnl := Some pnl;
               pnlPercent := Some pnlPercent;
               reason := reason pos;
               exitReason := Some exitReason |} in
          Ok {| capital := capital;
                position := None;
                ls_trades := ls_trades st ++ [completedTrade];
                ls_equityCurve := equityCurve;
                ls_signals :=
                  ls_signals st
                  ++ [{| sig_date := date candle; sig_type := type_sell;
                         sig_price := price; sig_reason := exitReason |}];
                peakEquity := peakEquity;
                ls_maxDrawdown := maxDrawdown |}
      | None =>
          Ok {| capital := capital st;
                position := position st;
                ls_trades := ls_trades st;
                ls_equityCurve := equityCurve;
                ls_signals := ls_signals st;
                peakEquity := peakEquity;
                ls_maxDrawdown := maxDrawdown |}
      end
  | None, _ =>
      Ok {| capital := capital st;
            position := None;
            ls_trades := ls_trades st;
            ls_equityCurve := equityCurve;
            ls_signals := ls_signals st;
            peakEquity := peakEquity;
            ls_maxDrawdown := maxDrawdown |}
  end.

(** "Close any remaining position". *)
Definition close_remaining (candles : list Candle) (st : LoopState)
    : result (num * list BacktestTrade) :=
  match position st with
  | Some pos =>
      lastCandle ← cget candles (len candles - 1);
      let lastPrice : num := close lastCandle in
      let pnl := (lastPrice - entryPrice pos) * quantity pos in
      let pnlPercent := (lastPrice - entryPrice pos) / entryPrice pos in
      let capital := capital st + ((quantity pos * entryPrice pos) + pnl) in
      Ok (capital,
          ls_trades st
          ++ [{| id := id pos;
                 type := type pos;
                 entryDate := entryDate pos;
                 exitDate := Some (date lastCandle);
                 entryPrice := entryPrice pos;
                 exitPrice := Some lastPrice;
                 quantity := quantity pos;
                 pnl := Some pnl;
                 pnlPercent := Some pnlPercent;
                 reason := reason pos;
                 exitReason := Some "End of Backtest" |}])
  | None => Ok (capital st, ls_trades st)
  end.

(** The equity-curve returns: [0] for the first point. *)
Fixpoint curve_returns (prev : option num) (curve : list (Z * num))
    : list num :=
  match curve with
  | [] => []
  | (_, e) :: rest =>
      match prev with
      | None => Fin 0
      | Some pe => (e - pe) / pe
      end :: curve_returns (Some e) rest
  end.

(** [now] stands for [new Date()]. *)
Definition runBacktest `{Runtime} (symbol : string) (candles : list Candle)
    (config : PartialConfig) (now : Z) : result BacktestResult :=
  let cfg := merge_config config in
  if (len candles <? 50)%Z then Ok (createEmptyResult symbol cfg now) else
  let prices := map (λ c, Fin (close c)) candles in
  let indicators := calculateIndicators candles (strategy cfg) in
  st ← for_loop_r 50 (len candles) (backtest_step cfg candles indicators)
         {| capital := initialCapital cfg;
            position := None;
            ls_trades := [];
            ls_equityCurve := [];
            ls_signals := [];
            peakEquity := initialCapital cfg;
            ls_maxDrawdown := 0 |};
  '(capital, trades) ← close_remaining candles st;
  let winning := List.filter (λ t, pnl_or_0 t >? 0) trades in
  let losing := List.filter (λ t, pnl_or_0 t <=? 0) trades in
  let sum_pnl ts := fold_left (λ sum t, sum + pnl_or_0 t) ts (Fin 0) in
  let avgWin :=
    if (0 <? length winning)%nat
    then sum_pnl winning / znum (len winning) else 0 in
  let avgLoss :=
    if (0 <? length losing)%nat
    then nabs (sum_pnl losing / znum (len losing)) else 0 in
  let grossProfit := sum_pnl winning in
  let grossLoss := nabs (sum_pnl losing) in
  let profitFactor :=
    if grossLoss >? 0 then grossProfit / grossLoss
    else if grossProfit >? 0 then PInf else 0 in
  let returns := curve_returns None (ls_equityCurve st) in
  let avgReturn := sum_list returns / znum (len returns) in
  let stdDev :=
    Math_sqrt
      (fold_left (λ sum r, sum + ((r - avgReturn) * (r - avgReturn)))
                 returns (Fin 0) / znum (len returns)) in
  let sharpeRatio :=
    if stdDev >? 0 then (avgReturn * Math_sqrt 252) / stdDev else 0 in
  first ← cget candles 50;
  lastC ← cget candles (len candles - 1);
  Ok {| r_strategy := strategy cfg;
        r_symbol := symbol;
        startDate := date first;
        endDate := date lastC;
        r_initialCapital := initialCapital cfg;
        finalCapital := capital;
        totalReturn := capital - initialCapital cfg;
        totalReturnPercent :=
          ((capital - initialCapital cfg) / initialCapital cfg) * 100;
        maxDrawdown := ls_maxDrawdown st * initialCapital cfg;
        maxDrawdownPercent := ls_maxDrawdown st * 100;
        winRate :=
          if (0 <? length trades)%nat
          then (znum (len winning) / znum (len trades)) * 100 else 0;
        totalTrades := length trades;
        winningTrades := length winning;
        losingTrades := length losing;
        avgWin := avgWin;
        avgLoss := avgLoss;
        profitFactor := profitFactor;
        sharpeRatio := sharpeRatio;
        trades := trades;
        equityCurve := ls_equityCurve st;
        signals := ls_signals st |}.

End Backtest.

(* ================================================================= *)
(** ** paperTradingService *)

Module Paper.
Local Open Scope Q_scope.
Local Open Scope js_scope.

Inductive TradeType : Type := type_buy | type_sell.
Inductive TradeStatus : Type := status_open | status_closed.

#[export] Instance TradeStatus_eq_dec : EqDecision TradeStatus :=
  ltac:(solve_decision).

Record PaperTrade : Type := {
  id : string;
  symbol : string;
  type : TradeType;
  quantity : num;
  entryPrice : num;
  exitPrice : option num;
  entryTime : Z;
  exitTime : option Z;
  pnl : option num;
  pnlPercent : option num;
  status : TradeStatus;
  reason : string;
  confidence : num;
  stopLoss : option num;
  takeProfit : option num;
}.

Record Position : Type := {
  pos_quantity : num;
  avgCost : num;
  pos_stopLoss : option num;
  pos_takeProfit : option num;
}.

Record PaperPortfolio : Type := {
  balance : num;
  initialBalance : num;
  positions : gmap string Position;
  trades : list PaperTrade;
  startTime : Z;
  lastUpdate : Z;
}.

(** The module-level variable [portfolio] and the ['paper_portfolio']
    entry of [localStorage], kept as the snapshot that was serialised.
    [JSON.stringify] writes a number that is not finite as [null], so
    the snapshot stands for the stored text when every number of the
    portfolio is finite; the statements about loading are made for
    such portfolios.  Listeners and console output are not modelled. *)
Record World : Type := {
  portfolio : option PaperPortfolio;
  saved : option PaperPortfolio;
}.

Definition savePaperPortfolio (w : World) : World :=
  match portfolio w with
  | None => w
  | Some p => {| portfolio := Some p; saved := Some p |}
  end.

(** [now] stands for [new Date()] / [Date.now()]. *)
Definition initializePaperPortfolio (initialBalance : num) (now : Z)
    (w : World) : PaperPortfolio * World :=
  let p := {| balance := initialBalance;
              initialBalance := initialBalance;
              positions := ∅;
              trades := [];
              startTime := now;
              lastUpdate := now |} in
  (p, savePaperPortfolio {| portfolio := Some p; saved := saved w |}).

(** [t.pnl || 0]. *)
Definition pnl_or_0 (t : PaperTrade) : num :=
  match pnl t with
  | Some n => if truthy n then n else 0
  | None => 0
  end.

Definition closedTradesPnl (p : PaperPortfolio) : num :=
  fold_left (λ sum t, sum + pnl_or_0 t)
            (filter (λ t, status t = status_closed) (trades p)) (Fin 0).

Definition openPositionsCost (p : PaperPortfolio) : num :=
  map_fold (λ _ position acc, acc + (pos_quantity position * avgCost position))
           (Fin 0) (positions p).

(** "Expected Balance = Initial + Realized PnL - Cost of Open
    Positions". *)
Definition expectedBalance (p : PaperPortfolio) : num :=
  (initialBalance p + closedTradesPnl p) - openPositionsCost p.

Definition set_balance (p : PaperPortfolio) (b : num) : PaperPortfolio :=
  {| balance := b;
     initialBalance := initialBalance p;
     positions := positions p;
     trades := trades p;
     startTime := startTime p;
     lastUpdate := lastUpdate p |}.

Definition repairPortfolioBalance (w : World) : World :=
  match portfolio w with
  | None => w
  | Some p =>
      if nabs (balance p - expectedBalance p) >? 1
      then savePaperPortfolio
             {| portfolio := Some (set_balance p (expectedBalance p));
                saved := saved w |}
      else w
  end.

(** The stored snapshot, when there is one, replaces [portfolio]; the
    balance is repaired; the result is returned.  (The braces of this
    function and of [repairPortfolioBalance] do not balance in the
    source file; the statements are read in the order in which they are
    written.) *)
Definition loadPaperPortfolio (w : World) : option PaperPortfolio * World :=
  let w :=
    match saved w with
    | Some data => {| portfolio := Some data; saved := saved w |}
    | None => w
    end in
  let w := repairPortfolioBalance w in
  (portfolio w, w).

(** The guards of [paperBuy], evaluated before it awaits the ticker. *)
Definition paperBuy_guard (p : PaperPortfolio) (symbol : string)
    (amountUSD : num) : bool :=
  if bool_decide (is_Some (positions p !! symbol)) then false
  else if balance p <? amountUSD then false
  else true.

(** The rest of [paperBuy], run when the ticker has arrived with
    [price]. *)
Definition paperBuy_commit (p : PaperPortfolio) (symbol : string)
    (amountUSD : num) (reason : string) (confidence : num) (price : num)
    (now : Z) : PaperTrade * PaperPortfolio :=
  let quantity := amountUSD / price in
  let balance := balance p - amountUSD in
  let positions :=
    match positions p !! symbol with
    | Some existing =>
        let totalQty := pos_quantity existing + quantity in
        let newAvgCost :=
          ((pos_quantity existing * avgCost existing) + amountUSD)
          / totalQty in
        <[symbol := {| pos_quantity := totalQty; avgCost := newAvgCost;
                       pos_stopLoss := None; pos_takeProfit := None |}]>
          (positions p)
    | None =>
        <[symbol := {| pos_quantity := quantity; avgCost := price;
                       pos_stopLoss := None; pos_takeProfit := None |}]>
          (positions p)
    end in
  let trade :=
    {| id := pretty now;
       symbol := symbol;
       type := type_buy;
       quantity := quantity;
       entryPrice := price;
       exitPrice := None;
       entryTime := now;
       exitTime := None;
       pnl := None;
       pnlPercent := None;
       status := status_open;
       reason := reason;
       confidence := confidence;
       stopLoss := None;
       takeProfit := None |} in
  (trade,
   {| balance := balance;
      initialBalance := initialBalance p;
      positions := positions;
      trades := trades p ++ [trade];
      startTime := startTime p;
      lastUpdate := now |}).

(** [paperBuy] run without interleaving; [ticker] is what
    [fetchBinanceTicker] resolves to ([None] for [null]). *)
Definition paperBuy (w : World) (symbol : string) (amountUSD : num)
    (reason : string) (confidence : num) (ticker : option num) (now : Z)
    : option PaperTrade * World :=
  match portfolio w with
  | None => (None, w)
  | Some p =>
      if paperBuy_guard p symbol amountUSD then
        match ticker with
        | None => (None, w)
        | Some price =>
            let '(trade, p') :=
              paperBuy_commit p symbol amountUSD reason confidence price now in
            (Some trade,
             savePaperPortfolio {| portfolio := Some p'; saved := saved w |})
        end
      else (None, w)
  end.

(** [quantity || position.quantity]. *)
Definition sellQty_of (quantity : option num) (position : Position) : num :=
  match quantity with
  | Some q => if truthy q then q else pos_quantity position
  | None => pos_quantity position
  end.

Definition paperSell (w : World) (symbol : string) (quantity : option num)
    (reason : option string) (ticker : option num) (now : Z)
    : option PaperTrade * World :=
  let reason := default "Manual sell" reason in
  match portfolio w with
  | None => (None, w)
  | Some p =>
      match positions p !! symbol with
      | None => (None, w)
      | Some position =>
          let sellQty := sellQty_of quantity position in
          if sellQty >? pos_quantity position then (None, w) else
          match ticker with
          | None => (None, w)
          | Some price =>
              let proceeds := sellQty * price in
              let cost := sellQty * avgCost position in
              let pnl := proceeds - cost in
              let pnlPercent := (pnl / cost) * 100 in
              let balance := balance p + proceeds in
              let remainingQty := pos_quantity position - sellQty in
              let positions :=
                if remainingQty >? 0.000001
                then <[symbol :=
                         {| pos_quantity := remainingQty;
                            avgCost := avgCost position;
                            pos_stopLoss := pos_stopLoss position;
                            pos_takeProfit := pos_takeProfit position |}]>
                       (positions p)
                else delete symbol (positions p) in
              let trade :=
                {| id := pretty now;
                   symbol := symbol;
                   type := type_sell;
                   quantity := sellQty;
                   entryPrice := avgCost position;
                   exitPrice := Some price;
                   entryTime := now;
                   exitTime := Some now;
                   pnl := Some pnl;
                   pnlPercent := Some pnlPercent;
                   status := status_closed;
                   reason := reason;
                   confidence := 0;
                   stopLoss := None;
                   takeProfit := None |} in
              (Some trade,
               savePaperPortfolio
                 {| portfolio :=
                      Some {| balance := balance;
                              initialBalance := initialBalance p;
                              positions := positions;
                              trades := trades p ++ [trade];
                              startTime := startTime p;
                              lastUpdate := now |};
                    saved := saved w |})
          end
      end
  end.

(** [localStorage.removeItem('paper_portfolio')], then a fresh
    portfolio. *)
Definition resetPaperPortfolio (initialBalance : num) (now : Z) (w : World)
    : PaperPortfolio * World :=
  initializePaperPortfolio initialBalance now
    {| portfolio := portfolio w; saved := None |}.

(** [a || b] on an optional number. *)
Definition or_undefined (a b : option num) : option num :=
  match a with
  | Some n => if truthy n then Some n else b
  | None => b
  end.

(** [paperBuyWithLevels] run without interleaving; [ticker] is what
    [fetchBinanceTicker] resolves to. *)
Definition paperBuyWithLevels (w : World) (symbol : string) (amountUSD : num)
    (reason : string) (confidence : num) (stopLoss takeProfit : option num)
    (ticker : option num) (now : Z) : option PaperTrade * World :=
  match portfolio w with
  | None => (None, w)
  | Some p =>
      if bool_decide (is_Some (positions p !! symbol)) then (None, w)
      else if balance p <? amountUSD then (None, w)
      else
        match ticker with
        | None => (None, w)
        | Some price =>
            let quantity := amountUSD / price in
            let balance := balance p - amountUSD in
            let positions :=
              match positions p !! symbol with
              | Some existing =>
                  let totalQty := pos_quantity existing + quantity in
                  let newAvgCost :=
                    ((pos_quantity existing * avgCost existing) + amountUSD)
                    / totalQty in
                  <[symbol :=
                      {| pos_quantity := totalQty;
                         avgCost := newAvgCost;
                         pos_stopLoss :=
                           or_undefined stopLoss (pos_stopLoss existing);
                         pos_takeProfit :=
                           or_undefined takeProfit (pos_takeProfit existing)
                      |}]> (positions p)
              | None =>
                  <[symbol := {| pos_quantity := quantity; avgCost := price;
                                 pos_stopLoss := stopLoss;
                                 pos_takeProfit := takeProfit |}]>
                    (positions p)
              end in
            let trade :=
              {| id := pretty now;
                 symbol := symbol;
                 type := type_buy;
                 quantity := quantity;
                 entryPrice := price;
                 exitPrice := None;
                 entryTime := now;
                 exitTime := None;
                 pnl := None;
                 pnlPercent := None;
                 status := status_open;
                 reason := reason;
                 confidence := confidence;
                 stopLoss := stopLoss;
                 takeProfit := takeProfit |} in
            (Some trade,
             savePaperPortfolio
               {| portfolio :=
                    Some {| balance := balance;
                            initialBalance := initialBalance p;
                            positions := positions;
                            trades := trades p ++ [trade];
                            startTime := startTime p;
                            lastUpdate := now |};
                  saved := saved w |})
        end
  end.

(** [portfolio?.trades || []]. *)
Definition getTradingHistory (w : World) : list PaperTrade :=
  match portfolio w with
  | Some p => trades p
  | None => []
  end.

Record PerformanceStats : Type := {
  totalTrades : nat;
  winners : nat;
  losers : nat;
  winRate : num;
  totalPnl : num;
  avgWin : num;
  avgLoss : num;
  profitFactor : num;
  largestWin : num;
  largestLoss : num;
}.

Definition getPerformanceStats (w : World) : option PerformanceStats :=
  match portfolio w with
  | None => None
  | Some p =>
      let trades := filter (λ t, status t = status_closed) (trades p) in
      let winners := List.filter (λ t, pnl_or_0 t >? 0) trades in
      let losers := List.filter (λ t, pnl_or_0 t <? 0) trades in
      let sum_pnl ts := fold_left (λ sum t, sum + pnl_or_0 t) ts (Fin 0) in
      let totalPnl := sum_pnl trades in
      let avgWin :=
        if (0 <? length winners)%nat
        then sum_pnl winners / znum (len winners) else 0 in
      let avgLoss :=
        if (0 <? length losers)%nat
        then sum_pnl losers / znum (len losers) else 0 in
      Some {| totalTrades := length trades;
              winners := length winners;
              losers := length losers;
              winRate :=
                if (0 <? length trades)%nat
                then (znum (len winners) / znum (len trades)) * 100 else 0;
              totalPnl := totalPnl;
              avgWin := avgWin;
              avgLoss := avgLoss;
              profitFactor :=
                if negb (avgLoss === 0) then nabs (avgWin / avgLoss) else 0;
              largestWin := max_list (map pnl_or_0 trades ++ [Fin 0]);
              largestLoss := min_list (map pnl_or_0 trades ++ [Fin 0]) |}
  end.

End Paper.

(* ================================================================= *)
(** ** Vocabulary of the properties *)

(** Series and loop states of the RSI. *)

Section IndicatorVocabulary.
Import Indicators.
Local Open Scope Q_scope.

(** A finite, non-negative number. *)
Definition nonneg (a : num) : Prop :=
  match a with Fin q => 0 <= q | _ => False end.

(** A finite number or [NaN]: what reading a finite series yields. *)
Definition fin_or_nan (a : num) : Prop :=
  match a with Fin _ | NaN => True | _ => False end.

(** The state in which the smoothing loop of [calculateRSI] starts. *)
Definition rsi_start (values : list num) (period : nat)
    : num * num * list (option num) :=
  let init := rsi_init values period in
  (init.1, init.2,
   aset (replicate (length values) None) (Z.of_nat period)
        (Some (rsi_value init.1 init.2))).

(** The value the series holds at index [i]: [rsi_value] of the averages
    the loop has reached after its iteration [i]. *)
Definition rsi_at (values : list num) (period : nat) (i : Z) : num :=
  let st := rsi_run values period (i + 1) in rsi_value st.1.1 st.1.2.

(** A finite number between [lo] and [hi]. *)
Definition within (lo hi : Q) (a : num) : Prop :=
  match a with Fin q => lo <= q <= hi | _ => False end.

(** [NaN], or a finite number between [lo] and [hi]. *)
Definition within_or_nan (lo hi : Q) (a : num) : Prop :=
  match a with Fin q => lo <= q <= hi | NaN => True | _ => False end.

(** The finite number zero, in any representation. *)
Definition is_zero (a : num) : Prop :=
  match a with Fin q => q == 0 | _ => False end.

(** A series in which no value is below the one before it. *)
Definition never_falls (qs : list Q) : Prop :=
  ∀ i a b, idx qs (i - 1) = Some a → idx qs i = Some b → a <= b.

(** A candle whose close lies between its low and its high. *)
Definition close_inside (c : Candle) : Prop := low c <= close c <= high c.

(** An element of an indicator series that is [null] or satisfies [P]. *)
Definition null_or (P : num → Prop) (o : option num) : Prop :=
  match o with Some v => P v | None => True end.

End IndicatorVocabulary.

(** The action of the Council. *)

Section CouncilVocabulary.
Import Indicators Council.
Local Open Scope Q_scope.

(** The action [generateCouncilDecision] settles on, as a function of
    the RSI it read and of the two vote counts. *)
Definition council_action (rsi : num) (buyVotes sellVotes : nat)
    : SignalAction :=
  if (rsi <? 24)%js then buy
  else if (rsi >? 78)%js then sell
  else if (4 <=? buyVotes)%nat then buy
  else if (4 <=? sellVotes)%nat then sell
  else hold.

End CouncilVocabulary.

(** Indicator object and flat series. *)

Section BacktestVocabulary.
Import Indicators Backtest.
Local Open Scope Q_scope.

(** The value [a[i]] of an array of the indicator object. *)
Definition jelem (a : list (option num)) (i : Z) : jsv :=
  match idx a i with
  | Some (Some n) => VNum n
  | Some None => VNull
  | None => VUndef
  end.

(** [candles.map(c => c.close)]. *)
Definition prices_of (candles : list Candle) : list num :=
  map (λ c, Fin (close c)) candles.

(** A flat series: every candle has open, high, low and close equal to
    the one price [c]. *)
Definition flat_at (c : Q) (candles : list Candle) : Prop :=
  Forall (λ x, open x = c ∧ high x = c ∧ low x = c ∧ close x = c) candles.

(** A completed trade: it carries its exit. *)
Definition completed (t : BacktestTrade) : Prop :=
  is_Some (exitDate t) ∧ is_Some (exitPrice t) ∧ is_Some (pnl t)
  ∧ is_Some (pnlPercent t) ∧ is_Some (exitReason t).

Definition is_buy_signal (e : SignalEvent) : bool :=
  match sig_type e with type_buy => true | type_sell => false end.

Definition is_sell_signal (e : SignalEvent) : bool :=
  negb (is_buy_signal e).

(** The bookkeeping invariant of the main loop of [runBacktest] when it
    reaches index [i]: one equity point per bar, only completed trades
    in the list, one buy signal per trade and one for the open
    position, one sell signal per trade. *)
Definition backtest_inv (i : Z) (st : LoopState) : Prop :=
  length (ls_equityCurve st) = Z.to_nat (i - 50)
  ∧ Forall completed (ls_trades st)
  ∧ length (List.filter is_buy_signal (ls_signals st))
    = (length (ls_trades st)
       + match position st with Some _ => 1 | None => 0 end)%nat
  ∧ length (List.filter is_sell_signal (ls_signals st))
    = length (ls_trades st).

End BacktestVocabulary.

(** Portfolios, orders and reconciliation. *)

Section PaperVocabulary.
Import Paper.
Local Open Scope Q_scope.

(** The weighted-average scenario: a fresh portfolio of $10,000, $1000 of
    BTC bought at $50,000, then $1000 more at $25,000. *)
Definition scenario_start : World :=
  (initializePaperPortfolio 10000 0 {| portfolio := None; saved := None |}).2.

Definition scenario_first_buy : option PaperTrade * World :=
  paperBuy scenario_start "BTCUSDT" 1000 "Manual buy" 80 (Some (Fin 50000)) 1.

Definition scenario_second_buy : option PaperTrade * World :=
  paperBuy scenario_first_buy.2 "BTCUSDT" 1000 "Manual buy" 80 (Some (Fin 25000)) 2.

(** The position the current portfolio holds in [symbol]. *)
Definition position_of (w : World) (symbol : string) : option Position :=
  p ← portfolio w; positions p !! symbol.

(** A portfolio whose positions hold finite numbers. *)
Definition finite_positions (p : PaperPortfolio) : Prop :=
  ∀ symbol position, positions p !! symbol = Some position →
    is_fin (pos_quantity position) ∧ is_fin (avgCost position).

(** The reconciliation invariant: the balance is the finite number that
    [expectedBalance] computes. *)
Definition reconciled (p : PaperPortfolio) : Prop :=
  ∃ b, balance p = Fin b ∧ is_val (expectedBalance p) b.

(** A sell that leaves no dust: the quantity that remains is 0 or above
    the threshold 0.000001 under which [paperSell] drops the position. *)
Definition sells_clean (w : World) (symbol : string) (quantity : option num)
    : Prop :=
  ∀ p position, portfolio w = Some p →
    positions p !! symbol = Some position →
    let remainingQty :=
      (pos_quantity position - sellQty_of quantity position)%js in
    is_zero remainingQty ∨ (remainingQty >? 0.000001)%js = true.

(** The worlds reached from [w0] by successful [paperBuy] and [paperSell]
    calls with finite arguments, at positive prices, none of which
    leaves dust. *)
Inductive trading (w0 : World) : World → Prop :=
  | trading_start : trading w0 w0
  | trading_buy w w' symbol (amountUSD price : Q) reason confidence now trade :
      trading w0 w →
      0 < price →
      paperBuy w symbol (Fin amountUSD) reason confidence
               (Some (Fin price)) now = (Some trade, w') →
      trading w0 w'
  | trading_sell w w' symbol (quantity : option Q) (price : Q) reason now
                 trade :
      trading w0 w →
      sells_clean w symbol (Fin <$> quantity) →
      paperSell w symbol (Fin <$> quantity) reason (Some (Fin price)) now
      = (Some trade, w') →
      trading w0 w'.

(** The body of the loop of [repairPortfolioBalance] over the positions,
    and the two sums of [expectedBalance] as functions of the trade list
    and of the position map. *)
Definition cost_step (_ : string) (position : Position) (acc : num) : num :=
  (acc + (pos_quantity position * avgCost position))%js.

Definition closed_pnl (ts : list PaperTrade) : num :=
  fold_left (λ sum t, (sum + pnl_or_0 t)%js)
            (filter (λ t, status t = status_closed) ts) (Fin 0).

Definition open_cost (m : gmap string Position) : num :=
  map_fold cost_step (Fin 0) m.

(** Orders with literal arguments, placed one after the other; the run
    stops at the first order that returns no trade. *)
Inductive Order : Type :=
  | Buy (symbol : string) (amountUSD price : Q)
  | Sell (symbol : string) (quantity : option Q) (price : Q).

Definition place (w : World) (o : Order) : option World :=
  match o with
  | Buy symbol amountUSD price =>
      match paperBuy w symbol (Fin amountUSD) "Manual buy" 80
                     (Some (Fin price)) 0 with
      | (Some _, w') => Some w'
      | (None, _) => None
      end
  | Sell symbol quantity price =>
      match paperSell w symbol (Fin <$> quantity) None (Some (Fin price)) 0
      with
      | (Some _, w') => Some w'
      | (None, _) => None
      end
  end.

Definition place_all (orders : list Order) (w : World) : option World :=
  foldl (λ ow o, w ← ow; place w o) (Some w) orders.

(** Nine rounds of buying $1024 of BTC at $131,072 (1/128 BTC) and
    selling all of it but 1/1048576 BTC at the same price: each sell
    leaves 0.00000095... BTC, which [paperSell] drops with the position.
    Every number of the run is a dyadic rational with a short mantissa,
    so the doubles of the code take the same values at every step. *)
Definition dust_orders : list Order :=
  concat (replicate 9 [Buy "BTCUSDT" 1024 131072;
                       Sell "BTCUSDT" (Some 0.00781154632568359375) 131072]).

(** A portfolio that [JSON.stringify] and [JSON.parse] give back as it
    was: every number in it is finite. *)
Definition finite_or_absent (o : option num) : Prop :=
  match o with Some n => is_fin n | None => True end.

Definition storable_trade (t : PaperTrade) : Prop :=
  is_fin (quantity t) ∧ is_fin (entryPrice t) ∧ finite_or_absent (exitPrice t)
  ∧ finite_or_absent (pnl t) ∧ finite_or_absent (pnlPercent t)
  ∧ is_fin (confidence t)
  ∧ finite_or_absent (stopLoss t) ∧ finite_or_absent (takeProfit t).

Definition storable_position (position : Position) : Prop :=
  is_fin (pos_quantity position) ∧ is_fin (avgCost position)
  ∧ finite_or_absent (pos_stopLoss position)
  ∧ finite_or_absent (pos_takeProfit position).

Definition storable (p : PaperPortfolio) : Prop :=
  is_fin (balance p) ∧ is_fin (initialBalance p)
  ∧ map_Forall (λ _ position, storable_position position) (positions p)
  ∧ Forall storable_trade (trades p).

End PaperVocabulary.

(** Candles and level order. *)

Section RiskVocabulary.
Import Indicators Risk.
Local Open Scope Q_scope.

(** Fifteen quiet candles: a range of 1 around 100, so the ATR is 1,
    which is 1% of the average close. *)
Definition quiet_candles : list Candle :=
  replicate 15 {| date := 0; open := 100; high := 101; low := 100;
                  close := 100; volume := 1 |}.

(** A candle whose low is not above its high. *)
Definition well_formed (c : Candle) : Prop := low c <= high c.

(** The order of the levels around the entry price. *)
Definition ordered_levels (direction : Direction) (r : RiskLevels) : Prop :=
  match direction with
  | long =>
      (stopLoss r <? entryPrice r)%js = true
      ∧ (entryPrice r <? takeProfit1 r)%js = true
      ∧ (takeProfit1 r <? takeProfit2 r)%js = true
      ∧ (takeProfit2 r <? takeProfit3 r)%js = true
  | short =>
      (stopLoss r >? entryPrice r)%js = true
      ∧ (entryPrice r >? takeProfit1 r)%js = true
      ∧ (takeProfit1 r >? takeProfit2 r)%js = true
      ∧ (takeProfit2 r >? takeProfit3 r)%js = true
  end.

(** A candle that opens and closes at 100. *)
Definition wick_candle (high low : Q) : Candle :=
  {| date := 0; open := 100; high := high; low := low; close := 100;
     volume := 1 |}.

(** Fifty candles trading between 90 and 100.1 and closing at 100; the
    third one reaches 100.2 and is the only swing high. *)
Definition swing_candles : list Candle :=
  [wick_candle 100.1 90; wick_candle 100.1 90; wick_candle 100.2 90.1]
  ++ replicate 47 (wick_candle 100.1 90).

End RiskVocabulary.

(** Bollinger bands. *)

Section BandVocabulary.
Import Indicators.
Context `{Runtime}.
Local Open Scope Q_scope.

(** The upper and the lower band at index [i]. *)
Definition band_at (values : list num) (period : nat)
    (stdDevMultiplier : num) (up : bool) (i : Z) : num :=
  let p := Z.of_nat period in
  let slice_ := slice values (i - p + 1) (i + 1) in
  let mean := to_num (idx (calculateSMA values period) i) in
  let variance :=
    (fold_left (λ sum val, sum + ((val - mean) * (val - mean))) slice_ (Fin 0)
     / znum p)%js in
  let stdDev := Math_sqrt variance in
  if up then (mean + (stdDev * stdDevMultiplier))%js
  else (mean - (stdDev * stdDevMultiplier))%js.

End BandVocabulary.

(* ================================================================= *)
(** * Properties *)

(** ** Numbers *)

Section NumFacts.
Local Open Scope Q_scope.

Lemma Qltb_iff x y : Qltb x y = true ↔ x < y.
Proof.
  unfold Qltb. rewrite negb_true_iff, <- not_true_iff_false, Qle_bool_iff.
  split; [apply Qnot_le_lt | apply Qlt_not_le].
Qed.

Lemma Qltb_false_iff x y : Qltb x y = false ↔ y <= x.
Proof.
  unfold Qltb. rewrite negb_false_iff. apply Qle_bool_iff.
Qed.

Lemma Qeq_bool_false_iff x y : Qeq_bool x y = false ↔ ¬ x == y.
Proof.
  rewrite <- not_true_iff_false, Qeq_bool_iff. reflexivity.
Qed.

Lemma nlt_fin x y : (Fin x <? Fin y)%js = true ↔ x < y.
Proof. apply Qltb_iff. Qed.

Lemma nlt_fin_false x y : (Fin x <? Fin y)%js = false ↔ y <= x.
Proof. apply Qltb_false_iff. Qed.

Lemma nle_fin x y : (Fin x <=? Fin y)%js = true ↔ x <= y.
Proof. apply Qle_bool_iff. Qed.

Lemma Qred_zero q : q == 0 → Qred q = 0.
Proof. intros Hq. apply (Qred_complete q 0 Hq). Qed.

Lemma znum_nonzero (z : Z) : (z ≠ 0)%Z → Qeq_bool (inject_Z z) 0 = false.
Proof.
  intros Hz. apply Qeq_bool_false_iff. intros Heq.
  apply Hz. unfold Qeq in Heq. simpl in Heq. lia.
Qed.

(** Addition is commutative and associative on the nose: finite results
    are kept in lowest terms. *)
Lemma nadd_swap (y a b : num) : ((y + a) + b)%js = ((y + b) + a)%js.
Proof.
  destruct y, a, b; simpl; try reflexivity.
  f_equal. apply Qred_complete. rewrite !Qred_correct. ring.
Qed.

End NumFacts.

(** ** Loops *)

Section LoopFacts.
Context {S : Type}.
Implicit Types (body : Z → S → S) (bodyr : Z → S → result S).

Lemma for_loop_empty lo hi body (s : S) :
  (hi ≤ lo)%Z → for_loop lo hi body s = s.
Proof.
  intros Hle. unfold for_loop.
  replace (Z.to_nat (hi - lo)) with 0%nat by lia. reflexivity.
Qed.

Lemma for_loop_snoc lo hi body (s : S) :
  (lo ≤ hi)%Z →
  for_loop lo (hi + 1) body s = body hi (for_loop lo hi body s).
Proof.
  intros Hle. unfold for_loop.
  replace (Z.to_nat (hi + 1 - lo)) with (Z.to_nat (hi - lo) + 1)%nat by lia.
  rewrite seq_app, fold_left_app. simpl.
  replace (lo + Z.of_nat (Z.to_nat (hi - lo)))%Z with hi by lia.
  reflexivity.
Qed.

(** The loop invariant rule. *)
Lemma for_loop_ind (P : Z → S → Prop) lo hi body (s : S) :
  (lo ≤ hi)%Z →
  P lo s →
  (∀ i s, (lo ≤ i < hi)%Z → P i s → P (i + 1)%Z (body i s)) →
  P hi (for_loop lo hi body s).
Proof.
  intros Hle Hinit Hstep.
  assert (Hall : ∀ n : nat, (lo + Z.of_nat n ≤ hi)%Z →
            P (lo + Z.of_nat n)%Z (for_loop lo (lo + Z.of_nat n) body s)).
  { induction n as [|n IH]; intros Hn.
    - rewrite Z.add_0_r, for_loop_empty by lia. exact Hinit.
    - replace (lo + Z.of_nat (Datatypes.S n))%Z
        with ((lo + Z.of_nat n) + 1)%Z by lia.
      rewrite for_loop_snoc by lia.
      apply Hstep; [lia | apply IH; lia]. }
  specialize (Hall (Z.to_nat (hi - lo))).
  replace (lo + Z.of_nat (Z.to_nat (hi - lo)))%Z with hi in Hall by lia.
  apply Hall. lia.
Qed.

Lemma for_loop_r_empty lo hi bodyr (s : S) :
  (hi ≤ lo)%Z → for_loop_r lo hi bodyr s = Ok s.
Proof.
  intros Hle. unfold for_loop_r.
  replace (Z.to_nat (hi - lo)) with 0%nat by lia. reflexivity.
Qed.

Lemma for_loop_r_snoc lo hi bodyr (s : S) :
  (lo ≤ hi)%Z →
  for_loop_r lo (hi + 1) bodyr s = (for_loop_r lo hi bodyr s ≫= bodyr hi).
Proof.
  intros Hle. unfold for_loop_r.
  replace (Z.to_nat (hi + 1 - lo)) with (Z.to_nat (hi - lo) + 1)%nat by lia.
  rewrite seq_app, fold_left_app. simpl.
  replace (lo + Z.of_nat (Z.to_nat (hi - lo)))%Z with hi by lia.
  reflexivity.
Qed.

(** The invariant rule for a loop whose body may throw: when the body
    returns normally on every state that satisfies the invariant, so
    does the loop. *)
Lemma for_loop_r_ind (P : Z → S → Prop) lo hi bodyr (s : S) :
  (lo ≤ hi)%Z →
  P lo s →
  (∀ i s, (lo ≤ i < hi)%Z → P i s →
          ∃ s', bodyr i s = Ok s' ∧ P (i + 1)%Z s') →
  ∃ s', for_loop_r lo hi bodyr s = Ok s' ∧ P hi s'.
Proof.
  intros Hle Hinit Hstep.
  assert (Hall : ∀ n : nat, (lo + Z.of_nat n ≤ hi)%Z →
            ∃ s', for_loop_r lo (lo + Z.of_nat n) bodyr s = Ok s'
                  ∧ P (lo + Z.of_nat n)%Z s').
  { induction n as [|n IH]; intros Hn.
    - rewrite Z.add_0_r, for_loop_r_empty by lia. eauto.
    - replace (lo + Z.of_nat (Datatypes.S n))%Z
        with ((lo + Z.of_nat n) + 1)%Z by lia.
      rewrite for_loop_r_snoc by lia.
      destruct IH as (s' & -> & HP); [lia|].
      simpl. apply Hstep; [lia | exact HP]. }
  specialize (Hall (Z.to_nat (hi - lo))).
  replace (lo + Z.of_nat (Z.to_nat (hi - lo)))%Z with hi in Hall by lia.
  apply Hall. lia.
Qed.

Lemma bind_Ok {B} (f : S → result B) (a : S) : (Ok a ≫= f) = f a.
Proof. reflexivity. Qed.

Lemma bind_Throw {B} (f : S → result B) e : (Throw e ≫= f) = Throw e.
Proof. reflexivity. Qed.

(** A throw in the first iteration is the result of the loop. *)
Lemma for_loop_r_throw_first lo hi bodyr (s : S) e :
  (lo < hi)%Z → bodyr lo s = Throw e → for_loop_r lo hi bodyr s = Throw e.
Proof.
  intros Hlt Hthrow. unfold for_loop_r.
  destruct (Z.to_nat (hi - lo)) as [|n] eqn:Hn; [lia|].
  simpl. rewrite Z.add_0_r, Hthrow.
  generalize (seq 1 n). intros l. induction l as [|k l IH]; [reflexivity|].
  simpl. exact IH.
Qed.

End LoopFacts.

(** ** Arrays *)

Section ArrayFacts.
Context {A : Type}.
Implicit Types (l : list A).

Lemma length_aset l i v : length (aset l i v) = length l.
Proof. unfold aset. destruct (i <? 0)%Z; [done | apply length_insert]. Qed.

Lemma len_aset l i v : len (aset l i v) = len l.
Proof. unfold len. by rewrite length_aset. Qed.

Lemma idx_aset_eq l i v :
  (0 ≤ i < len l)%Z → idx (aset l i v) i = Some v.
Proof.
  intros Hi. unfold idx, aset, len in *.
  destruct (i <? 0)%Z eqn:E; [lia|].
  apply list_lookup_insert_eq. lia.
Qed.

Lemma idx_aset_ne l i k v : k ≠ i → idx (aset l i v) k = idx l k.
Proof.
  intros Hne. unfold idx, aset.
  destruct (k <? 0)%Z eqn:Ek; [done|].
  destruct (i <? 0)%Z eqn:Ei; [done|].
  apply list_lookup_insert_ne. lia.
Qed.

Lemma idx_replicate (n : nat) (x : A) k :
  (0 ≤ k < Z.of_nat n)%Z → idx (replicate n x) k = Some x.
Proof.
  intros Hk. unfold idx. destruct (k <? 0)%Z eqn:E; [lia|].
  apply lookup_replicate_2. lia.
Qed.

Lemma idx_outside l k : (k < 0 ∨ len l ≤ k)%Z → idx l k = None.
Proof.
  intros Hk. unfold idx, len in *. destruct (k <? 0)%Z eqn:E; [done|].
  apply lookup_ge_None. lia.
Qed.

Lemma idx_inside l k : (0 ≤ k < len l)%Z → ∃ x, idx l k = Some x.
Proof.
  intros Hk. unfold idx, len in *. destruct (k <? 0)%Z eqn:E; [lia|].
  apply lookup_lt_is_Some. lia.
Qed.

End ArrayFacts.

Lemma idx_map {A B} (f : A → B) (l : list A) k :
  idx (map f l) k = f <$> idx l k.
Proof. unfold idx. destruct (k <? 0)%Z; [done | apply list_lookup_fmap]. Qed.

Lemma len_map {A B} (f : A → B) (l : list A) : len (map f l) = len l.
Proof. unfold len. by rewrite length_map. Qed.

Lemma cget_inside (candles : list Candle) k :
  (0 ≤ k < len candles)%Z → ∃ c, cget candles k = Ok c ∧ idx candles k = Some c.
Proof.
  intros Hk. unfold cget. destruct (idx_inside candles k Hk) as [c ->]. eauto.
Qed.

Lemma cget_outside (candles : list Candle) k :
  (k < 0 ∨ len candles ≤ k)%Z → cget candles k = Throw TypeError.
Proof. intros Hk. unfold cget. by rewrite idx_outside. Qed.

(** ** RSI *)

Section RsiFacts.
Import Indicators.
Local Open Scope Q_scope.

Lemma rd_fin_or_nan (qs : list Q) i : fin_or_nan (rd (map Fin qs) i).
Proof.
  unfold rd. rewrite idx_map. destruct (idx qs i); exact I.
Qed.

Lemma gain_nonneg (a b : num) :
  fin_or_nan a → fin_or_nan b →
  nonneg (if (a - b >? 0)%js then (a - b)%js else Fin 0).
Proof.
  destruct a, b; simpl; intros; try done; try (by compute).
  unfold ngt. simpl. destruct (Qltb 0 (Qred (q - q0))) eqn:E.
  - apply Qltb_iff in E. simpl. lra.
  - by compute.
Qed.

Lemma loss_nonneg (a b : num) :
  fin_or_nan a → fin_or_nan b →
  nonneg (if (a - b <? 0)%js then (- (a - b))%js else Fin 0).
Proof.
  destruct a, b; simpl; intros; try done; try (by compute).
  destruct (Qltb (Qred (q - q0)) 0) eqn:E.
  - apply Qltb_iff in E. simpl. rewrite Qred_correct. lra.
  - by compute.
Qed.

Lemma nadd_nonneg a b : nonneg a → nonneg b → nonneg (a + b)%js.
Proof.
  destruct a, b; simpl; try done. rewrite Qred_correct. lra.
Qed.

Lemma sum_list_nonneg_from (xs : list num) (acc : num) :
  nonneg acc → Forall nonneg xs → nonneg (fold_left nadd xs acc).
Proof.
  revert acc. induction xs as [|x xs IH]; intros acc Hacc Hxs; [done|].
  inversion Hxs; subst. simpl. apply IH; [by apply nadd_nonneg | done].
Qed.

Lemma sum_list_nonneg (xs : list num) : Forall nonneg xs → nonneg (sum_list xs).
Proof. apply sum_list_nonneg_from. by compute. Qed.

Lemma div_period_nonneg a (period : nat) :
  (1 ≤ period)%nat → nonneg a → nonneg (a / znum (Z.of_nat period))%js.
Proof.
  intros Hp Ha. destruct a as [q| | |]; try done. simpl in *.
  unfold znum. rewrite znum_nonzero by lia. simpl.
  rewrite Qred_correct.
  assert (0 < inject_Z (Z.of_nat period)).
  { replace 0 with (inject_Z 0) by done. rewrite <- Zlt_Qlt. lia. }
  apply Qle_shift_div_l; [done | lra].
Qed.

Lemma rsi_init_nonneg (qs : list Q) (period : nat) :
  (1 ≤ period)%nat →
  nonneg (rsi_init (map Fin qs) period).1
  ∧ nonneg (rsi_init (map Fin qs) period).2.
Proof.
  intros Hp. unfold rsi_init.
  match goal with |- context [for_loop ?lo ?hi ?body ?s] =>
    pose proof (for_loop_ind
      (λ _ st, Forall nonneg st.1 ∧ Forall nonneg st.2) lo hi body s) as Hloop
  end.
  destruct Hloop as [Hg Hl].
  - lia.
  - simpl. split; constructor.
  - intros i [gains losses] _ [Hg Hl]. simpl in *.
    split; apply Forall_app; split; try done; constructor; try done.
    + apply gain_nonneg; apply rd_fin_or_nan.
    + apply loss_nonneg; apply rd_fin_or_nan.
  - destruct (for_loop _ _ _ _) as [gains losses]. simpl in *.
    split; apply div_period_nonneg; try done; by apply sum_list_nonneg.
Qed.

Lemma rsi_run_eq values period hi :
  rsi_run values period hi
  = for_loop (Z.of_nat period + 1) hi (rsi_step values period)
             (rsi_start values period).
Proof.
  unfold rsi_run, rsi_start. by destruct (rsi_init values period).
Qed.

Lemma rsi_run_start values period :
  rsi_run values period (Z.of_nat period + 1) = rsi_start values period.
Proof. rewrite rsi_run_eq. apply for_loop_empty. lia. Qed.

Lemma rsi_run_next values period i :
  (Z.of_nat period + 1 ≤ i)%Z →
  rsi_run values period (i + 1)
  = rsi_step values period i (rsi_run values period i).
Proof. intros Hi. rewrite !rsi_run_eq. by apply for_loop_snoc. Qed.

Lemma rsi_step_avgs values period i g l arr :
  (rsi_step values period i (g, l, arr)).2
  = aset arr i
      (Some (rsi_value (rsi_step values period i (g, l, arr)).1.1
                       (rsi_step values period i (g, l, arr)).1.2)).
Proof. reflexivity. Qed.

(** The series while the loop runs: indices from the period up to the
    loop counter hold their value, all others are [null]. *)
Lemma rsi_run_series values period j :
  (Z.of_nat period < len values)%Z →
  (Z.of_nat period + 1 ≤ j ≤ len values)%Z →
  let arr := (rsi_run values period j).2 in
  length arr = length values
  ∧ (∀ k, (Z.of_nat period ≤ k < j)%Z →
          idx arr k = Some (Some (rsi_at values period k)))
  ∧ (∀ k, (0 ≤ k < Z.of_nat period ∨ j ≤ k < len values)%Z →
          idx arr k = Some None).
Proof.
  intros Hlen Hj. rewrite rsi_run_eq.
  apply (for_loop_ind
    (λ j st, st = rsi_run values period j
       ∧ length st.2 = length values
       ∧ (∀ k, (Z.of_nat period ≤ k < j)%Z →
               idx st.2 k = Some (Some (rsi_at values period k)))
       ∧ (∀ k, (0 ≤ k < Z.of_nat period ∨ j ≤ k < len values)%Z →
               idx st.2 k = Some None))).
  - lia.
  - rewrite rsi_run_start. split; [done|]. unfold rsi_start. simpl.
    rewrite length_aset, length_replicate. split; [done|]. split.
    + intros k Hk. assert (k = Z.of_nat period) as -> by lia.
      rewrite idx_aset_eq.
      * unfold rsi_at. by rewrite rsi_run_start.
      * unfold len. rewrite length_replicate. unfold len in Hlen. lia.
    + intros k Hk. rewrite idx_aset_ne by lia.
      apply idx_replicate. unfold len in *. lia.
  - intros i st Hi (-> & Hl & Hin & Hout).
    rewrite (rsi_run_next values period i) by lia.
    split; [done|].
    destruct (rsi_run values period i) as [[g l] arr] eqn:Est.
    rewrite rsi_step_avgs. simpl in Hl, Hin, Hout. unfold snd at 1.
    rewrite length_aset. split; [done|]. split.
    + intros k Hk. destruct (decide (k = i)) as [->|Hne].
      * rewrite idx_aset_eq by (unfold len in *; lia).
        unfold rsi_at. rewrite (rsi_run_next values period i) by lia.
        by rewrite Est.
      * rewrite idx_aset_ne by done. apply Hin. lia.
    + intros k Hk. rewrite idx_aset_ne by lia. apply Hout. lia.
Qed.

(** The smoothed averages stay finite and non-negative on a finite
    series. *)
Lemma rsi_step_nonneg (qs : list Q) (period : nat) i g l arr :
  (1 ≤ period)%nat → nonneg g → nonneg l →
  nonneg (rsi_step (map Fin qs) period i (g, l, arr)).1.1
  ∧ nonneg (rsi_step (map Fin qs) period i (g, l, arr)).1.2.
Proof.
  intros Hp Hg Hl. unfold rsi_step. simpl.
  assert (Hmul : ∀ a, nonneg a →
            nonneg (a * (znum (Z.of_nat period) - 1))%js).
  { intros [q| | |] Hq; try done. simpl in *. rewrite !Qred_correct.
    assert (1 <= inject_Z (Z.of_nat period)).
    { replace 1 with (inject_Z 1) by done. rewrite <- Zle_Qle. lia. }
    apply Qmult_le_0_compat; lra. }
  split; apply div_period_nonneg; try done; apply nadd_nonneg; auto.
  - apply gain_nonneg; apply rd_fin_or_nan.
  - apply loss_nonneg; apply rd_fin_or_nan.
Qed.

Lemma rsi_run_nonneg (qs : list Q) (period : nat) j :
  (1 ≤ period)%nat → (Z.of_nat period + 1 ≤ j)%Z →
  nonneg (rsi_run (map Fin qs) period j).1.1
  ∧ nonneg (rsi_run (map Fin qs) period j).1.2.
Proof.
  intros Hp Hj. rewrite rsi_run_eq.
  apply (for_loop_ind (λ _ st, nonneg st.1.1 ∧ nonneg st.1.2)).
  - lia.
  - unfold rsi_start. simpl. by apply rsi_init_nonneg.
  - intros i [[g l] arr] _ [Hg Hl]. by apply rsi_step_nonneg.
Qed.

Lemma rsi_value_bounds g l :
  nonneg g → nonneg l → ∃ v, rsi_value g l = Fin v ∧ 0 <= v <= 100.
Proof.
  destruct g as [g| | |], l as [l| | |]; try done. simpl.
  intros Hg Hl. unfold rsi_value. simpl.
  destruct (Qeq_bool l 0) eqn:El.
  - exists 100. split; [done | lra].
  - apply Qeq_bool_false_iff in El.
    assert (Hlpos : 0 < l) by (apply Qle_lteq in Hl as [?|Heq]; [done|];
                               by symmetry in Heq).
    assert (Hrs : 0 <= Qred (g / l)).
    { rewrite Qred_correct. apply Qle_shift_div_l; [done | lra]. }
    generalize dependent (Qred (g / l)). intros rs Hrs.
    assert (Hnz : Qeq_bool (Qred (1 + rs)) 0 = false).
    { apply Qeq_bool_false_iff. rewrite Qred_correct. lra. }
    rewrite Hnz. eexists. split; [done|].
    rewrite !Qred_correct.
    assert (Hq : 0 <= 100 / (1 + rs) <= 100).
    { split.
      - apply Qle_shift_div_l; lra.
      - apply Qle_shift_div_r; lra. }
    lra.
Qed.

Lemma rsi_value_no_loss g l : (l === 0)%js = true → rsi_value g l = Fin 100.
Proof. intros Hl. unfold rsi_value. by rewrite Hl. Qed.

(** *** A series that never falls *)

Lemma loss_never_falls (qs : list Q) i :
  never_falls qs →
  let change := (rd (map Fin qs) i - rd (map Fin qs) (i - 1))%js in
  (if (change <? 0)%js then (- change)%js else Fin 0) = Fin 0.
Proof.
  intros Hnf. unfold rd. rewrite !idx_map.
  destruct (idx qs i) as [b|] eqn:Eb, (idx qs (i - 1)) as [a|] eqn:Ea;
    simpl; try done.
  specialize (Hnf i a b Ea Eb).
  destruct (Qltb (Qred (b - a)) 0) eqn:E; [|done].
  apply Qltb_iff in E. rewrite Qred_correct in E. lra.
Qed.

Lemma nadd_zero a b : is_zero a → is_zero b → is_zero (a + b)%js.
Proof.
  destruct a, b; simpl; try done. rewrite Qred_correct. lra.
Qed.

Lemma sum_list_zero_from (xs : list num) (acc : num) :
  is_zero acc → Forall is_zero xs → is_zero (fold_left nadd xs acc).
Proof.
  revert acc. induction xs as [|x xs IH]; intros acc Hacc Hxs; [done|].
  inversion Hxs; subst. simpl. apply IH; [by apply nadd_zero | done].
Qed.

Lemma div_period_zero a (period : nat) :
  (1 ≤ period)%nat → is_zero a → is_zero (a / znum (Z.of_nat period))%js.
Proof.
  intros Hp Ha. destruct a as [q| | |]; try done. simpl in *.
  unfold znum. rewrite znum_nonzero by lia. simpl.
  rewrite Qred_correct, Ha. unfold Qdiv. ring.
Qed.

Lemma rsi_init_never_falls (qs : list Q) (period : nat) :
  (1 ≤ period)%nat → never_falls qs →
  is_zero (rsi_init (map Fin qs) period).2.
Proof.
  intros Hp Hnf. unfold rsi_init.
  match goal with |- context [for_loop ?lo ?hi ?body ?s] =>
    pose proof (for_loop_ind (λ _ st, Forall is_zero st.2) lo hi body s)
      as Hloop
  end.
  lapply Hloop; [clear Hloop; intros Hloop | lia].
  lapply Hloop; [clear Hloop; intros Hloop | by constructor].
  lapply Hloop; [clear Hloop; intros Hloop |].
  - destruct (for_loop _ _ _ _) as [gains losses]. simpl in *.
    apply div_period_zero; [done|].
    apply sum_list_zero_from; [by compute | done].
  - intros i [gains losses] _ Hl. simpl in *.
    apply Forall_app. split; [done|]. constructor; [|done].
    rewrite (loss_never_falls qs i Hnf). by compute.
Qed.

Lemma rsi_run_never_falls (qs : list Q) (period : nat) j :
  (1 ≤ period)%nat → never_falls qs → (Z.of_nat period + 1 ≤ j)%Z →
  is_zero (rsi_run (map Fin qs) period j).1.2.
Proof.
  intros Hp Hnf Hj. rewrite rsi_run_eq.
  apply (for_loop_ind (λ _ st, is_zero st.1.2)).
  - lia.
  - unfold rsi_start. simpl. by apply rsi_init_never_falls.
  - intros i [[g l] arr] _ Hl. unfold rsi_step. simpl in *.
    rewrite (loss_never_falls qs i Hnf).
    apply div_period_zero; [done|]. apply nadd_zero; [|by compute].
    destruct l as [l| | |]; try done. simpl in *.
    rewrite Qred_correct, Hl. ring.
Qed.

(** On a finite series that never falls every defined RSI value is
    exactly 100. *)
Lemma calculateRSI_never_falls (qs : list Q) (period : nat) i :
  (1 ≤ period)%nat → never_falls qs →
  (Z.of_nat period ≤ i < len qs)%Z →
  idx (calculateRSI (map Fin qs) period) i = Some (Some (Fin 100)).
Proof.
  intros Hp Hnf Hi. unfold calculateRSI. rewrite len_map.
  destruct (len qs <=? Z.of_nat period)%Z eqn:Hle;
    [apply Z.leb_le in Hle; lia|].
  destruct (rsi_run_series (map Fin qs) period (len (map Fin qs)))
    as (_ & Hin & _); [rewrite len_map; lia | rewrite len_map; lia |].
  rewrite len_map in Hin. rewrite Hin by lia.
  unfold rsi_at. rewrite rsi_value_no_loss; [done|].
  pose proof (rsi_run_never_falls qs period (i + 1) Hp Hnf ltac:(lia)) as Hz.
  destruct (rsi_run (map Fin qs) period (i + 1)).1.2; try done.
  simpl in *. by apply Qeq_bool_iff.
Qed.

(** From the period on, the series holds finite values between 0 and
    100. *)
Lemma calculateRSI_defined (qs : list Q) (period : nat) (i : Z) :
  (1 ≤ period)%nat →
  (Z.of_nat period ≤ i < len qs)%Z →
  ∃ v, idx (calculateRSI (map Fin qs) period) i = Some (Some (Fin v))
       ∧ 0 <= v <= 100.
Proof.
  intros Hp Hi. unfold calculateRSI. rewrite len_map.
  destruct (len qs <=? Z.of_nat period)%Z eqn:Hle;
    [apply Z.leb_le in Hle; lia | apply Z.leb_gt in Hle].
  destruct (rsi_run_series (map Fin qs) period (len (map Fin qs)))
    as (_ & Hin & _); rewrite ?len_map in *; [lia | lia |].
  rewrite (Hin i) by lia. unfold rsi_at.
  destruct (rsi_run_nonneg qs period (i + 1)) as [Hg Hloss]; [done|lia|].
  destruct (rsi_value_bounds _ _ Hg Hloss) as (v & Hv & Hb).
  exists v. by rewrite Hv.
Qed.

(** *** C8 *)

(** C8 (amended). On a finite price series and for a period of at least
    one bar, in exact arithmetic,
    [calculateRSI] returns a series of the length of its input in which
    the indices below the period (all indices, when the input is not
    longer than the period) are undefined, every index from the period
    on holds a finite value between 0 and 100, and that value is exactly
    100 whenever the smoothed average loss the loop has reached at that
    index is 0. *)
Theorem calculateRSI_bounds (qs : list Q) (period : nat) :
  (1 ≤ period)%nat →
  let values := map Fin qs in
  let rsi := calculateRSI values period in
  length rsi = length values
  ∧ (∀ i, (0 ≤ i < len values)%Z →
          (i < Z.of_nat period ∨ len values ≤ Z.of_nat period)%Z →
          idx rsi i = Some None)
  ∧ (∀ i, (Z.of_nat period ≤ i < len values)%Z →
          ∃ v, idx rsi i = Some (Some (Fin v))
               ∧ 0 <= v <= 100
               ∧ (((rsi_run values period (i + 1)).1.2 === 0)%js = true →
                  Fin v = Fin 100)).
Proof.
  intros Hp values rsi. subst rsi. unfold calculateRSI.
  destruct (len values <=? Z.of_nat period)%Z eqn:Hle.
  - apply Z.leb_le in Hle. rewrite length_replicate.
    split; [done|]. split.
    + intros i Hi _. apply idx_replicate. unfold len in Hi. lia.
    + intros i Hi. lia.
  - apply Z.leb_gt in Hle.
    destruct (rsi_run_series values period (len values)) as (Hl & Hin & Hout);
      [lia | lia |].
    split; [done|]. split.
    + intros i Hi [Hlt|Hge]; [|lia]. apply Hout. lia.
    + intros i Hi. rewrite (Hin i) by lia. unfold rsi_at.
      destruct (rsi_run_nonneg qs period (i + 1)) as [Hg Hloss]; [done|lia|].
      fold values in Hg, Hloss.
      destruct (rsi_value_bounds _ _ Hg Hloss) as (v & Hv & Hb).
      exists v. rewrite Hv. split; [done|]. split; [done|].
      intros Hz. rewrite <- Hv. by apply rsi_value_no_loss.
Qed.

(** The witness of C8: period 2 on a series of five prices. *)
Lemma calculateRSI_bounds_witness :
  (1 ≤ 2)%nat
  ∧ ∃ v, idx (calculateRSI (map Fin [1; 2; 1; 4; 5]) 2) 3 = Some (Some (Fin v))
         ∧ 0 <= v <= 100.
Proof.
  split; [lia|].
  destruct (calculateRSI_bounds [1; 2; 1; 4; 5] 2) as (_ & _ & Hdef); [lia|].
  destruct (Hdef 3%Z) as (v & Hv & Hb & _); [by compute|].
  exists v. split; [exact Hv | exact Hb].
Defined.

(** C8 as stated, for every period, fails: with period 0 the two
    initial averages are 0/0, and every value of the series is the
    defined value [NaN], which is not in [0, 100]. *)
Lemma calculateRSI_period_zero_counterexample :
  let rsi := calculateRSI (map Fin [1; 2; 3]) 0 in
  rsi = [Some NaN; Some NaN; Some NaN]
  ∧ ∃ v, idx rsi 0 = Some (Some v) ∧ ¬ within 0 100 v.
Proof.
  split; [by vm_compute|]. exists NaN. split; [by vm_compute|]. by intros [].
Qed.

End RsiFacts.

(** ** The Council *)

Section CouncilFacts.
Import Indicators Council.
Context `{Runtime}.
Local Open Scope Q_scope.

Ltac cget_ok candles i c :=
  let Hc := fresh "Hc" in
  destruct (cget_inside candles i) as (c & Hc & _);
  [unfold len in *; lia | rewrite Hc, ?bind_Ok].

Lemma calculateADX_ok (candles : list Candle) (period : nat) :
  ∃ adx, calculateADX candles period = Ok adx.
Proof.
  unfold calculateADX.
  destruct (len candles <=? Z.of_nat period * 2)%Z; [eauto|].
  match goal with |- context [for_loop_r ?lo ?hi ?body ?s] =>
    destruct (for_loop_r_ind (λ _ _, True) lo hi body s) as (st & -> & _)
  end.
  - unfold len. lia.
  - done.
  - intros i [[tr plusDM] minusDM] Hi _.
    destruct (i =? 0)%Z eqn:Ei.
    + cget_ok candles i ci. eauto.
    + apply Z.eqb_neq in Ei.
      cget_ok candles i ci. cget_ok candles (i - 1)%Z cp. eauto.
  - destruct st as [[tr plusDM] minusDM]. rewrite bind_Ok. eauto.
Qed.

Lemma calculateStochastic_ok (candles : list Candle) (kPeriod dPeriod : nat) :
  (1 ≤ kPeriod)%nat → ∃ st, calculateStochastic candles kPeriod dPeriod = Ok st.
Proof.
  intros Hk. unfold calculateStochastic.
  destruct (len candles <? Z.of_nat kPeriod)%Z eqn:Hlen; [eauto|].
  apply Z.ltb_ge in Hlen.
  match goal with |- context [for_loop_r ?lo ?hi ?body ?s] =>
    destruct (for_loop_r_ind (λ _ _, True) lo hi body s) as (st & -> & _)
  end.
  - lia.
  - done.
  - intros i kValues Hi _. cget_ok candles i ci.
    destruct (negb _); eauto.
  - rewrite bind_Ok. eauto.
Qed.

Lemma council_votes_ok (candles : list Candle) :
  ∃ votes, council_votes candles = Ok votes ∧ length votes = 7%nat.
Proof.
  unfold council_votes, getOrionVote, getHermesVote.
  destruct (calculateADX_ok candles 14) as [adx ->].
  destruct (calculateStochastic_ok candles 14 3) as [st ->]; [lia|].
  rewrite !bind_Ok. eexists. split; [reflexivity|]. reflexivity.
Qed.

Lemma generateCouncilDecision_enough (candles : list Candle)
    (symbol uuid : string) (now : Z) :
  (50 ≤ len candles)%Z →
  ∃ d, generateCouncilDecision candles symbol uuid now = Ok d
       ∧ length (votes d) = 7%nat
       ∧ finalAction d
         = council_action
             (or_else (idx (calculateRSI (map (λ c, Fin (close c)) candles) 14)
                           (len (map (λ c, Fin (close c)) candles) - 1)) 50)
             (count_direction buy (votes d))
             (count_direction sell (votes d)).
Proof.
  intros Hlen. unfold generateCouncilDecision.
  destruct (len candles <? 50)%Z eqn:E; [apply Z.ltb_lt in E; lia|].
  destruct (council_votes_ok candles) as (vs & -> & Hvs).
  rewrite bind_Ok. unfold council_action.
  generalize (or_else (idx (calculateRSI (map (λ c, Fin (close c)) candles) 14)
                           (len (map (λ c, Fin (close c)) candles) - 1)) 50).
  intros rsi.
  destruct (rsi <? 24)%js; [by eexists|].
  destruct (rsi >? 78)%js; [by eexists|].
  destruct (4 <=? count_direction buy vs)%nat eqn:Eb.
  { eexists. split; [reflexivity|]. cbn [votes finalAction]. by rewrite Eb. }
  destruct (4 <=? count_direction sell vs)%nat eqn:Es.
  { eexists. split; [reflexivity|]. cbn [votes finalAction].
    by rewrite Eb, Es. }
  eexists. split; [reflexivity|]. cbn [votes finalAction]. by rewrite Eb, Es.
Qed.

(** *** C1 *)

(** C1. On fewer than 50 candles [generateCouncilDecision] returns the
    fallback decision: hold, confidence 0, no votes.  On 50 candles or
    more it returns a decision with seven votes, the RSI(14) series has
    a finite value [r] at the last bar, and: the action is buy only if
    [r < 24] or at least 4 votes say buy; it is sell only if [r > 78]
    (and [r >= 24]) or at least 4 votes say sell; it is one of buy, sell
    and hold; and it is hold whenever neither condition holds. *)
Theorem council_decision_validity (candles : list Candle)
    (symbol uuid : string) (now : Z) :
  let closes := map (λ c, Fin (close c)) candles in
  let fallback := createFallbackDecision symbol now in
  ((len candles < 50)%Z →
     generateCouncilDecision candles symbol uuid now = Ok fallback
     ∧ finalAction fallback = hold
     ∧ decisionConfidence fallback = Fin 0
     ∧ votes fallback = [])
  ∧ ((50 ≤ len candles)%Z →
     ∃ d r,
       generateCouncilDecision candles symbol uuid now = Ok d
       ∧ length (votes d) = 7%nat
       ∧ idx (calculateRSI closes 14) (len closes - 1) = Some (Some (Fin r))
       ∧ let buyVotes := count_direction buy (votes d) in
         let sellVotes := count_direction sell (votes d) in
         (finalAction d = buy → r < 24 ∨ (4 ≤ buyVotes)%nat)
         ∧ (finalAction d = sell →
            (78 < r ∧ 24 <= r) ∨ (4 ≤ sellVotes)%nat)
         ∧ (finalAction d = buy ∨ finalAction d = sell
            ∨ finalAction d = hold)
         ∧ (¬ (r < 24 ∨ (4 ≤ buyVotes)%nat) →
            ¬ ((78 < r ∧ 24 <= r) ∨ (4 ≤ sellVotes)%nat) →
            finalAction d = hold)).
Proof.
  intros closes fallback. split.
  - intros Hlen. unfold generateCouncilDecision.
    apply Z.ltb_lt in Hlen. rewrite Hlen. done.
  - intros Hlen.
    destruct (generateCouncilDecision_enough candles symbol uuid now Hlen)
      as (d & Hd & Hvotes & Hact).
    destruct (calculateRSI_defined (map close candles) 14 (len closes - 1))
      as (r & Hr & Hb); [lia | subst closes; rewrite !len_map; lia |].
    rewrite map_map in Hr. fold closes in Hr, Hact.
    exists d, r. split; [done|]. split; [done|]. split; [done|].
    rewrite Hr in Hact. cbv zeta. rewrite Hact. unfold council_action.
    generalize (count_direction buy (votes d)) as nb.
    generalize (count_direction sell (votes d)) as ns. intros ns nb.
    unfold or_else, truthy.
    destruct (Qeq_bool r 0) eqn:Er; simpl negb; cbv iota.
    + apply Qeq_bool_iff in Er.
      replace (Fin 50 <? Fin 24)%js with false by done.
      replace (Fin 50 >? Fin 78)%js with false by done.
      destruct (4 <=? nb)%nat eqn:Eb;
        [apply Nat.leb_le in Eb | apply Nat.leb_gt in Eb];
      (destruct (4 <=? ns)%nat eqn:Es;
        [apply Nat.leb_le in Es | apply Nat.leb_gt in Es]);
      repeat split; try done; intros; auto; try lia;
        exfalso; intuition (lra || lia).
    + destruct (Fin r <? Fin 24)%js eqn:E24;
        [apply nlt_fin in E24 | apply nlt_fin_false in E24].
      { repeat split; try done; intros; auto. exfalso. intuition lra. }
      unfold ngt.
      destruct (Fin 78 <? Fin r)%js eqn:E78;
        [apply nlt_fin in E78 | apply nlt_fin_false in E78].
      { repeat split; try done; intros; auto. exfalso. intuition lra. }
      destruct (4 <=? nb)%nat eqn:Eb;
        [apply Nat.leb_le in Eb | apply Nat.leb_gt in Eb];
      (destruct (4 <=? ns)%nat eqn:Es;
        [apply Nat.leb_le in Es | apply Nat.leb_gt in Es]);
      repeat split; try done; intros; auto; try lia;
        exfalso; intuition (lra || lia).
Qed.

End CouncilFacts.

(** ** The backtest engine *)

Section BacktestFacts.
Import Indicators Backtest.
Context `{Runtime}.
Local Open Scope Q_scope.

Lemma get_index_arr a i : get_index (VArr a) i = Ok (jelem a i).
Proof. reflexivity. Qed.

Lemma indicators_rsi candles s i :
  at1 (calculateIndicators candles s) "rsi" i
  = Ok (jelem (calculateRSI (prices_of candles) 14) i).
Proof. reflexivity. Qed.

Lemma indicators_sma20 candles s i :
  at1 (calculateIndicators candles s) "sma20" i
  = Ok (jelem (calculateSMA (prices_of candles) 20) i).
Proof. reflexivity. Qed.

Lemma indicators_histogram candles s i :
  at2 (calculateIndicators candles s) "macd" "histogram" i
  = Ok (jelem (histogram (calculateMACD (prices_of candles) 12 26 9)) i).
Proof. reflexivity. Qed.

Lemma indicators_lower candles s i :
  at2 (calculateIndicators candles s) "bollinger" "lower" i
  = Ok (jelem (lower (calculateBollingerBands (prices_of candles) 20 2)) i).
Proof. reflexivity. Qed.

Lemma indicators_upper candles s i :
  at2 (calculateIndicators candles s) "bollinger" "upper" i
  = Ok (jelem (upper (calculateBollingerBands (prices_of candles) 20 2)) i).
Proof. reflexivity. Qed.

(** The object [calculateMACD] returns has the properties [macd],
    [signal] and [histogram]: it has no [macdLine]. *)
Lemma indicators_macdLine candles s i :
  at2 (calculateIndicators candles s) "macd" "macdLine" i = Throw TypeError.
Proof. reflexivity. Qed.

Ltac cget_ok candles i c :=
  let Hc := fresh "Hc" in
  destruct (cget_inside candles i) as (c & Hc & _);
  [unfold len in *; lia | rewrite Hc, ?bind_Ok].

Lemma generateSignal_macdCrossover candles s i :
  (1 ≤ i < len candles)%Z →
  generateSignal i candles (calculateIndicators candles s) macdCrossover
  = Throw TypeError.
Proof.
  intros Hi. unfold generateSignal.
  cget_ok candles i c. cget_ok candles (i - 1)%Z cp.
  by rewrite indicators_macdLine.
Qed.

Lemma backtest_step_macdCrossover cfg candles i st :
  strategy cfg = macdCrossover →
  (1 ≤ i < len candles)%Z →
  backtest_step cfg candles (calculateIndicators candles (strategy cfg)) i st
  = Throw TypeError.
Proof.
  intros Hs Hi. unfold backtest_step.
  cget_ok candles i c. rewrite Hs.
  by rewrite generateSignal_macdCrossover.
Qed.

(** With the [macdCrossover] strategy [runBacktest] throws on every
    series of 50 candles or more. *)
Lemma runBacktest_macdCrossover symbol candles config now :
  strategy (merge_config config) = macdCrossover →
  (50 ≤ len candles)%Z →
  runBacktest symbol candles config now = Throw TypeError.
Proof.
  intros Hs Hlen. unfold runBacktest.
  destruct (len candles <? 50)%Z eqn:E; [apply Z.ltb_lt in E; lia|].
  destruct (decide (len candles = 50%Z)) as [Heq|Hne].
  - rewrite for_loop_r_empty by lia. rewrite bind_Ok.
    unfold close_remaining. cbn [position]. rewrite bind_Ok.
    rewrite (cget_outside candles 50) by lia. reflexivity.
  - rewrite (for_loop_r_throw_first _ _ _ _ TypeError); [done | lia |].
    apply backtest_step_macdCrossover; [done | lia].
Qed.

(** *** The composite strategy never buys while the RSI is 100 *)

Lemma generateSignal_argusComposite_rsi100 candles s i :
  (1 ≤ i < len candles)%Z →
  idx (calculateRSI (prices_of candles) 14) i = Some (Some (Fin 100)) →
  ∃ sg, generateSignal i candles (calculateIndicators candles s)
                       argusComposite = Ok sg
        ∧ sg ≠ sig_buy.
Proof.
  intros Hi Hrsi. unfold generateSignal.
  cget_ok candles i c. cget_ok candles (i - 1)%Z cp.
  rewrite indicators_rsi, indicators_histogram, indicators_sma20,
    indicators_lower, indicators_upper, !bind_Ok.
  assert (Hv : jelem (calculateRSI (prices_of candles) 14) i = VNum (Fin 100))
    by (unfold jelem; by rewrite Hrsi).
  rewrite Hv. cbn [jnot_null jnum].
  replace (Fin 100 <? Fin 30)%js with false by done.
  replace (Fin 100 <? Fin 40)%js with false by done.
  replace (Fin 100 >? Fin 70)%js with true by done.
  generalize (jelem (histogram (calculateMACD (prices_of candles) 12 26 9)) i).
  generalize (jelem (calculateSMA (prices_of candles) 20) i).
  generalize
    (jelem (lower (calculateBollingerBands (prices_of candles) 20 2)) i).
  generalize
    (jelem (upper (calculateBollingerBands (prices_of candles) 20 2)) i).
  intros up lo sma hist. cbv zeta.
  destruct (jnot_null hist), (jnum hist >? 0)%js,
    (jnot_null sma), (Fin (close c) >? jnum sma)%js,
    (jnot_null lo && (Fin (close c) <? jnum lo)%js),
    (jnot_null up && (Fin (close c) >? jnum up)%js);
    vm_compute; eexists; (split; [reflexivity | discriminate]).
Qed.

Lemma flat_never_falls c candles :
  flat_at c candles → never_falls (map close candles).
Proof.
  intros Hflat i a b Ha Hb. rewrite idx_map in Ha, Hb.
  destruct (idx candles (i - 1)) as [x|] eqn:Ex; [|done].
  destruct (idx candles i) as [y|] eqn:Ey; [|done].
  simpl in Ha, Hb. injection Ha as <-. injection Hb as <-.
  unfold flat_at in Hflat. rewrite Forall_forall in Hflat.
  assert (Hin : ∀ k z, idx candles k = Some z → close z = c).
  { intros k z Hk. apply Hflat. unfold idx in Hk.
    destruct (k <? 0)%Z; [done|]. by apply list_elem_of_lookup_2 in Hk. }
  rewrite (Hin _ _ Ex), (Hin _ _ Ey). lra.
Qed.

(** The loop of [runBacktest] when the strategy never says buy: no
    position is opened, and the capital is not touched. *)
Lemma backtest_loop_no_buy cfg candles indicators hi :
  (50 ≤ hi ≤ len candles)%Z →
  (∀ i, (50 ≤ i < hi)%Z →
        ∃ sg, generateSignal i candles indicators (strategy cfg) = Ok sg
              ∧ sg ≠ sig_buy) →
  ∃ st, for_loop_r 50 hi (backtest_step cfg candles indicators)
          {| capital := initialCapital cfg;
             position := None;
             ls_trades := [];
             ls_equityCurve := [];
             ls_signals := [];
             peakEquity := initialCapital cfg;
             ls_maxDrawdown := Fin 0 |} = Ok st
        ∧ capital st = initialCapital cfg
        ∧ position st = None
        ∧ ls_trades st = []
        ∧ ls_signals st = [].
Proof.
  intros Hhi Hsig.
  apply (for_loop_r_ind
    (λ _ st, capital st = initialCapital cfg ∧ position st = None
             ∧ ls_trades st = [] ∧ ls_signals st = [])).
  - lia.
  - done.
  - intros i st Hi (Hcap & Hpos & Htr & Hsg). unfold backtest_step.
    cget_ok candles i c.
    destruct (Hsig i Hi) as (sg & -> & Hne). rewrite bind_Ok, Hpos.
    destruct sg; [done | |]; eexists; (split; [reflexivity|]); done.
Qed.

(** *** C6 *)

(** C6. On 200 candles whose open, high, low and close all equal one
    price, [runBacktest] with the [argusComposite] strategy returns a
    result with no trades and a final capital equal to the initial
    capital. *)
Theorem runBacktest_flat_argusComposite (c : Q) (candles : list Candle)
    (symbol : string) (config : PartialConfig) (now : Z) :
  length candles = 200%nat →
  flat_at c candles →
  p_strategy config = Some argusComposite →
  ∃ r, runBacktest symbol candles config now = Ok r
       ∧ trades r = []
       ∧ totalTrades r = 0%nat
       ∧ finalCapital r = r_initialCapital r
       ∧ r_initialCapital r = initialCapital (merge_config config).
Proof.
  intros Hlen Hflat Hstrat.
  assert (Hl : len candles = 200%Z) by (unfold len; lia).
  assert (Hs : strategy (merge_config config) = argusComposite).
  { unfold merge_config. cbn [strategy]. by rewrite Hstrat. }
  unfold runBacktest.
  destruct (len candles <? 50)%Z eqn:E; [apply Z.ltb_lt in E; lia|].
  destruct (backtest_loop_no_buy (merge_config config) candles
              (calculateIndicators candles (strategy (merge_config config)))
              (len candles))
    as (st & -> & Hcap & Hpos & Htr & Hsg); [lia | |].
  { intros i Hi. rewrite Hs.
    apply generateSignal_argusComposite_rsi100; [lia|].
    unfold prices_of. rewrite <- (map_map close Fin).
    apply calculateRSI_never_falls;
      [lia | by apply (flat_never_falls c) | rewrite len_map; lia]. }
  rewrite bind_Ok. unfold close_remaining. rewrite Hpos, bind_Ok.
  cget_ok candles 50%Z c50. cget_ok candles (len candles - 1)%Z cl.
  eexists. split; [reflexivity|].
  cbn [trades totalTrades finalCapital r_initialCapital].
  rewrite Htr, Hcap. done.
Qed.

End BacktestFacts.

(** The witness of C6: 200 candles at the price 100, default
    configuration but for the strategy. *)
Lemma runBacktest_flat_argusComposite_witness :
  let candles :=
    replicate 200 {| date := 0; open := 100; high := 100; low := 100;
                     close := 100; volume := 1 |} in
  let config :=
    {| Backtest.p_strategy := Some Backtest.argusComposite;
       Backtest.p_initialCapital := None;
       Backtest.p_positionSize := None; Backtest.p_stopLoss := None;
       Backtest.p_takeProfit := None; Backtest.p_commission := None |} in
  length candles = 200%nat
  ∧ flat_at 100 candles
  ∧ Backtest.p_strategy config = Some Backtest.argusComposite
  ∧ ∃ r, @Backtest.runBacktest example_runtime "BTCUSDT" candles config 0
         = Ok r
         ∧ Backtest.trades r = [] ∧ Backtest.finalCapital r = Fin 10000%Q.
Proof.
  intros candles config.
  assert (Hflat : flat_at 100 candles).
  { apply Forall_forall. intros x Hx.
    apply elem_of_replicate in Hx as [-> _]. done. }
  split; [reflexivity|]. split; [exact Hflat|]. split; [reflexivity|].
  destruct (@runBacktest_flat_argusComposite example_runtime 100 candles
              "BTCUSDT" config 0 eq_refl Hflat eq_refl)
    as (r & Hr & Htr & _ & Hfin & Hinit).
  exists r. split; [exact Hr|]. split; [exact Htr|].
  rewrite Hfin, Hinit. reflexivity.
Defined.

(** The witness of C1: fifty candles at one price. *)
Lemma council_decision_validity_witness :
  let candles :=
    replicate 50 {| date := 0; open := 100; high := 101; low := 99;
                    close := 100; volume := 10 |} in
  (50 ≤ len candles)%Z
  ∧ ∃ d, @Council.generateCouncilDecision example_runtime candles
           "BTCUSDT" "0000" 0 = Ok d
         ∧ length (Council.votes d) = 7%nat
         ∧ (Council.finalAction d = Council.buy
            ∨ Council.finalAction d = Council.sell
            ∨ Council.finalAction d = Council.hold).
Proof.
  intros candles. split; [by compute|].
  destruct (@council_decision_validity example_runtime candles
              "BTCUSDT" "0000" 0) as [_ Henough].
  destruct Henough as (d & r & Hd & Hvotes & _ & _ & _ & Hact & _);
    [by compute|].
  exists d. split; [exact Hd|]. split; [exact Hvotes | exact Hact].
Defined.

(** *** C2 *)

(** C2 (the code departs from it). With the [macdCrossover] strategy
    [runBacktest] throws a [TypeError] on every series of 50 candles or
    more: [generateSignal] reads [indicators.macd.macdLine] and
    [indicators.macd.signalLine], and the object [calculateMACD] returns
    names these series [macd] and [signal]. *)
Theorem runBacktest_macdCrossover_throws `{Runtime} (symbol : string)
    (candles : list Candle) (config : Backtest.PartialConfig) (now : Z) :
  Backtest.p_strategy config = Some Backtest.macdCrossover →
  (50 ≤ len candles)%Z →
  Backtest.runBacktest symbol candles config now = Throw TypeError.
Proof.
  intros Hs Hlen. apply runBacktest_macdCrossover; [|done].
  unfold Backtest.merge_config. cbn [Backtest.strategy]. by rewrite Hs.
Qed.

(** The witness of C2: sixty candles of a rising market. *)
Lemma runBacktest_macdCrossover_throws_witness :
  let candles :=
    map (λ n, let c := inject_Z (100 + Z.of_nat n) in
              {| date := Z.of_nat n; open := c; high := c + 1; low := c - 1;
                 close := c; volume := 10 |}) (seq 0 60) in
  let config :=
    {| Backtest.p_strategy := Some Backtest.macdCrossover;
       Backtest.p_initialCapital := None;
       Backtest.p_positionSize := None; Backtest.p_stopLoss := None;
       Backtest.p_takeProfit := None; Backtest.p_commission := None |} in
  Backtest.p_strategy config = Some Backtest.macdCrossover
  ∧ (50 ≤ len candles)%Z
  ∧ @Backtest.runBacktest example_runtime "BTCUSDT" candles config 0
    = Throw TypeError.
Proof.
  intros candles config.
  split; [reflexivity|]. split; [by compute|].
  apply (@runBacktest_macdCrossover_throws example_runtime);
    [reflexivity | by compute].
Defined.

(** ** The paper portfolio *)

Section PaperFacts.
Import Paper.
Local Open Scope Q_scope.

Lemma nlt_irrefl (a : num) : (a <? a)%js = false.
Proof.
  destruct a; try done. simpl. apply Qltb_false_iff. lra.
Qed.

Lemma nsub_self_no_dust (a : num) : (a - a >? 0.000001)%js = false.
Proof.
  destruct a; try done. unfold ngt. simpl. apply Qltb_false_iff.
  rewrite Qred_correct. lra.
Qed.

(** *** C9 *)

(** C9. For a held symbol, [paperSell] with the explicit quantity 0
    behaves exactly as with the quantity omitted; when the ticker
    arrives it sells the entire position: it returns a closed sell trade
    for the full held quantity, appends it, and removes the position. *)
Theorem paperSell_zero_sells_all (w : World) (p : PaperPortfolio)
    (symbol : string) (position : Position) (reason : option string)
    (ticker : option num) (now : Z) :
  portfolio w = Some p →
  positions p !! symbol = Some position →
  paperSell w symbol (Some (Fin 0)) reason ticker now
  = paperSell w symbol None reason ticker now
  ∧ ∀ price, ticker = Some price →
      ∃ trade p',
        paperSell w symbol (Some (Fin 0)) reason ticker now
        = (Some trade, {| portfolio := Some p'; saved := Some p' |})
        ∧ quantity trade = pos_quantity position
        ∧ type trade = type_sell
        ∧ status trade = status_closed
        ∧ positions p' !! symbol = None
        ∧ trades p' = trades p ++ [trade].
Proof.
  intros Hp Hpos. split; [reflexivity|].
  intros price ->. unfold paperSell. rewrite Hp, Hpos.
  cbn [sellQty_of truthy Qeq_bool]. replace (negb (Qeq_bool 0 0)) with false by done.
  cbv zeta. unfold ngt at 1. rewrite nlt_irrefl, nsub_self_no_dust.
  eexists _, _. split; [reflexivity|].
  cbn [quantity type status positions trades].
  split; [done|]. split; [done|]. split; [done|]. split; [|done].
  apply lookup_delete_eq.
Qed.

(** *** C3 *)

(** What [paperBuy] does on a portfolio that already holds the symbol:
    the guard rejects the order and nothing changes. *)
Lemma paperBuy_held (w : World) (p : PaperPortfolio) (symbol : string)
    (position : Position) (amountUSD : num) (reason : string)
    (confidence : num) (ticker : option num) (now : Z) :
  portfolio w = Some p →
  positions p !! symbol = Some position →
  paperBuy w symbol amountUSD reason confidence ticker now = (None, w).
Proof.
  intros Hp Hpos. unfold paperBuy, paperBuy_guard. rewrite Hp, Hpos.
  rewrite bool_decide_eq_true_2; [done | by eexists].
Qed.

(** C3 (amended). From a portfolio with no position in the symbol and
    a balance of at least $1000, [paperBuy] of $1000 at the price
    $50,000 succeeds and opens a position of quantity 0.02 at an average
    cost of $50,000; a following [paperBuy] of $1000 at $25,000 for the
    same symbol is rejected by the duplicate-position guard: it returns
    no trade and leaves the portfolio as it was.  The code behind the
    guard is the weighted-average merge: run on that position it gives
    the quantity 0.06 and the average cost 100000/3 = 33,333.33. *)
Theorem paperBuy_twice (w : World) (p : PaperPortfolio) (symbol : string)
    (b : Q) (reason1 reason2 : string) (confidence1 confidence2 : num)
    (now1 now2 : Z) :
  portfolio w = Some p →
  positions p !! symbol = None →
  balance p = Fin b →
  1000 <= b →
  let first := paperBuy w symbol 1000 reason1 confidence1
                        (Some (Fin 50000)) now1 in
  let second := paperBuy first.2 symbol 1000 reason2 confidence2
                         (Some (Fin 25000)) now2 in
  ∃ trade p1 opened merged,
    first.1 = Some trade
    ∧ portfolio first.2 = Some p1
    ∧ positions p1 = <[symbol := opened]> (positions p)
    ∧ is_val (pos_quantity opened) 0.02
    ∧ is_val (avgCost opened) 50000
    ∧ second = (None, first.2)
    ∧ positions (paperBuy_commit p1 symbol 1000 reason2 confidence2
                                 25000 now2).2 !! symbol = Some merged
    ∧ is_val (pos_quantity merged) 0.06
    ∧ is_val (avgCost merged) (100000 # 3).
Proof.
  intros Hp Hpos Hbal Hb first second.
  pose (opened := {| pos_quantity := (1000 / 50000)%js; avgCost := 50000;
                     pos_stopLoss := None; pos_takeProfit := None |}).
  assert (Hfirst : ∃ trade p1,
            first = (Some trade, {| portfolio := Some p1; saved := Some p1 |})
            ∧ positions p1 = <[symbol := opened]> (positions p)).
  { subst first. unfold paperBuy, paperBuy_guard. rewrite Hp, Hpos.
    rewrite bool_decide_eq_false_2 by (by intros [? ?]).
    rewrite Hbal. replace (Fin b <? 1000)%js with false
      by (symmetry; apply nlt_fin_false; lra).
    unfold paperBuy_commit. rewrite Hpos. eexists _, _.
    split; [reflexivity|]. reflexivity. }
  destruct Hfirst as (trade & p1 & Hfirst & Hpos1).
  exists trade, p1, opened. eexists.
  subst second. rewrite Hfirst. cbn [fst snd portfolio].
  split; [done|]. split; [done|]. split; [done|].
  split; [by compute|]. split; [by compute|]. split.
  - apply (paperBuy_held _ p1 symbol opened); [done|].
    rewrite Hpos1. apply lookup_insert_eq.
  - unfold paperBuy_commit. cbn [positions snd]. rewrite Hpos1.
    rewrite lookup_insert_eq. rewrite lookup_insert_eq.
    split; [reflexivity|]. split; by compute.
Qed.

(** C3 as stated fails: after the two calls the position still has the
    quantity 0.02 and the average cost 50,000, not 0.06 and
    33,333.33. *)
Lemma paperBuy_twice_counterexample :
  is_Some scenario_first_buy.1
  ∧ scenario_second_buy.1 = None
  ∧ position_of scenario_second_buy.2 "BTCUSDT"
    = Some {| pos_quantity := 1 # 50; avgCost := 50000;
              pos_stopLoss := None; pos_takeProfit := None |}
  ∧ ¬ (∃ position, position_of scenario_second_buy.2 "BTCUSDT" = Some position
                   ∧ is_val (pos_quantity position) 0.06
                   ∧ is_val (avgCost position) (100000 # 3)).
Proof.
  assert (Hpos : position_of scenario_second_buy.2 "BTCUSDT"
                 = Some {| pos_quantity := 1 # 50; avgCost := 50000;
                           pos_stopLoss := None; pos_takeProfit := None |})
    by (vm_compute; reflexivity).
  split; [by eexists|]. split; [by vm_compute|]. split; [exact Hpos|].
  intros (position & Hp & Hq & _). rewrite Hpos in Hp. injection Hp as <-.
  by compute in Hq.
Qed.

(** *** C5 *)

Lemma openPositionsCost_eq p :
  openPositionsCost p = map_fold cost_step (Fin 0) (positions p).
Proof. reflexivity. Qed.

Lemma cost_step_swap j1 z1 j2 z2 y :
  cost_step j1 z1 (cost_step j2 z2 y) = cost_step j2 z2 (cost_step j1 z1 y).
Proof. unfold cost_step. apply nadd_swap. Qed.

Lemma cost_insert_fresh (m : gmap string Position) symbol position :
  m !! symbol = None →
  map_fold cost_step (Fin 0) (<[symbol := position]> m)
  = cost_step symbol position (map_fold cost_step (Fin 0) m).
Proof.
  intros Hnone. apply map_fold_insert_L; [|done].
  intros. apply cost_step_swap.
Qed.

Lemma cost_delete (m : gmap string Position) symbol position :
  m !! symbol = Some position →
  map_fold cost_step (Fin 0) m
  = cost_step symbol position (map_fold cost_step (Fin 0) (delete symbol m)).
Proof.
  intros Hsome. apply map_fold_delete_L; [|done].
  intros. apply cost_step_swap.
Qed.

Lemma cost_insert_held (m : gmap string Position) symbol position position' :
  m !! symbol = Some position →
  map_fold cost_step (Fin 0) (<[symbol := position']> m)
  = cost_step symbol position'
      (map_fold cost_step (Fin 0) (delete symbol m)).
Proof.
  intros Hsome. rewrite <- (insert_delete_eq m).
  apply cost_insert_fresh. apply lookup_delete_eq.
Qed.

Lemma expectedBalance_eq p :
  expectedBalance p
  = ((initialBalance p + closed_pnl (trades p)) - open_cost (positions p))%js.
Proof. reflexivity. Qed.

Lemma closed_pnl_snoc_open ts trade :
  status trade = status_open → closed_pnl (ts ++ [trade]) = closed_pnl ts.
Proof.
  intros Hopen. unfold closed_pnl.
  rewrite filter_app, filter_cons_False, filter_nil, app_nil_r;
    [done | by rewrite Hopen].
Qed.

Lemma closed_pnl_snoc_closed ts trade :
  status trade = status_closed →
  closed_pnl (ts ++ [trade]) = (closed_pnl ts + pnl_or_0 trade)%js.
Proof.
  intros Hclosed. unfold closed_pnl.
  rewrite filter_app, filter_cons_True, filter_nil by done.
  by rewrite fold_left_app.
Qed.

Lemma nadd_fin_inv a b e :
  (a + b)%js = Fin e → ∃ x y, a = Fin x ∧ b = Fin y ∧ e == x + y.
Proof.
  destruct a as [x| | |], b as [y| | |]; try done. simpl.
  intros [= <-]. exists x, y. split; [done|]. split; [done|].
  apply Qred_correct.
Qed.

Lemma nsub_fin_inv a b e :
  (a - b)%js = Fin e → ∃ x y, a = Fin x ∧ b = Fin y ∧ e == x - y.
Proof.
  destruct a as [x| | |], b as [y| | |]; try done. simpl.
  intros [= <-]. exists x, y. split; [done|]. split; [done|].
  apply Qred_correct.
Qed.

(** The parts of a finite expected balance. *)
Lemma reconciled_parts p :
  reconciled p →
  ∃ b i cl o,
    balance p = Fin b ∧ initialBalance p = Fin i
    ∧ closed_pnl (trades p) = Fin cl ∧ open_cost (positions p) = Fin o
    ∧ b == i + cl - o.
Proof.
  intros (b & Hb & Hval). rewrite expectedBalance_eq in Hval.
  destruct (_ - _)%js as [e| | |] eqn:He; try done. simpl in Hval.
  apply nsub_fin_inv in He as (x & o & Hx & Ho & He).
  apply nadd_fin_inv in Hx as (i & cl & Hi & Hcl & Hx).
  exists b, i, cl, o. repeat split; try done. rewrite <- Hval, He, Hx. done.
Qed.

Lemma reconciled_intro p b i cl o :
  balance p = Fin b → initialBalance p = Fin i →
  closed_pnl (trades p) = Fin cl → open_cost (positions p) = Fin o →
  b == i + cl - o →
  reconciled p.
Proof.
  intros Hb Hi Hcl Ho Heq. exists b. split; [done|].
  rewrite expectedBalance_eq, Hi, Hcl, Ho. simpl.
  rewrite !Qred_correct. by symmetry.
Qed.

Lemma paperBuy_keeps_reconciled (w w' : World) (p : PaperPortfolio)
    (symbol : string) (amountUSD price : Q) (reason : string)
    (confidence : num) (now : Z) (trade : PaperTrade) :
  portfolio w = Some p →
  finite_positions p → reconciled p →
  0 < price →
  paperBuy w symbol (Fin amountUSD) reason confidence (Some (Fin price)) now
  = (Some trade, w') →
  ∃ p', portfolio w' = Some p' ∧ finite_positions p' ∧ reconciled p'.
Proof.
  intros Hp Hfin Hrec Hprice. unfold paperBuy. rewrite Hp.
  unfold paperBuy_guard.
  destruct (bool_decide _) eqn:Hheld; [done|].
  apply bool_decide_eq_false in Hheld.
  assert (Hnone : positions p !! symbol = None).
  { destruct (positions p !! symbol) eqn:E; [|done].
    exfalso. apply Hheld. by eexists. }
  destruct (balance p <? amountUSD)%js; [done|].
  unfold paperBuy_commit. rewrite Hnone. intros [= <- <-].
  eexists. split; [reflexivity|].
  assert (Hnz : Qeq_bool price 0 = false) by (apply Qeq_bool_false_iff; lra).
  split.
  - intros sym position. cbn [positions].
    destruct (decide (sym = symbol)) as [->|Hne].
    + rewrite lookup_insert_eq. intros [= <-]. simpl. by rewrite Hnz.
    + rewrite lookup_insert_ne by done. apply Hfin.
  - destruct (reconciled_parts p Hrec) as (b & i & cl & o & Hb & Hi & Hcl
                                           & Ho & Heq).
    eapply reconciled_intro.
    + cbn [balance]. rewrite Hb. reflexivity.
    + cbn [initialBalance]. exact Hi.
    + cbn [trades]. rewrite closed_pnl_snoc_open by done. exact Hcl.
    + cbn [positions]. unfold open_cost. rewrite cost_insert_fresh by done.
      fold (open_cost (positions p)). rewrite Ho. unfold cost_step.
      cbn [pos_quantity avgCost]. simpl. rewrite Hnz. reflexivity.
    + rewrite !Qred_correct, Heq. field. lra.
Qed.

Lemma sellQty_of_fin (quantity : option Q) position q :
  pos_quantity position = Fin q →
  ∃ s, sellQty_of (Fin <$> quantity) position = Fin s.
Proof.
  intros Hq. unfold sellQty_of. destruct quantity as [x|]; simpl.
  - destruct (negb (Qeq_bool x 0)); eauto.
  - eauto.
Qed.

Lemma closed_pnl_sell ts trade (cl x : Q) :
  status trade = status_closed → pnl trade = Some (Fin x) →
  closed_pnl ts = Fin cl →
  ∃ cl', closed_pnl (ts ++ [trade]) = Fin cl' ∧ cl' == cl + x.
Proof.
  intros Hst Hpnl Hcl. rewrite closed_pnl_snoc_closed, Hcl by done.
  unfold pnl_or_0. rewrite Hpnl. simpl.
  destruct (Qeq_bool x 0) eqn:E; simpl; eexists; (split; [reflexivity|]);
    rewrite Qred_correct; [|done].
  apply Qeq_bool_iff in E. by rewrite E.
Qed.

Lemma paperSell_keeps_reconciled (w w' : World) (p : PaperPortfolio)
    (symbol : string) (quantity : option Q) (price : Q)
    (reason : option string) (now : Z) (trade : PaperTrade) :
  portfolio w = Some p →
  finite_positions p → reconciled p →
  sells_clean w symbol (Fin <$> quantity) →
  paperSell w symbol (Fin <$> quantity) reason (Some (Fin price)) now
  = (Some trade, w') →
  ∃ p', portfolio w' = Some p' ∧ finite_positions p' ∧ reconciled p'.
Proof.
  intros Hp Hfin Hrec Hclean. unfold paperSell. rewrite Hp.
  destruct (positions p !! symbol) as [position|] eqn:Hpos; [|done].
  specialize (Hclean p position Hp Hpos). cbv zeta in Hclean.
  destruct (Hfin symbol position Hpos) as [Hq Ha].
  destruct (pos_quantity position) as [q| | |] eqn:Eq; try done.
  destruct (avgCost position) as [a| | |] eqn:Ea; try done.
  destruct (sellQty_of_fin quantity position q Eq) as [s Hs].
  rewrite Hs in *.
  destruct (Fin s >? Fin q)%js; [done|].
  destruct (reconciled_parts p Hrec) as (b & i & cl & o & Hb & Hi & Hcl
                                         & Ho & Heq).
  pose proof (cost_delete (positions p) symbol position Hpos) as Hdel.
  fold (open_cost (positions p)) in Hdel.
  fold (open_cost (delete symbol (positions p))) in Hdel.
  rewrite Ho in Hdel. unfold cost_step in Hdel. symmetry in Hdel.
  apply nadd_fin_inv in Hdel as (x & y & Hx & Hy & Hxy).
  rewrite Eq, Ea in Hy. simpl in Hy. injection Hy as <-.
  rewrite Qred_correct in Hxy.
  destruct (Fin q - Fin s >? 0.000001)%js eqn:Edust; intros [= <- <-];
    (eexists; split; [reflexivity|]).
  - split.
    + intros sym position'. cbn [positions].
      destruct (decide (sym = symbol)) as [->|Hne].
      * rewrite lookup_insert_eq. intros [= <-]. done.
      * rewrite lookup_insert_ne by done. apply Hfin.
    + match goal with |- reconciled {| trades := _ ++ [?t] |} =>
        destruct (closed_pnl_sell (trades p) t cl _ eq_refl eq_refl Hcl)
          as (cl' & Hcl' & Hclq)
      end.
      eapply reconciled_intro.
      * cbn [balance]. rewrite Hb. reflexivity.
      * cbn [initialBalance]. exact Hi.
      * cbn [trades]. exact Hcl'.
      * cbn [positions]. unfold open_cost.
        rewrite (cost_insert_held _ _ position) by done.
        fold (open_cost (delete symbol (positions p))). rewrite Hx.
        unfold cost_step. cbn [pos_quantity avgCost].
        reflexivity.
      * rewrite Hclq, !Qred_correct, Heq, Hxy. ring.
  - destruct Hclean as [Hzero|Hgt]; [|by rewrite Hgt in Edust].
    simpl in Hzero. rewrite Qred_correct in Hzero.
    split.
    + intros sym position'. cbn [positions].
      destruct (decide (sym = symbol)) as [->|Hne].
      * by rewrite lookup_delete_eq.
      * rewrite lookup_delete_ne by done. apply Hfin.
    + match goal with |- reconciled {| trades := _ ++ [?t] |} =>
        destruct (closed_pnl_sell (trades p) t cl _ eq_refl eq_refl Hcl)
          as (cl' & Hcl' & Hclq)
      end.
      eapply reconciled_intro.
      * cbn [balance]. rewrite Hb. reflexivity.
      * cbn [initialBalance]. exact Hi.
      * cbn [trades]. exact Hcl'.
      * cbn [positions]. exact Hx.
      * assert (Hqs : q == s) by lra.
        rewrite Hclq, !Qred_correct, Heq, Hxy, Hqs. ring.
Qed.

Lemma initialize_reconciled (initial : Q) (now : Z) (w0 : World) :
  ∃ p, portfolio (initializePaperPortfolio (Fin initial) now w0).2 = Some p
       ∧ finite_positions p ∧ reconciled p.
Proof.
  eexists. split; [reflexivity|]. split.
  - intros symbol position. cbn [positions]. by rewrite lookup_empty.
  - exists initial. split; [reflexivity|].
    rewrite expectedBalance_eq. cbn [initialBalance trades positions].
    unfold open_cost. rewrite map_fold_empty. simpl.
    rewrite !Qred_correct. ring.
Qed.

Lemma trading_invariant (w0 w : World) :
  (∃ p, portfolio w0 = Some p ∧ finite_positions p ∧ reconciled p) →
  trading w0 w →
  ∃ p, portfolio w = Some p ∧ finite_positions p ∧ reconciled p.
Proof.
  intros Hstart Htrading. induction Htrading as
    [ | w w' symbol amountUSD price reason confidence now trade _ IH Hprice Hbuy
      | w w' symbol quantity price reason now trade _ IH Hclean Hsell ].
  - exact Hstart.
  - destruct IH as (p & Hp & Hfin & Hrec).
    by eapply paperBuy_keeps_reconciled.
  - destruct IH as (p & Hp & Hfin & Hrec).
    by eapply paperSell_keeps_reconciled.
Qed.

(** C5 (amended). After any sequence of successful [paperBuy] and
    [paperSell] calls on an initialized portfolio, with finite amounts,
    positive buy prices, and no sell that leaves a remainder between 0
    and 0.000001, the balance equals the initial balance plus the pnl
    of the closed trades minus the quantity times average cost of the
    open positions (exactly, in exact arithmetic).  On load of a stored
    portfolio whose numbers are all finite, a balance that differs from
    that expected value by more than 1 is overwritten with it, and a
    balance within 1 of it is kept. *)
Theorem trading_keeps_balance_reconciled (initial : Q) (now0 : Z)
    (w0 w : World) :
  (trading (initializePaperPortfolio (Fin initial) now0 w0).2 w →
   ∃ p b, portfolio w = Some p
          ∧ balance p = Fin b
          ∧ is_val ((initialBalance p + closedTradesPnl p)
                    - openPositionsCost p)%js b)
  ∧ (∀ data, saved w = Some data → storable data →
       let drift := nabs (balance data - expectedBalance data)%js in
       let loaded := (loadPaperPortfolio w).1 in
       ((drift >? 1)%js = true →
        loaded = Some (set_balance data (expectedBalance data)))
       ∧ ((drift >? 1)%js = false → loaded = Some data)).
Proof.
  split.
  - intros Htrading.
    destruct (trading_invariant _ w (initialize_reconciled initial now0 w0)
                Htrading) as (p & Hp & _ & b & Hb & Hval).
    by exists p, b.
  - intros data Hsaved _ drift loaded. subst drift loaded.
    unfold loadPaperPortfolio, repairPortfolioBalance. rewrite Hsaved.
    cbn [portfolio].
    destruct (nabs (balance data - expectedBalance data) >? 1)%js; by split.
Qed.

(** C5 as stated fails: all 18 orders succeed, and the balance ends
    $1.125 below the expected balance, beyond the tolerance of the
    repair. *)
Lemma trading_dust_counterexample :
  ∃ w p, place_all dust_orders scenario_start = Some w
         ∧ portfolio w = Some p
         ∧ positions p = ∅
         ∧ is_val (balance p) 9998.875
         ∧ expectedBalance p = Fin 10000
         ∧ (nabs (balance p - expectedBalance p) >? 1)%js = true.
Proof.
  destruct (place_all dust_orders scenario_start) as [w|] eqn:Hw;
    [|by vm_compute in Hw].
  destruct (portfolio w) as [p|] eqn:Hp.
  2: { vm_compute in Hw. injection Hw as <-. by vm_compute in Hp. }
  exists w, p. split; [done|]. split; [done|].
  vm_compute in Hw. injection Hw as <-. vm_compute in Hp. injection Hp as <-.
  split; [|split; [|split]]; by vm_compute.
Qed.

End PaperFacts.



(** The witness of C9: a position of 0.02 BTC sold at $60,000. *)
Lemma paperSell_zero_sells_all_witness :
  let w := scenario_first_buy.2 in
  ∃ p position,
    Paper.portfolio w = Some p
    ∧ Paper.positions p !! "BTCUSDT" = Some position
    ∧ ∃ trade p',
        Paper.paperSell w "BTCUSDT" (Some (Fin 0)) None (Some (Fin 60000)) 2
        = (Some trade, {| Paper.portfolio := Some p'; Paper.saved := Some p' |})
        ∧ Paper.quantity trade = Paper.pos_quantity position
        ∧ Paper.positions p' !! "BTCUSDT" = None.
Proof.
  intros w.
  destruct (Paper.portfolio w) as [p|] eqn:Hp; [|by vm_compute in Hp].
  destruct (Paper.positions p !! "BTCUSDT") as [position|] eqn:Hpos.
  2: { exfalso. vm_compute in Hp. injection Hp as <-. by vm_compute in Hpos. }
  exists p, position. split; [reflexivity|]. split; [exact Hpos|].
  destruct (paperSell_zero_sells_all w p "BTCUSDT" position None
              (Some (Fin 60000)) 2 Hp Hpos) as [_ Hsell].
  destruct (Hsell (Fin 60000) eq_refl)
    as (trade & p' & Heq & Hq & _ & _ & Hgone & _).
  exists trade, p'. split; [exact Heq|]. split; [exact Hq | exact Hgone].
Defined.

(** The witness of C3 (amended): the fresh portfolio of $10,000. *)
Lemma paperBuy_twice_witness :
  ∃ p, Paper.portfolio scenario_start = Some p
       ∧ Paper.positions p !! "BTCUSDT" = None
       ∧ Paper.balance p = Fin 10000
       ∧ (1000 <= 10000)%Q
       ∧ scenario_second_buy = (None, scenario_first_buy.2).
Proof.
  eexists. split; [reflexivity|]. split; [reflexivity|].
  split; [reflexivity|]. split; [by compute|].
  destruct (paperBuy_twice scenario_start _ "BTCUSDT" 10000
              "Manual buy" "Manual buy" (Fin 80) (Fin 80) 1 2
              eq_refl eq_refl eq_refl ltac:(by compute))
    as (trade & p1 & opened & merged & _ & _ & _ & _ & _ & Hsecond & _).
  exact Hsecond.
Defined.

(** The witness of C5 (amended): $1000 of BTC bought at $50,000 and the
    whole position sold at $60,000; the portfolio stored after the sell
    holds finite numbers only and is loaded as it was stored. *)
Lemma trading_keeps_balance_reconciled_witness :
  let w0 := {| Paper.portfolio := None; Paper.saved := None |} in
  let w1 := scenario_first_buy.2 in
  let w2 := (Paper.paperSell w1 "BTCUSDT" None None (Some (Fin 60000)) 2).2 in
  trading scenario_start w2
  ∧ (∃ p b, Paper.portfolio w2 = Some p
            ∧ Paper.balance p = Fin b
            ∧ is_val ((Paper.initialBalance p + Paper.closedTradesPnl p)
                      - Paper.openPositionsCost p)%js b)
  ∧ ∃ data, Paper.saved w2 = Some data
            ∧ storable data
            ∧ (Paper.loadPaperPortfolio w2).1 = Some data.
Proof.
  intros w0 w1 w2.
  assert (Htrading : trading scenario_start w2).
  { eapply (trading_sell _ w1 w2 "BTCUSDT" None 60000 None 2).
    - eapply (trading_buy _ scenario_start w1 "BTCUSDT" 1000 50000
                          "Manual buy" (Fin 80) 1).
      + apply trading_start.
      + by compute.
      + reflexivity.
    - intros p position Hp Hpos.
      vm_compute in Hp. injection Hp as <-.
      vm_compute in Hpos. injection Hpos as <-.
      left. by compute.
    - reflexivity. }
  split; [exact Htrading|].
  destruct (trading_keeps_balance_reconciled 10000 0 w0 w2) as [Hrec Hload].
  split; [exact (Hrec Htrading)|]. clear Hrec Htrading.
  destruct (Paper.saved w2) as [data|] eqn:Hsaved;
    [|vm_compute in Hsaved; discriminate Hsaved].
  exists data. split; [reflexivity|].
  specialize (Hload data eq_refl).
  vm_compute in Hsaved. injection Hsaved as <-.
  assert (Hstorable : storable
    {| Paper.balance := Fin 10200; Paper.initialBalance := Fin 10000;
       Paper.positions := ∅;
       Paper.trades :=
         [{| Paper.id := "1"; Paper.symbol := "BTCUSDT";
             Paper.type := Paper.type_buy; Paper.quantity := Fin (1 # 50);
             Paper.entryPrice := Fin 50000; Paper.exitPrice := None;
             Paper.entryTime := 1; Paper.exitTime := None;
             Paper.pnl := None; Paper.pnlPercent := None;
             Paper.status := Paper.status_open; Paper.reason := "Manual buy";
             Paper.confidence := Fin 80; Paper.stopLoss := None;
             Paper.takeProfit := None |};
          {| Paper.id := "2"; Paper.symbol := "BTCUSDT";
             Paper.type := Paper.type_sell; Paper.quantity := Fin (1 # 50);
             Paper.entryPrice := Fin 50000;
             Paper.exitPrice := Some (Fin 60000);
             Paper.entryTime := 2; Paper.exitTime := Some 2%Z;
             Paper.pnl := Some (Fin 200); Paper.pnlPercent := Some (Fin 20);
             Paper.status := Paper.status_closed;
             Paper.reason := "Manual sell";
             Paper.confidence := Fin 0; Paper.stopLoss := None;
             Paper.takeProfit := None |}];
       Paper.startTime := 0; Paper.lastUpdate := 2 |}).
  { split; [exact I|]. split; [exact I|].
    split; [apply map_Forall_empty|].
    repeat (apply Forall_cons_2; [by compute|]). apply Forall_nil_2. }
  split; [exact Hstorable|].
  apply (proj2 (Hload Hstorable)). vm_compute. reflexivity.
Defined.

(** ** The risk-level calculator *)

Section RiskFacts.
Import Indicators Risk.
Local Open Scope Q_scope.

Lemma classifyVolatility_fin (x : Q) :
  classifyVolatility (Fin x)
  = if Qltb x 2 then vol_low else if Qltb x 5 then vol_medium else vol_high.
Proof. reflexivity. Qed.

(** At the two boundaries: 2% is medium and 5% is high. *)
Lemma classifyVolatility_boundaries :
  classifyVolatility 2 = vol_medium ∧ classifyVolatility 5 = vol_high.
Proof. by split. Qed.

(** *** C7 *)

(** C7 (amended). With the ATR at [x] percent of the 14-bar average
    close, the volatility is low when [x < 2], medium when
    [2 <= x < 5] and high when [5 <= x].  High volatility scales the
    stop-loss multiplier by 0.8 and the take-profit multiplier by 1.2;
    low volatility scales the stop-loss multiplier by 1.2 and the
    take-profit multiplier by 0.9; medium volatility leaves both as they
    are.  The levels [calculateDynamicRiskLevels] returns are the entry
    price minus or plus the ATR times these adjusted multipliers. *)
Theorem volatility_scaling :
  (∀ x : Q, classifyVolatility (Fin x) = vol_low ↔ x < 2)
  ∧ (∀ x : Q, classifyVolatility (Fin x) = vol_medium ↔ 2 <= x ∧ x < 5)
  ∧ (∀ x : Q, classifyVolatility (Fin x) = vol_high ↔ 5 <= x)
  ∧ (∀ sl tp : Q,
       is_val (adjustMultipliers vol_high (Fin sl) (Fin tp)).1 (sl * 0.8)
       ∧ is_val (adjustMultipliers vol_high (Fin sl) (Fin tp)).2 (tp * 1.2))
  ∧ (∀ sl tp : Q,
       is_val (adjustMultipliers vol_low (Fin sl) (Fin tp)).1 (sl * 1.2)
       ∧ is_val (adjustMultipliers vol_low (Fin sl) (Fin tp)).2 (tp * 0.9))
  ∧ (∀ sl tp : num, adjustMultipliers vol_medium sl tp = (sl, tp))
  ∧ (∀ candles entry direction sl tp r,
       calculateDynamicRiskLevels candles entry direction sl tp = Ok r →
       currentATR_of candles entry = Ok (atrValue r)
       ∧ volatilityLevel r
         = classifyVolatility (atrPercent_of candles (atrValue r))
       ∧ let m := adjustMultipliers (volatilityLevel r) sl tp in
         match direction with
         | long =>
             stopLoss r = (entry - (atrValue r * m.1))%js
             ∧ takeProfit2 r = (entry + (atrValue r * m.2))%js
         | short =>
             stopLoss r = (entry + (atrValue r * m.1))%js
             ∧ takeProfit2 r = (entry - (atrValue r * m.2))%js
         end).
Proof.
  split; [|split; [|split]].
  - intros x. rewrite classifyVolatility_fin.
    destruct (Qltb x 2) eqn:E2; [apply Qltb_iff in E2 | apply Qltb_false_iff in E2].
    + by split.
    + destruct (Qltb x 5); split; try done; intros; lra.
  - intros x. rewrite classifyVolatility_fin.
    destruct (Qltb x 2) eqn:E2;
      [apply Qltb_iff in E2 | apply Qltb_false_iff in E2];
      (destruct (Qltb x 5) eqn:E5;
        [apply Qltb_iff in E5 | apply Qltb_false_iff in E5]);
      split; try done; intros; lra.
  - intros x. rewrite classifyVolatility_fin.
    destruct (Qltb x 2) eqn:E2;
      [apply Qltb_iff in E2 | apply Qltb_false_iff in E2];
      (destruct (Qltb x 5) eqn:E5;
        [apply Qltb_iff in E5 | apply Qltb_false_iff in E5]);
      split; try done; intros; lra.
  - split; [|split; [|split]].
    + intros sl tp. simpl. rewrite !Qred_correct. by split.
    + intros sl tp. simpl. rewrite !Qred_correct. by split.
    + done.
    + intros candles entry direction sl tp r. unfold calculateDynamicRiskLevels.
      destruct (currentATR_of candles entry) as [atr|e]; [|done].
      rewrite bind_Ok.
      destruct (adjustMultipliers _ sl tp) as [adjSL adjTP] eqn:Eadj.
      destruct direction; intros [= <-]; cbn [atrValue volatilityLevel
        stopLoss takeProfit2]; rewrite Eadj; done.
Qed.

(** C7 as stated fails: under low volatility the take-profit multiplier
    is scaled by 0.9, so the second target is 100 + 1 * (3 * 0.9) =
    102.7 and not 100 + 1 * (3 * 0.8). *)
Lemma volatility_scaling_counterexample :
  ∃ r, calculateDynamicRiskLevels quiet_candles 100 long 2 3 = Ok r
       ∧ atrValue r = Fin 1
       ∧ volatilityLevel r = vol_low
       ∧ takeProfit2 r = Fin 102.7
       ∧ ¬ is_val (takeProfit2 r) (100 + 1 * (3 * 0.8)).
Proof.
  eexists. split; [by vm_compute|].
  cbn [atrValue volatilityLevel takeProfit2].
  split; [done|]. split; [done|]. split; [done|]. by compute.
Qed.

(** *** The ATR-based levels are ordered *)

Lemma nmax_nonneg (a : Q) (b : num) : nonneg b → nonneg (nmax (Fin a) b).
Proof.
  destruct b as [b| | |]; try done. simpl. intros Hb.
  destruct (Qltb a b) eqn:E; [done|].
  apply Qltb_false_iff in E. simpl. lra.
Qed.

Lemma true_range_nonneg (h l pc : Q) :
  nonneg (max_list [Fin h - Fin l; nabs (Fin h - Fin pc);
                    nabs (Fin l - Fin pc)]%js).
Proof.
  unfold max_list. cbn [foldr nsub nabs].
  apply nmax_nonneg, nmax_nonneg.
  cbn [nmax nlt]. simpl. rewrite Qred_correct. apply Qabs_nonneg.
Qed.

Lemma Forall_slice {A} (P : A → Prop) (l : list A) b e :
  Forall P l → Forall P (slice l b e).
Proof. intros Hl. unfold slice. by apply Forall_take, Forall_drop. Qed.

Lemma rd_nonneg (xs : list num) i :
  Forall nonneg xs → (0 ≤ i < len xs)%Z → nonneg (rd xs i).
Proof.
  intros Hxs Hi. unfold rd. destruct (idx_inside xs i Hi) as [x Hx].
  rewrite Hx. simpl. rewrite Forall_forall in Hxs. apply Hxs.
  unfold idx in Hx. destruct (i <? 0)%Z; [done|].
  by apply list_elem_of_lookup_2 in Hx.
Qed.

Ltac cget_ok candles i c Hc :=
  destruct (cget_inside candles i) as (c & -> & Hc);
  [unfold len in *; lia | rewrite ?bind_Ok].

(** On well-formed candles every defined ATR value is finite and
    non-negative. *)
Lemma calculateATR_nonneg (candles : list Candle) (period : nat) :
  (1 ≤ period)%nat → Forall well_formed candles →
  ∃ atr, calculateATR candles period = Ok atr
         ∧ ∀ i v, idx atr i = Some (Some v) → nonneg v.
Proof.
  intros Hp Hwf. unfold calculateATR.
  destruct (len candles <=? Z.of_nat period)%Z eqn:Hlen.
  { eexists. split; [done|]. intros i v Hv. exfalso.
    unfold idx in Hv. destruct (i <? 0)%Z; [done|].
    apply lookup_replicate in Hv as [[=] _]. }
  cget_ok candles 0%Z c0 Hc0.
  match goal with |- context [for_loop_r ?lo ?hi ?body ?s] =>
    destruct (for_loop_r_ind
      (λ i tr, Forall nonneg tr ∧ len tr = i) lo hi body s)
      as (tr & -> & Htr & Hlentr)
  end.
  - lia.
  - split; [|done]. constructor; [|done]. simpl. rewrite Qred_correct.
    rewrite Forall_forall in Hwf.
    assert (well_formed c0) as Hc.
    { apply Hwf. unfold idx in Hc0. simpl in Hc0.
      by apply list_elem_of_lookup_2 in Hc0. }
    unfold well_formed in Hc. lra.
  - intros i tr Hi [Htr Hl].
    cget_ok candles i ci Hci. cget_ok candles (i - 1)%Z cp Hcp.
    eexists. split; [done|]. split.
    + apply Forall_app. split; [done|]. constructor; [|done].
      apply true_range_nonneg.
    + unfold len in *. rewrite length_app. simpl. lia.
  - rewrite bind_Ok. eexists. split; [done|].
    match goal with |- context [for_loop ?lo ?hi ?body ?s] =>
      pose proof (for_loop_ind
        (λ _ st, nonneg st.1
                 ∧ ∀ i v, idx st.2 i = Some (Some v) → nonneg v)
        lo hi body s) as Hloop
    end.
    apply Hloop; clear Hloop.
    + lia.
    + assert (Hatr : nonneg (sum_list (slice tr 0 (Z.of_nat period))
                             / znum (Z.of_nat period))%js).
      { apply div_period_nonneg; [done|].
        apply sum_list_nonneg. by apply Forall_slice. }
      split; [done|]. cbn [snd]. intros i v Hv.
      destruct (decide (i = (Z.of_nat period - 1)%Z)) as [->|Hne].
      * rewrite idx_aset_eq in Hv.
        -- by injection Hv as <-.
        -- unfold len. rewrite length_replicate. unfold len in *. lia.
      * rewrite idx_aset_ne in Hv by done. exfalso.
        unfold idx in Hv. destruct (i <? 0)%Z; [done|].
        apply lookup_replicate in Hv as [[=] _].
    + intros i [atr atrValues] Hi [Hatr Hvals]. cbn [fst snd] in *.
      assert (Hnew : nonneg (((atr * (znum (Z.of_nat period) - 1))
                              + rd tr i) / znum (Z.of_nat period))%js).
      { apply div_period_nonneg; [done|]. apply nadd_nonneg.
        - destruct atr as [q| | |]; try done. simpl in *.
          rewrite !Qred_correct.
          assert (1 <= inject_Z (Z.of_nat period)).
          { replace 1 with (inject_Z 1) by done. rewrite <- Zle_Qle. lia. }
          apply Qmult_le_0_compat; lra.
        - apply rd_nonneg; [done | lia]. }
      split; [done|]. intros k v Hv.
      destruct (decide (k = i)) as [->|Hne].
      * destruct (decide (0 ≤ i < len atrValues)%Z) as [Hin|Hout].
        -- rewrite idx_aset_eq in Hv by done. by injection Hv as <-.
        -- rewrite idx_outside in Hv; [done|]. rewrite len_aset. lia.
      * rewrite idx_aset_ne in Hv by done. by eapply Hvals.
Qed.

Lemma currentATR_positive (candles : list Candle) (entry : Q) :
  Forall well_formed candles → 0 < entry →
  ∃ a, currentATR_of candles (Fin entry) = Ok (Fin a) ∧ 0 < a.
Proof.
  intros Hwf Hentry. unfold currentATR_of.
  destruct (calculateATR_nonneg candles 14 ltac:(lia) Hwf) as (atr & -> & Hatr).
  rewrite bind_Ok.
  assert (Hfallback : ∃ a, (Fin entry * 0.02)%js = Fin a ∧ 0 < a).
  { eexists. split; [reflexivity|]. rewrite Qred_correct. lra. }
  destruct (idx atr (len atr - 1)) as [[v|]|] eqn:Hv; cbn [or_else];
    [|by destruct Hfallback as (a & -> & Ha); eauto ..].
  specialize (Hatr _ _ Hv). destruct v as [q| | |]; try done.
  simpl in *. destruct (Qeq_bool q 0) eqn:Eq; simpl.
  - destruct Hfallback as (a & Ha & Hpos). simpl in Ha. rewrite Ha. eauto.
  - apply Qeq_bool_false_iff in Eq. exists q. split; [done|].
    apply Qle_lteq in Hatr as [?|Heq]; [done|]. by symmetry in Heq.
Qed.


(** *** C4 *)

(** C4 (the code departs from it). For a long position entered at 100
    on [swing_candles], [getSmartRiskLevels] takes the resistance 100.2,
    which lies above the entry price, and sets the second target 0.5%
    below it, at 99.699: below the entry price and below the first
    target. *)
Theorem getSmartRiskLevels_long_order_broken :
  ∃ r, getSmartRiskLevels swing_candles 100 long = Ok r
       ∧ nearestResistance (supportResistance r) = Fin 100.2
       ∧ entryPrice (levels r) = Fin 100
       ∧ is_val (takeProfit1 (levels r)) 118.18
       ∧ is_val (takeProfit2 (levels r)) 99.699
       ∧ (takeProfit2 (levels r) <? entryPrice (levels r))%js = true
       ∧ (takeProfit1 (levels r) <? takeProfit2 (levels r))%js = false.
Proof.
  eexists. split; [vm_compute; reflexivity|].
  cbn [levels supportResistance nearestResistance entryPrice takeProfit1
       takeProfit2].
  repeat split; done.
Qed.

End RiskFacts.

Local Open Scope Q_scope.

(** The witness of C7 (amended): the quiet candles. *)
Lemma volatility_scaling_witness :
  ∃ r, Risk.calculateDynamicRiskLevels quiet_candles 100 Risk.long 2 3 = Ok r
       ∧ Risk.volatilityLevel r
         = Risk.classifyVolatility
             (Risk.atrPercent_of quiet_candles (Risk.atrValue r))
       ∧ Risk.takeProfit2 r
         = (Fin 100 + (Risk.atrValue r
                       * (Risk.adjustMultipliers (Risk.volatilityLevel r)
                                                 2 3).2))%js.
Proof.
  destruct (Risk.calculateDynamicRiskLevels quiet_candles 100 Risk.long 2 3)
    as [r|e] eqn:Hr; [|by vm_compute in Hr].
  exists r. split; [reflexivity|].
  destruct volatility_scaling as (_ & _ & _ & _ & _ & _ & Hlevels).
  destruct (Hlevels quiet_candles (Fin 100) Risk.long (Fin 2) (Fin 3) r Hr)
    as (_ & Hvol & _ & Htp).
  split; [exact Hvol | exact Htp].
Defined.

(** ** Bollinger bands and the Aether vote *)

Section AetherFacts.
Import Indicators Council.
Context `{Runtime}.
Local Open Scope Q_scope.

(** A loop that only fills its array: index [k] of the result holds the
    value computed for [k]. *)
Lemma for_loop_fill {A} (f : Z → A) lo hi (arr : list A) k :
  (0 ≤ lo)%Z → (hi ≤ len arr)%Z → (lo ≤ k < hi)%Z →
  idx (for_loop lo hi (λ i a, aset a i (f i)) arr) k = Some (f k).
Proof.
  intros Hlo Hhi Hk.
  apply (for_loop_ind
    (λ j a, len a = len arr ∧ ∀ k, (lo ≤ k < j)%Z → idx a k = Some (f k))).
  - lia.
  - split; [done | intros; lia].
  - intros i a Hi [Hlen Hfilled]. split; [by rewrite len_aset|].
    intros k' Hk'. destruct (decide (k' = i)) as [->|Hne].
    + apply idx_aset_eq. lia.
    + rewrite idx_aset_ne by done. apply Hfilled. lia.
  - done.
Qed.

(** A loop over a pair of arrays that it updates independently. *)
Lemma for_loop_pair {A B} (fa : Z → A → A) (fb : Z → B → B) lo hi a b :
  for_loop lo hi (λ i '(x, y), (fa i x, fb i y)) (a, b)
  = (for_loop lo hi fa a, for_loop lo hi fb b).
Proof.
  unfold for_loop. generalize (seq 0 (Z.to_nat (hi - lo))). intros l.
  revert a b. induction l as [|n l IH]; intros a b; [done|]. simpl. apply IH.
Qed.

Lemma calculateSMA_at (values : list num) (period : nat) k :
  (1 ≤ period)%nat → (Z.of_nat period - 1 ≤ k < len values)%Z →
  idx (calculateSMA values period) k
  = Some (Some (sum_list (slice values (k - Z.of_nat period + 1) (k + 1))
                / znum (Z.of_nat period))%js).
Proof.
  intros Hp Hk. unfold calculateSMA.
  destruct (len values <? Z.of_nat period)%Z eqn:E;
    [apply Z.ltb_lt in E; lia|].
  apply (for_loop_fill
    (λ i, Some (sum_list (slice values (i - Z.of_nat period + 1) (i + 1))
                / znum (Z.of_nat period))%js)).
  - lia.
  - unfold len. rewrite length_replicate. lia.
  - lia.
Qed.

Lemma calculateBollingerBands_at (values : list num) (period : nat)
    (m : num) k :
  (1 ≤ period)%nat → (Z.of_nat period - 1 ≤ k < len values)%Z →
  idx (upper (calculateBollingerBands values period m)) k
  = Some (Some (band_at values period m true k))
  ∧ idx (lower (calculateBollingerBands values period m)) k
    = Some (Some (band_at values period m false k))
  ∧ middle (calculateBollingerBands values period m)
    = calculateSMA values period.
Proof.
  intros Hp Hk. unfold calculateBollingerBands.
  pose proof (for_loop_pair
    (λ i a, aset a i (Some (band_at values period m true i)))
    (λ i a, aset a i (Some (band_at values period m false i)))
    (Z.of_nat period - 1) (len values)
    (replicate (length values) None) (replicate (length values) None))
    as Hpair.
  unfold band_at in Hpair. cbv zeta in Hpair |- *.
  rewrite Hpair. cbn [upper lower middle].
  split; [|split; [|done]].
  - apply (for_loop_fill (λ i, Some (band_at values period m true i)));
      [lia | unfold len; rewrite length_replicate; lia | lia].
  - apply (for_loop_fill (λ i, Some (band_at values period m false i)));
      [lia | unfold len; rewrite length_replicate; lia | lia].
Qed.

Lemma slice_app_tail {A} (l1 l2 : list A) :
  slice (l1 ++ l2) (len l1) (len l1 + len l2) = l2.
Proof.
  unfold slice, len. rewrite length_app.
  destruct (Z.of_nat (length l1) <? 0)%Z eqn:E1; [exfalso; lia|].
  destruct (Z.of_nat (length l1) + Z.of_nat (length l2) <? 0)%Z eqn:E2;
    [exfalso; lia|].
  replace (Z.to_nat (Z.of_nat (length l1)
             `min` Z.of_nat (length l1 + length l2))) with (length l1) by lia.
  rewrite drop_app_length. apply take_ge. lia.
Qed.

Lemma closes_flat_tail (tail : list Candle) (c : Q) :
  Forall (λ x, close x = c) tail →
  map (λ x, Fin (close x)) tail = replicate (length tail) (Fin c).
Proof.
  induction 1 as [|x l Hx _ IH]; [done|]. simpl. by rewrite Hx, IH.
Qed.

(** The sum of squared deviations of values that equal their mean. *)
Lemma deviations_zero (xs : list num) (mean acc : num) :
  is_zero acc → Forall (λ x, is_zero (x - mean)%js) xs →
  is_zero (fold_left (λ sum val, sum + ((val - mean) * (val - mean)))%js
                     xs acc).
Proof.
  revert acc. induction xs as [|x xs IH]; intros acc Hacc Hxs; [done|].
  inversion Hxs as [|? ? Hx Hrest]; subst. simpl. apply IH; [|done].
  destruct (x - mean)%js as [d| | |]; try done.
  destruct acc as [a| | |]; try done. simpl in *.
  rewrite !Qred_correct, Hacc, Hx. ring.
Qed.

Lemma is_zero_exact (a : num) (z : Z) :
  (z ≠ 0)%Z → is_zero a → (a / znum z)%js = Fin 0.
Proof.
  intros Hz Ha. destruct a as [q| | |]; try done. simpl in *.
  rewrite znum_nonzero by done. f_equal. apply Qred_zero.
  rewrite Ha. unfold Qdiv. ring.
Qed.

Lemma Math_sqrt_zero : sqrtQ 0 == 0 → Math_sqrt (Fin 0) = Fin 0.
Proof. intros Hs. simpl. f_equal. by apply Qred_zero. Qed.

Lemma or_else_val (v : num) (c : Q) :
  is_val v c → ∃ x, or_else (Some (Some v)) (Fin 0) = Fin x ∧ x == c.
Proof.
  destruct v as [q| | |]; try done. simpl. intros Hq.
  destruct (Qeq_bool q 0) eqn:E; simpl; eexists; (split; [reflexivity|]).
  - apply Qeq_bool_iff in E. by rewrite <- Hq, E.
  - done.
Qed.

Lemma ndiv_zero_zero (a b : num) : is_zero a → is_zero b → (a / b)%js = NaN.
Proof.
  destruct a as [x| | |], b as [y| | |]; try done. simpl. intros Hx Hy.
  apply Qeq_bool_iff in Hy. rewrite Hy.
  by rewrite (proj1 (Qeq_alt x 0) Hx).
Qed.

(** The mean of twenty equal closes, and the bands around it. *)
Lemma flat_window_mean (c : Q) :
  is_val (sum_list (replicate 20 (Fin c)) / znum 20)%js c.
Proof.
  simpl. rewrite !Qred_correct. field.
Qed.

Lemma flat_window_band (c : Q) (mean : num) (up : bool) :
  sqrtQ 0 == 0 → is_val mean c →
  let variance :=
    (fold_left (λ sum val, sum + ((val - mean) * (val - mean)))
               (replicate 20 (Fin c)) (Fin 0) / znum 20)%js in
  let stdDev := Math_sqrt variance in
  is_val (if up then mean + (stdDev * 2) else mean - (stdDev * 2))%js c.
Proof.
  intros Hs Hmean. cbv zeta.
  assert (Hvar : (fold_left (λ sum val, sum + ((val - mean) * (val - mean)))
                    (replicate 20 (Fin c)) (Fin 0) / znum 20)%js = Fin 0).
  { apply is_zero_exact; [done|].
    apply deviations_zero; [by compute|].
    apply Forall_forall. intros x Hx.
    apply elem_of_replicate in Hx as [-> _].
    destruct mean as [m| | |]; try done.
    cbn [nsub is_zero is_val] in *. rewrite Qred_correct, Hmean. ring. }
  rewrite Hvar, Math_sqrt_zero by done.
  destruct mean as [m| | |]; try done. cbn [is_val] in Hmean.
  destruct up; cbn [nadd nsub nmul is_val]; rewrite !Qred_correct, Hmean; ring.
Qed.

(** The inputs of the Aether score on a series whose last twenty closes
    all equal [c]: the upper band, the lower band and the middle all
    read as [c] (or as 0, when [c] is 0). *)
Lemma aether_inputs_flat_tail (pre tail : list Candle) (c : Q) :
  sqrtQ 0 == 0 →
  length tail = 20%nat →
  Forall (λ x, close x = c) tail →
  ∃ u l mid,
    aether_inputs (pre ++ tail) = (Fin u, Fin l, Fin mid, Fin c)
    ∧ u == c ∧ l == c ∧ mid == c.
Proof.
  intros Hs Hlen Hflat. unfold aether_inputs.
  set (closes := map (λ x, Fin (close x)) (pre ++ tail)).
  assert (Hcloses : closes = map (λ x, Fin (close x)) pre
                             ++ replicate 20 (Fin c)).
  { subst closes. by rewrite map_app, (closes_flat_tail tail c), Hlen. }
  assert (Hl : len closes = (len (map (λ x, Fin (close x)) pre) + 20)%Z).
  { rewrite Hcloses. unfold len. rewrite length_app, length_replicate. lia. }
  set (pre' := map (λ x, Fin (close x)) pre) in *.
  assert (Hpre : (0 ≤ len pre')%Z) by (unfold len; lia).
  assert (Hwindow : slice closes (len closes - 1 - Z.of_nat 20 + 1)
                          (len closes - 1 + 1) = replicate 20 (Fin c)).
  { rewrite Hl, Hcloses.
    replace (len pre' + 20 - 1 - Z.of_nat 20 + 1)%Z with (len pre') by lia.
    replace (len pre' + 20 - 1 + 1)%Z
      with (len pre' + len (replicate 20 (Fin c)))%Z
      by (unfold len; rewrite length_replicate; lia).
    apply slice_app_tail. }
  destruct (calculateBollingerBands_at closes 20 (Fin 2) (len closes - 1))
    as (Hup & Hlow & Hmid); [lia | lia |].
  pose proof (calculateSMA_at closes 20 (len closes - 1) ltac:(lia)
                ltac:(lia)) as Hsma.
  rewrite Hwindow in Hsma.
  rewrite Hup, Hlow, Hmid, Hsma. unfold band_at.
  rewrite Hwindow, Hsma. cbn [to_num].
  pose proof (flat_window_mean c) as Hmean.
  change (znum (Z.of_nat 20)) with (znum 20) in *.
  destruct (or_else_val _ c (flat_window_band c _ true Hs Hmean))
    as (u & -> & Hu).
  destruct (or_else_val _ c (flat_window_band c _ false Hs Hmean))
    as (l & -> & Hl').
  destruct (or_else_val _ c Hmean) as (mid & -> & Hm).
  exists u, l, mid. split; [|done].
  f_equal. unfold rd. rewrite Hcloses.
  replace (len (pre' ++ replicate 20 (Fin c)) - 1)%Z
    with (len pre' + 19)%Z
    by (unfold len; rewrite length_app, length_replicate; lia).
  unfold idx. destruct (len pre' + 19 <? 0)%Z eqn:E; [lia|].
  rewrite lookup_app_r by (unfold len; lia).
  replace (Z.to_nat (len pre' + 19) - length pre')%nat with 19%nat
    by (unfold len; lia).
  done.
Qed.

Lemma council_votes_shape (candles : list Candle) :
  ∃ orion hermes,
    council_votes candles
    = Ok ([orion; getAtlasVote candles; getAetherVote candles; hermes;
           getChronosVote candles; getPoseidonVote candles]
          ++ [getArgusVote [orion; getAtlasVote candles;
                            getAetherVote candles; hermes;
                            getChronosVote candles;
                            getPoseidonVote candles]]).
Proof.
  unfold council_votes, getOrionVote, getHermesVote.
  destruct (calculateADX_ok candles 14) as [adx ->].
  destruct (calculateStochastic_ok candles 14 3) as [st ->]; [lia|].
  rewrite !bind_Ok. eexists _, _. reflexivity.
Qed.

Lemma sum_scores_nan_from (vs : list ModuleVote) :
  fold_left (λ a b, a + score b)%js vs NaN = NaN.
Proof. induction vs as [|v vs IH]; [done|]. simpl. exact IH. Qed.

Lemma sum_scores_nan (vs : list ModuleVote) (acc : num) (v : ModuleVote) :
  v ∈ vs → score v = NaN →
  fold_left (λ a b, a + score b)%js vs acc = NaN.
Proof.
  intros Hin Hnan. revert acc.
  induction Hin as [v vs | v w vs _ IH]; intros acc; simpl.
  - rewrite Hnan. replace (acc + NaN)%js with NaN by (by destruct acc).
    apply sum_scores_nan_from.
  - apply IH, Hnan.
Qed.

Lemma generateCouncilDecision_votes (candles : list Candle)
    (symbol uuid : string) (now : Z) :
  (50 ≤ len candles)%Z →
  ∃ d vs, generateCouncilDecision candles symbol uuid now = Ok d
          ∧ council_votes candles = Ok vs
          ∧ votes d = vs
          ∧ overallScore d
            = (fold_left (λ a b, a + score b) vs (Fin 0)
               / nnum (length vs))%js.
Proof.
  intros Hlen. unfold generateCouncilDecision.
  destruct (len candles <? 50)%Z eqn:E; [lia|].
  destruct (council_votes_ok candles) as (vs & -> & _). rewrite bind_Ok.
  destruct (_ <? 24)%js; [by eexists _, _|].
  destruct (_ >? 78)%js; [by eexists _, _|].
  destruct (4 <=? count_direction buy vs)%nat; [by eexists _, _|].
  destruct (4 <=? count_direction sell vs)%nat; by eexists _, _.
Qed.

(** *** C10 *)

(** C10. On every candle sequence the Aether score is
    [((mid - p) / (u - mid)) * 80], clamped to [-100, 100], with [u] and
    [mid] the last values of the upper and the middle Bollinger band
    (0 when there is none) and [p] the last close.  On a series of 50
    candles or more whose last 20 closes all equal the same integer, of
    at most 2^48 in absolute value so that the sums of the code's
    doubles are exact, the standard deviation of the band is 0, the
    divisor [u - mid] is 0, the quotient is 0/0 = [NaN], and the vote
    reaches [generateCouncilDecision] with the score [NaN], which makes
    the overall score of the decision [NaN]. *)
Theorem aether_division_unguarded (symbol uuid : string) (now : Z) :
  sqrtQ 0 == 0 →
  (∀ candles,
     let closes := map (λ c, Fin (close c)) candles in
     let last := (len closes - 1)%Z in
     let bb := calculateBollingerBands closes 20 2 in
     let u := or_else (idx (upper bb) last) 0 in
     let mid := or_else (idx (middle bb) last) 0 in
     let p := rd closes last in
     score (getAetherVote candles)
     = nmax (- (100)) (nmin 100 (((mid - p) / (u - mid)) * 80))%js)
  ∧ (∀ (pre tail : list Candle) (z : Z),
       (Z.abs z ≤ 2 ^ 48)%Z →
       (50 ≤ len (pre ++ tail))%Z →
       length tail = 20%nat →
       Forall (λ x, close x = inject_Z z) tail →
       let candles := pre ++ tail in
       ∃ u l mid p d,
         aether_inputs candles = (u, l, mid, p)
         ∧ is_zero (u - mid)%js
         ∧ ((mid - p) / (u - mid))%js = NaN
         ∧ score (getAetherVote candles) = NaN
         ∧ generateCouncilDecision candles symbol uuid now = Ok d
         ∧ votes d !! 2%nat = Some (getAetherVote candles)
         ∧ overallScore d = NaN).
Proof.
  intros Hs. split.
  { intros candles. unfold getAetherVote, aether_inputs. reflexivity. }
  intros pre tail z _ Hlen Htail Hflat candles.
  destruct (aether_inputs_flat_tail pre tail (inject_Z z) Hs Htail Hflat)
    as (u & l & mid & Hin & Hu & Hl & Hm).
  fold candles in Hin.
  assert (Hdiv : is_zero (Fin u - Fin mid)%js).
  { cbn [nsub is_zero]. rewrite Qred_correct, Hu, Hm. ring. }
  assert (Hnum : is_zero (Fin mid - Fin (inject_Z z))%js).
  { cbn [nsub is_zero]. rewrite Qred_correct, Hm. ring. }
  assert (Hq : ((Fin mid - Fin (inject_Z z)) / (Fin u - Fin mid))%js = NaN)
    by (by apply ndiv_zero_zero).
  assert (Hscore : score (getAetherVote candles) = NaN).
  { unfold getAetherVote. rewrite Hin. cbn [score]. by rewrite Hq. }
  destruct (generateCouncilDecision_votes candles symbol uuid now Hlen)
    as (d & vs & Hd & Hvs & Hvotes & Havg).
  destruct (council_votes_shape candles) as (orion & hermes & Hshape).
  rewrite Hshape in Hvs. injection Hvs as <-.
  exists (Fin u), (Fin l), (Fin mid), (Fin (inject_Z z)), d.
  split; [done|].
  split; [done|]. split; [done|]. split; [done|]. split; [done|]. split.
  { by rewrite Hvotes. }
  rewrite Havg, (sum_scores_nan _ _ (getAetherVote candles)); [done| |done].
  do 2 apply list_elem_of_further. apply list_elem_of_here.
Qed.

End AetherFacts.

(** The witness of C10: fifty candles that all close at 100, where the
    score is [NaN], and fifty candles that close at 99 and at 101 in
    turn, where the bands are 98 and 102 around 100 and the score of the
    last close 101 is -40. *)
Lemma aether_division_unguarded_witness :
  let candle c := {| date := 0; open := 100; high := 101; low := 99;
                     close := c; volume := 10 |} in
  let flat := replicate 30 (candle 100) ++ replicate 20 (candle 100) in
  let zigzag := concat (replicate 25 [candle 99; candle 101]) in
  @sqrtQ example_runtime 0 == 0
  ∧ (50 ≤ len flat)%Z
  ∧ (∃ d, @Council.generateCouncilDecision example_runtime flat
            "BTCUSDT" "0000" 0 = Ok d
          ∧ Council.score (@Council.getAetherVote example_runtime flat) = NaN
          ∧ Council.overallScore d = NaN)
  ∧ Council.score (@Council.getAetherVote example_runtime zigzag)
    = Fin (-40).
Proof.
  intros candle flat zigzag.
  assert (Hs : @sqrtQ example_runtime 0 == 0) by (by compute).
  assert (Hlen : (50 ≤ len flat)%Z) by (by compute).
  split; [exact Hs|]. split; [exact Hlen|].
  destruct (@aether_division_unguarded example_runtime "BTCUSDT" "0000" 0 Hs)
    as [Hformula Hflat].
  split.
  - destruct (Hflat (replicate 30 (candle 100)) (replicate 20 (candle 100))
                100%Z ltac:(by compute) Hlen eq_refl)
      as (u & l & mid & p & d & _ & _ & _ & Hscore & Hd & _ & Havg).
    { apply Forall_forall. intros x Hx.
      apply elem_of_replicate in Hx as [-> _]. reflexivity. }
    exists d. split; [exact Hd|]. split; [exact Hscore | exact Havg].
  - rewrite (Hformula zigzag). clear Hformula Hflat. by vm_compute.
Defined.

(* ================================================================= *)
(** * Further properties of the services *)

(** ** The paper portfolio: refusals, round trips, persistence *)

Section PaperOperations.
Import Paper.
Local Open Scope Q_scope.

Lemma nsub_self_within_tolerance (a : num) :
  (nabs (a - a) >? 1)%js = false.
Proof.
  destruct a as [q| | |]; try done. unfold ngt. cbn [nsub nabs].
  apply nlt_fin_false. rewrite !Qred_correct.
  assert (Hz : q - q == 0) by ring. rewrite Hz. done.
Qed.

Lemma pnl_or_0_not_nan (t : PaperTrade) : pnl_or_0 t ≠ NaN.
Proof.
  unfold pnl_or_0. destruct (pnl t) as [[q| | |]|]; try done.
  simpl. by destruct (negb _).
Qed.

Lemma filters_disjoint {A} (f g : A → bool) (l : list A) :
  (∀ x, f x && g x = false) →
  (length (List.filter f l) + length (List.filter g l) ≤ length l)%nat.
Proof.
  intros Hfg. induction l as [|x l IH]; [done|]. simpl.
  specialize (Hfg x). destruct (f x), (g x); simpl in *; try done; lia.
Qed.

Lemma nlt_asym (a b : num) : (a <? b)%js && (b <? a)%js = false.
Proof.
  destruct a as [x| | |], b as [y| | |]; try done. simpl.
  destruct (Qltb x y) eqn:E1; [|done]. simpl.
  apply Qltb_iff in E1. apply Qltb_false_iff. lra.
Qed.

Lemma max_list_with_zero (xs : list num) :
  Forall (λ x, x ≠ NaN) xs →
  (Fin 0 <=? max_list (xs ++ [Fin 0]))%js = true.
Proof.
  induction 1 as [|x xs Hx _ IH]; [done|].
  unfold max_list in *. simpl.
  destruct (foldr nmax NInf (xs ++ [Fin 0])) as [m| | |] eqn:Em; try done.
  - apply nle_fin in IH.
    destruct x as [q| | |]; try done; simpl; [|by apply nle_fin].
    destruct (Qltb q m) eqn:E; [by apply nle_fin|].
    apply Qltb_false_iff in E. apply nle_fin. lra.
  - by destruct x.
Qed.

Lemma min_list_with_zero (xs : list num) :
  Forall (λ x, x ≠ NaN) xs →
  (min_list (xs ++ [Fin 0]) <=? Fin 0)%js = true.
Proof.
  induction 1 as [|x xs Hx _ IH]; [done|].
  unfold min_list in *. simpl.
  destruct (foldr nmin PInf (xs ++ [Fin 0])) as [m| | |] eqn:Em; try done.
  - apply nle_fin in IH.
    destruct x as [q| | |]; try done; simpl; [|by apply nle_fin].
    destruct (Qltb m q) eqn:E; [by apply nle_fin|].
    apply Qltb_false_iff in E. apply nle_fin. lra.
  - by destruct x.
Qed.

(** [paperBuy] refuses, returning no trade and changing neither the
    portfolio nor the storage, when there is no portfolio, when the
    symbol is already held, when the balance is below the amount, and
    when the ticker cannot be fetched. *)
Theorem paperBuy_refused (w : World) (symbol : string) (amountUSD : num)
    (reason : string) (confidence : num) (ticker : option num) (now : Z) :
  portfolio w = None ∨ ticker = None
  ∨ (∃ p, portfolio w = Some p
          ∧ (is_Some (positions p !! symbol)
             ∨ (balance p <? amountUSD)%js = true)) →
  paperBuy w symbol amountUSD reason confidence ticker now = (None, w).
Proof.
  intros [Hn | [-> | (p & Hp & Hg)]]; unfold paperBuy.
  - by rewrite Hn.
  - destruct (portfolio w); [|done]. by destruct (paperBuy_guard _ _ _).
  - rewrite Hp. unfold paperBuy_guard. destruct Hg as [Hheld | Hbal].
    + by rewrite bool_decide_eq_true_2.
    + destruct (bool_decide _); [done|]. by rewrite Hbal.
Qed.

Lemma paperBuy_refused_witness :
  paperBuy scenario_start "BTCUSDT" 10001 "Manual buy" 80
           (Some (Fin 50000)) 1
  = (None, scenario_start).
Proof.
  apply paperBuy_refused. right; right. eexists.
  split; [vm_compute; reflexivity|]. right. by vm_compute.
Defined.

(** [paperSell] refuses, changing nothing, when there is no portfolio,
    when the symbol is not held, when the quantity asked exceeds the
    quantity held, and when the ticker cannot be fetched. *)
Theorem paperSell_refused (w : World) (symbol : string)
    (quantity : option num) (reason : option string) (ticker : option num)
    (now : Z) :
  portfolio w = None ∨ ticker = None
  ∨ (∃ p, portfolio w = Some p
          ∧ (positions p !! symbol = None
             ∨ ∃ position,
                 positions p !! symbol = Some position
                 ∧ (sellQty_of quantity position >? pos_quantity position)%js
                   = true)) →
  paperSell w symbol quantity reason ticker now = (None, w).
Proof.
  intros [Hn | [-> | (p & Hp & Hg)]]; unfold paperSell.
  - by rewrite Hn.
  - destruct (portfolio w) as [p|]; [|done].
    destruct (positions p !! symbol) as [position|]; [|done].
    by destruct (_ >? _)%js.
  - rewrite Hp. destruct Hg as [-> | (position & -> & Hover)]; [done|].
    cbv zeta. by rewrite Hover.
Qed.

Lemma paperSell_refused_witness :
  paperSell scenario_first_buy.2 "BTCUSDT" (Some (Fin 0.03)) None
            (Some (Fin 60000)) 2
  = (None, scenario_first_buy.2).
Proof.
  apply paperSell_refused. right; right. eexists.
  split; [vm_compute; reflexivity|]. right. eexists.
  split; [vm_compute; reflexivity|]. by vm_compute.
Defined.

(** Buying a symbol that is not held and then selling the whole position
    restores the positions and appends the two trades, both of the
    quantity [a / price] bought.  The balance ends at
    [(b - a) + quantity * exit] and the pnl of the sell trade is
    [quantity * exit - quantity * price], each computed in this order. *)
Theorem buy_then_sell_all (w : World) (p : PaperPortfolio) (symbol : string)
    (b a price exit : Q) (reason1 : string) (confidence : num)
    (reason2 : option string) (now1 now2 : Z) :
  portfolio w = Some p →
  positions p !! symbol = None →
  balance p = Fin b →
  a <= b →
  ¬ price == 0 →
  let bought := paperBuy w symbol (Fin a) reason1 confidence
                         (Some (Fin price)) now1 in
  let sold := paperSell bought.2 symbol None reason2 (Some (Fin exit)) now2 in
  let qty := (Fin a / Fin price)%js in
  ∃ t1 t2 p2,
    bought.1 = Some t1
    ∧ sold.1 = Some t2
    ∧ portfolio sold.2 = Some p2
    ∧ positions p2 = positions p
    ∧ trades p2 = trades p ++ [t1; t2]
    ∧ quantity t1 = qty
    ∧ quantity t2 = qty
    ∧ status t1 = status_open
    ∧ status t2 = status_closed
    ∧ balance p2 = ((Fin b - Fin a) + (qty * Fin exit))%js
    ∧ pnl t2 = Some ((qty * Fin exit) - (qty * Fin price))%js.
Proof.
  intros Hp Hpos Hbal Hab Hprice bought sold qty.
  assert (Hrun : ∃ t1 t2 p2,
    bought.1 = Some t1
    ∧ sold = (Some t2, {| portfolio := Some p2; saved := Some p2 |})
    ∧ positions p2 = positions p
    ∧ trades p2 = trades p ++ [t1; t2]
    ∧ quantity t1 = qty
    ∧ quantity t2 = qty
    ∧ status t1 = status_open
    ∧ status t2 = status_closed
    ∧ balance p2 = ((Fin b - Fin a) + (qty * Fin exit))%js
    ∧ pnl t2 = Some ((qty * Fin exit) - (qty * Fin price))%js).
  { subst sold bought qty.
    unfold paperBuy, paperBuy_guard. rewrite Hp, Hpos.
    rewrite bool_decide_eq_false_2 by (by intros [? ?]).
    rewrite Hbal. replace (Fin b <? Fin a)%js with false
      by (symmetry; apply nlt_fin_false; lra).
    unfold paperBuy_commit. rewrite Hpos, Hbal. cbn [fst snd].
    unfold paperSell, savePaperPortfolio. cbn [portfolio positions].
    rewrite lookup_insert_eq. cbn [sellQty_of pos_quantity avgCost].
    cbv zeta. unfold ngt at 1. rewrite nlt_irrefl, nsub_self_no_dust.
    rewrite delete_insert_id by done.
    eexists _, _, _. split; [reflexivity|]. split; [reflexivity|].
    cbn [positions trades balance pnl quantity status].
    split; [done|]. split; [by rewrite <- app_assoc|].
    repeat (split; [reflexivity|]). reflexivity. }
  destruct Hrun as (t1 & t2 & p2 & Ht1 & -> & Hrest).
  exists t1, t2, p2. split; [exact Ht1|]. split; [reflexivity|].
  split; [reflexivity | exact Hrest].
Qed.

Lemma buy_then_sell_all_witness :
  let bought := paperBuy scenario_start "BTCUSDT" 1024 "Manual buy" 80
                         (Some (Fin 2048)) 1 in
  let sold := paperSell bought.2 "BTCUSDT" None None (Some (Fin 2048)) 2 in
  ∃ t2 p2,
    sold.1 = Some t2
    ∧ portfolio sold.2 = Some p2
    ∧ positions p2 = ∅
    ∧ is_val (balance p2) 10000.
Proof.
  intros bought sold.
  destruct (buy_then_sell_all scenario_start
              {| balance := 10000; initialBalance := 10000; positions := ∅;
                 trades := []; startTime := 0; lastUpdate := 0 |}
              "BTCUSDT" 10000 1024 2048 2048 "Manual buy" 80 None 1 2
              eq_refl eq_refl eq_refl ltac:(by compute) ltac:(by compute))
    as (t1 & t2 & p2 & _ & Ht2 & Hp2 & Hpos & _ & _ & _ & _ & _ & Hbal & _).
  exists t2, p2. split; [exact Ht2|]. split; [exact Hp2|].
  split; [exact Hpos|]. rewrite Hbal. by vm_compute.
Defined.

(** A sell of part of a position, when more than the dust threshold
    remains, keeps the average cost and the attached stop-loss and
    take-profit, reduces the quantity by the quantity sold, leaves the
    other positions alone, credits the proceeds and records a closed
    trade with the pnl of the part sold. *)
Theorem paperSell_partial (w : World) (p : PaperPortfolio) (symbol : string)
    (position : Position) (held q cost price : Q) (reason : option string)
    (now : Z) :
  portfolio w = Some p →
  positions p !! symbol = Some position →
  pos_quantity position = Fin held →
  avgCost position = Fin cost →
  ¬ q == 0 →
  0.000001 < held - q →
  ∃ trade p' position',
    paperSell w symbol (Some (Fin q)) reason (Some (Fin price)) now
    = (Some trade, {| portfolio := Some p'; saved := Some p' |})
    ∧ positions p' = <[symbol := position']> (positions p)
    ∧ is_val (pos_quantity position') (held - q)
    ∧ avgCost position' = Fin cost
    ∧ pos_stopLoss position' = pos_stopLoss position
    ∧ pos_takeProfit position' = pos_takeProfit position
    ∧ balance p' = (balance p + (Fin q * Fin price))%js
    ∧ status trade = status_closed
    ∧ quantity trade = Fin q
    ∧ pnl trade = Some ((Fin q * Fin price) - (Fin q * Fin cost))%js.
Proof.
  intros Hp Hpos Hheld Hcost Hq Hrest. unfold paperSell. rewrite Hp, Hpos.
  cbn [sellQty_of truthy]. apply Qeq_bool_false_iff in Hq. rewrite Hq.
  cbn [negb]. cbv zeta. rewrite Hheld, Hcost.
  replace (Fin q >? Fin held)%js with false
    by (symmetry; apply nlt_fin_false; lra).
  replace (Fin held - Fin q >? 0.000001)%js with true
    by (symmetry; apply nlt_fin; rewrite Qred_correct; lra).
  eexists _, _, _. split; [reflexivity|].
  cbn [positions pos_quantity avgCost pos_stopLoss pos_takeProfit balance
       status quantity pnl nsub is_val].
  split; [reflexivity|]. cbn [pos_quantity is_val].
  split; [by rewrite Qred_correct|]. done.
Qed.

Lemma paperSell_partial_witness :
  ∃ trade p' position',
    paperSell scenario_first_buy.2 "BTCUSDT" (Some (Fin 0.005)) None
              (Some (Fin 60000)) 2
    = (Some trade, {| portfolio := Some p'; saved := Some p' |})
    ∧ positions p' !! "BTCUSDT" = Some position'
    ∧ is_val (pos_quantity position') 0.015
    ∧ avgCost position' = Fin 50000.
Proof.
  destruct (scenario_first_buy.2) as [[p|] sv] eqn:Hw; [|by vm_compute in Hw].
  destruct (positions p !! "BTCUSDT") as [position|] eqn:Hpos.
  2: { vm_compute in Hw. injection Hw as <- _. by vm_compute in Hpos. }
  assert (Hq : pos_quantity position = Fin (1 # 50)).
  { vm_compute in Hw. injection Hw as <- _. vm_compute in Hpos.
    by injection Hpos as <-. }
  assert (Hc : avgCost position = Fin 50000).
  { vm_compute in Hw. injection Hw as <- _. vm_compute in Hpos.
    by injection Hpos as <-. }
  destruct (paperSell_partial {| portfolio := Some p; saved := sv |} p
              "BTCUSDT" position (1 # 50) 0.005 50000 60000 None 2
              eq_refl Hpos Hq Hc ltac:(by compute) ltac:(by compute))
    as (trade & p' & position' & Hsell & Hpos' & Hqty & Hcost & _).
  exists trade, p', position'. split; [exact Hsell|].
  split; [rewrite Hpos'; apply lookup_insert_eq|].
  split; [|exact Hcost].
  destruct (pos_quantity position') as [x| | |]; try done.
  simpl in *. rewrite Hqty. by compute.
Defined.

(** Repairing twice is repairing once, and a repair touches nothing but
    the balance: positions, trades and initial balance are kept. *)
Theorem repairPortfolioBalance_idempotent (w : World) :
  repairPortfolioBalance (repairPortfolioBalance w) = repairPortfolioBalance w
  ∧ positions <$> portfolio (repairPortfolioBalance w)
    = positions <$> portfolio w
  ∧ trades <$> portfolio (repairPortfolioBalance w) = trades <$> portfolio w
  ∧ initialBalance <$> portfolio (repairPortfolioBalance w)
    = initialBalance <$> portfolio w.
Proof.
  assert (Hform :
    repairPortfolioBalance w = w
    ∨ ∃ p, portfolio w = Some p
           ∧ repairPortfolioBalance w
             = {| portfolio := Some (set_balance p (expectedBalance p));
                  saved := Some (set_balance p (expectedBalance p)) |}).
  { unfold repairPortfolioBalance.
    destruct (portfolio w) as [p|] eqn:Hp; [|by left].
    destruct (_ >? _)%js; [right; by exists p | by left]. }
  destruct Hform as [Hid | (p & Hp & Hr)]; [by rewrite !Hid|].
  rewrite Hr, Hp. split; [|done].
  unfold repairPortfolioBalance. cbn [portfolio].
  change (expectedBalance (set_balance p (expectedBalance p)))
    with (expectedBalance p).
  cbn [set_balance balance]. by rewrite nsub_self_within_tolerance.
Qed.

(** Without levels [paperBuyWithLevels] is [paperBuy]; with levels it
    refuses in the same cases and otherwise opens the same position,
    with the stop-loss and the take-profit attached to the position and
    to the trade. *)
Theorem paperBuyWithLevels_agrees (w : World) (symbol : string)
    (amountUSD : num) (reason : string) (confidence : num)
    (stopLoss takeProfit ticker : option num) (now : Z) :
  paperBuyWithLevels w symbol amountUSD reason confidence None None ticker now
  = paperBuy w symbol amountUSD reason confidence ticker now
  ∧ ((paperBuyWithLevels w symbol amountUSD reason confidence stopLoss
                         takeProfit ticker now).1 = None
     ↔ (paperBuy w symbol amountUSD reason confidence ticker now).1 = None)
  ∧ ∀ trade w',
      paperBuyWithLevels w symbol amountUSD reason confidence stopLoss
                         takeProfit ticker now = (Some trade, w') →
      Paper.stopLoss trade = stopLoss
      ∧ Paper.takeProfit trade = takeProfit
      ∧ ∃ position,
          position_of w' symbol = Some position
          ∧ pos_stopLoss position = stopLoss
          ∧ pos_takeProfit position = takeProfit
          ∧ ∃ trade0 w0 position0,
              paperBuy w symbol amountUSD reason confidence ticker now
              = (Some trade0, w0)
              ∧ position_of w0 symbol = Some position0
              ∧ pos_quantity position = pos_quantity position0
              ∧ avgCost position = avgCost position0
              ∧ (balance <$> portfolio w') = (balance <$> portfolio w0).
Proof.
  unfold paperBuyWithLevels, paperBuy, paperBuy_guard, paperBuy_commit.
  destruct (portfolio w) as [p|]; [|done].
  destruct (positions p !! symbol) as [existing|] eqn:Hpos.
  { rewrite bool_decide_eq_true_2 by (by eexists). done. }
  rewrite bool_decide_eq_false_2 by (by intros [? ?]).
  destruct (balance p <? amountUSD)%js; [done|].
  destruct ticker as [price|]; [|done].
  split; [done|]. split; [done|].
  intros trade w' [= <- <-]. cbn [Paper.stopLoss Paper.takeProfit].
  split; [done|]. split; [done|].
  unfold position_of, savePaperPortfolio. cbn [portfolio positions mbind
    option_bind]. rewrite lookup_insert_eq.
  eexists. split; [reflexivity|]. split; [done|]. split; [done|].
  eexists _, _, _. split; [reflexivity|].
  cbn [portfolio positions mbind option_bind]. rewrite lookup_insert_eq.
  split; [reflexivity|]. done.
Qed.

Lemma paperBuyWithLevels_agrees_witness :
  ∃ trade w' position,
    paperBuyWithLevels scenario_start "BTCUSDT" 1000 "Council" 80
      (Some (Fin 47500)) (Some (Fin 55000)) (Some (Fin 50000)) 1
    = (Some trade, w')
    ∧ position_of w' "BTCUSDT" = Some position
    ∧ pos_stopLoss position = Some (Fin 47500)
    ∧ pos_takeProfit position = Some (Fin 55000).
Proof.
  destruct (paperBuyWithLevels scenario_start "BTCUSDT" 1000 "Council" 80
              (Some (Fin 47500)) (Some (Fin 55000)) (Some (Fin 50000)) 1)
    as [[trade|] w'] eqn:Hbuy; [|by vm_compute in Hbuy].
  destruct (paperBuyWithLevels_agrees scenario_start "BTCUSDT" 1000
              "Council" 80 (Some (Fin 47500)) (Some (Fin 55000))
              (Some (Fin 50000)) 1) as (_ & _ & Hlevels).
  destruct (Hlevels trade w' Hbuy)
    as (_ & _ & position & Hpos & Hsl & Htp & _).
  by exists trade, w', position.
Defined.

(** The statistics count closed trades only; a trade is a winner or a
    loser or neither (a pnl of 0 or no pnl), never both; the largest win
    is never negative and the largest loss never positive.  There are
    statistics exactly when there is a portfolio. *)
Theorem getPerformanceStats_counts (w : World) :
  (getPerformanceStats w = None ↔ portfolio w = None)
  ∧ ∀ s, getPerformanceStats w = Some s →
      (winners s + losers s ≤ totalTrades s)%nat
      ∧ (totalTrades s ≤ length (getTradingHistory w))%nat
      ∧ (Fin 0 <=? largestWin s)%js = true
      ∧ (largestLoss s <=? Fin 0)%js = true.
Proof.
  unfold getPerformanceStats, getTradingHistory.
  destruct (portfolio w) as [p|]; [|done].
  split; [done|]. intros s [= <-].
  cbn [winners losers totalTrades largestWin largestLoss].
  assert (Hnan : ∀ ts : list PaperTrade,
            Forall (λ x, x ≠ NaN) (map pnl_or_0 ts)).
  { intros ts. apply Forall_forall. intros x Hx.
    apply list_elem_of_fmap in Hx as (t & -> & _). apply pnl_or_0_not_nan. }
  split; [|split; [|split]].
  - apply filters_disjoint. intros t. exact (nlt_asym (Fin 0) (pnl_or_0 t)).
  - apply length_filter.
  - apply max_list_with_zero, Hnan.
  - apply min_list_with_zero, Hnan.
Qed.

Lemma getPerformanceStats_counts_witness :
  ∃ s, getPerformanceStats scenario_first_buy.2 = Some s
       ∧ (winners s + losers s ≤ totalTrades s)%nat
       ∧ (Fin 0 <=? largestWin s)%js = true.
Proof.
  destruct (getPerformanceStats scenario_first_buy.2) as [s|] eqn:Hs;
    [|by vm_compute in Hs].
  destruct (getPerformanceStats_counts scenario_first_buy.2) as [_ Hcounts].
  destruct (Hcounts s Hs) as (Hwl & _ & Hwin & _).
  by exists s.
Defined.

(** Resetting forgets the previous state: whatever the portfolio and the
    storage held, loading afterwards returns a portfolio with the given
    balance, no positions and no trades, and there is no history. *)
Theorem reset_then_load (b : Q) (now : Z) (w : World) :
  let w1 := (resetPaperPortfolio (Fin b) now w).2 in
  ∃ p, loadPaperPortfolio w1 = (Some p, w1)
       ∧ balance p = Fin b
       ∧ initialBalance p = Fin b
       ∧ positions p = ∅
       ∧ trades p = []
       ∧ getTradingHistory w1 = [].
Proof.
  intros w1. subst w1.
  unfold resetPaperPortfolio, initializePaperPortfolio, savePaperPortfolio,
    loadPaperPortfolio, repairPortfolioBalance.
  cbn [snd portfolio saved balance].
  match goal with |- context [ngt ?x ?y] =>
    assert (Hdrift : ngt x y = false)
  end.
  { unfold expectedBalance, closedTradesPnl, openPositionsCost.
    cbn [initialBalance trades positions]. rewrite map_fold_empty.
    unfold ngt. cbn. apply Qltb_false_iff. rewrite !Qred_correct.
    assert (Hz : b - (b + 0 - 0) == 0) by ring. rewrite Hz. done. }
  rewrite Hdrift. eexists. split; [reflexivity|]. done.
Qed.

End PaperOperations.

(** ** The risk-level calculator: sizes, trailing stops, levels *)

Section RiskOperations.
Import Indicators Risk.
Local Open Scope Q_scope.

Ltac cget_in candles i c :=
  let Hc := fresh "Hc" in
  destruct (cget_inside candles i) as (c & Hc & _);
  [unfold len in *; lia | rewrite Hc, ?bind_Ok].

(** The recommended size is positive and never exceeds the cap, 10% of
    the portfolio divided by the entry price, nor the risk amount
    divided by the distance between the entry and the stop.  With the
    stop at the entry price the risk per unit is 0, the division yields
    [Infinity], and the cap is what is recommended.  (The bounds are
    those of the quotients the code computes; numbers are exact
    rationals.) *)
Theorem calculatePositionSize_capped (portfolioValue entryPrice stopLoss
    maxRiskPercent : Q) :
  0 < portfolioValue → 0 < entryPrice → 0 < maxRiskPercent →
  let r := calculatePositionSize (Fin portfolioValue) (Fin entryPrice)
                                 (Fin stopLoss) (Fin maxRiskPercent) in
  ∃ size cap,
    recommendedSize r = Fin size
    ∧ maxSize r = Fin cap
    ∧ cap == portfolioValue * 0.1 / entryPrice
    ∧ 0 < size <= cap
    ∧ (¬ stopLoss == entryPrice →
       size <= portfolioValue * (maxRiskPercent / 100)
               / Qabs (entryPrice - stopLoss))
    ∧ (stopLoss == entryPrice → size == cap).
Proof.
  intros Hpv He Hm r. subst r. unfold calculatePositionSize.
  cbn [recommendedSize maxSize nsub nabs nmul].
  set (cap := portfolioValue * 0.1 / entryPrice).
  set (ra := portfolioValue * (maxRiskPercent / 100)).
  set (rpu := Qabs (entryPrice - stopLoss)).
  assert (Hcap : 0 < cap).
  { unfold cap. apply Qlt_shift_div_l; lra. }
  assert (Hcape : cap * entryPrice == portfolioValue * 0.1).
  { unfold cap. field. lra. }
  assert (Hra : 0 < ra).
  { unfold ra. apply Qmult_lt_0_compat; [done|].
    apply Qlt_shift_div_l; lra. }
  assert (Hrpu : 0 <= rpu) by apply Qabs_nonneg.
  assert (Hmax : (Fin (Qred (portfolioValue * 0.1)) / Fin entryPrice)%js
                 = Fin (Qred cap)).
  { cbn [ndiv]. replace (Qeq_bool entryPrice 0) with false
      by (symmetry; apply Qeq_bool_false_iff; lra).
    f_equal. apply Qred_complete. unfold cap. by rewrite Qred_correct. }
  assert (Hamount : (Fin maxRiskPercent / 100)%js
                    = Fin (Qred (maxRiskPercent / 100))) by done.
  rewrite Hmax, Hamount. cbn [nmul].
  assert (Hraq : Qred (portfolioValue * Qred (maxRiskPercent / 100)) == ra).
  { unfold ra. by rewrite !Qred_correct. }
  assert (Hrpuq : Qred (Qabs (Qred (entryPrice - stopLoss))) == rpu).
  { unfold rpu. by rewrite !Qred_correct. }
  cbn [ndiv].
  destruct (Qeq_bool (Qred (Qabs (Qred (entryPrice - stopLoss)))) 0) eqn:Ez.
  - apply Qeq_bool_iff in Ez. rewrite Hrpuq in Ez.
    assert (Hgt : 0 < Qred (portfolioValue * Qred (maxRiskPercent / 100)))
      by (rewrite Hraq; done).
    rewrite (proj1 (Qgt_alt _ _) Hgt). cbn [nmin nlt].
    exists (Qred cap), (Qred cap).
    split; [done|]. split; [done|]. rewrite !Qred_correct. split; [done|].
    split; [split; [done | apply Qle_refl]|].
    split; [|done].
    intros Hne. exfalso. apply Hne. unfold rpu in Ez.
    destruct (Qlt_le_dec (entryPrice - stopLoss) 0) as [Hneg|Hnn];
      [rewrite Qabs_neg in Ez by lra | rewrite Qabs_pos in Ez by lra]; lra.
  - apply Qeq_bool_false_iff in Ez. rewrite Hrpuq in Ez.
    assert (Hpos : 0 < rpu).
    { apply Qle_lteq in Hrpu as [?|Heq]; [done|]. by symmetry in Heq. }
    set (x := Qred (Qred (portfolioValue * Qred (maxRiskPercent / 100))
                    / Qred (Qabs (Qred (entryPrice - stopLoss))))).
    assert (Hx : x == ra / rpu).
    { unfold x. by rewrite Qred_correct, Hraq, Hrpuq. }
    assert (Hxpos : 0 < x).
    { rewrite Hx. apply Qlt_shift_div_l; lra. }
    assert (Hxr : x * rpu == ra).
    { rewrite Hx. field. lra. }
    assert (Hne : ¬ stopLoss == entryPrice).
    { intros Heq. apply Ez. unfold rpu. rewrite Heq.
      assert (Hzero : entryPrice - entryPrice == 0) by ring.
      by rewrite Hzero. }
    cbn [nmin nlt]. destruct (Qltb (Qred cap) x) eqn:El;
      [apply Qltb_iff in El | apply Qltb_false_iff in El];
      rewrite Qred_correct in El.
    + exists (Qred cap), (Qred cap).
      split; [done|]. split; [done|]. rewrite !Qred_correct. split; [done|].
      split; [split; [done | apply Qle_refl]|].
      split; [|done].
      intros _. fold ra rpu. rewrite <- Hx. lra.
    + exists x, (Qred cap).
      split; [done|]. split; [done|]. rewrite !Qred_correct. split; [done|].
      split; [done|].
      split; [|done].
      intros _. fold ra rpu. rewrite Hx. apply Qle_refl.
Qed.

Lemma calculatePositionSize_capped_witness :
  ∃ size cap,
    recommendedSize (calculatePositionSize 10000 50000 47500
                                           default_maxRiskPercent) = Fin size
    ∧ maxSize (calculatePositionSize 10000 50000 47500
                                     default_maxRiskPercent) = Fin cap
    ∧ 0 < size <= cap.
Proof.
  destruct (calculatePositionSize_capped 10000 50000 47500 2)
    as (size & cap & Hs & Hc & _ & Hb & _); [by compute ..|].
  exists size, cap. split; [exact Hs|]. split; [exact Hc | exact Hb].
Defined.

(** The trailing stop is the higher of the ATR trail and 95% of the
    highest price; once the price is more than 2% above the entry it is
    also at least the entry price. *)
Theorem calculateTrailingStop_floor (entryPrice currentPrice highestPrice
    atr trailingMultiplier : Q) :
  let stop := calculateTrailingStop (Fin entryPrice) (Fin currentPrice)
                (Fin highestPrice) (Fin atr) (Fin trailingMultiplier) in
  let atrTrail := highestPrice - atr * trailingMultiplier in
  let percentTrail := highestPrice * 0.95 in
  ∃ s, stop = Fin s
       ∧ atrTrail <= s ∧ percentTrail <= s
       ∧ (entryPrice * 1.02 < currentPrice →
          entryPrice <= s
          ∧ (s == atrTrail ∨ s == percentTrail ∨ s == entryPrice))
       ∧ (currentPrice <= entryPrice * 1.02 →
          s == atrTrail ∨ s == percentTrail).
Proof.
  intros stop atrTrail percentTrail. subst stop.
  unfold calculateTrailingStop. cbn [nmul nsub nmax nlt].
  set (a := Qred (highestPrice - Qred (atr * trailingMultiplier))).
  set (b := Qred (highestPrice * 0.95)).
  assert (Ha : a == atrTrail) by (unfold a, atrTrail; by rewrite !Qred_correct).
  assert (Hb : b == percentTrail)
    by (unfold b, percentTrail; by rewrite !Qred_correct).
  unfold ngt. cbn [nlt].
  destruct (Qltb a b) eqn:Eab;
    [apply Qltb_iff in Eab | apply Qltb_false_iff in Eab];
  (destruct (Qltb (Qred (entryPrice * 1.02)) currentPrice) eqn:Ecur;
    [apply Qltb_iff in Ecur | apply Qltb_false_iff in Ecur];
    rewrite Qred_correct in Ecur; cbn [nmax nlt]);
  try (match goal with |- context [Qltb ?u entryPrice] =>
         destruct (Qltb u entryPrice) eqn:Ee;
         [apply Qltb_iff in Ee | apply Qltb_false_iff in Ee]
       end);
  eexists; (split; [reflexivity|]);
  repeat split; try lra; intros; try lra;
  repeat split; try lra; try (left; lra); try (right; left; lra);
  try (right; right; lra); try (right; lra).
Qed.

Lemma calculateTrailingStop_floor_witness :
  ∃ s, calculateTrailingStop 100 110 112 2 default_trailingMultiplier = Fin s
       ∧ 100 <= s.
Proof.
  destruct (calculateTrailingStop_floor 100 110 112 2 2.5)
    as (s & Hs & _ & _ & Hlock & _).
  exists s. split; [exact Hs|]. apply Hlock. by compute.
Defined.

Lemma calculateATR_ok (candles : list Candle) (period : nat) :
  ∃ atr, calculateATR candles period = Ok atr
         ∧ ((len candles ≤ Z.of_nat period)%Z →
            atr = replicate (length candles) None).
Proof.
  unfold calculateATR.
  destruct (len candles <=? Z.of_nat period)%Z eqn:Hlen; [eauto|].
  apply Z.leb_gt in Hlen. cget_in candles 0%Z c0.
  match goal with |- context [for_loop_r ?lo ?hi ?body ?s] =>
    destruct (for_loop_r_ind (λ _ _, True) lo hi body s) as (tr & -> & _)
  end.
  - unfold len in *. lia.
  - done.
  - intros i tr Hi _. cget_in candles i ci. cget_in candles (i - 1)%Z cp.
    eauto.
  - rewrite bind_Ok. eexists. split; [done|]. lia.
Qed.

Lemma length_slice_le {A} (l : list A) b e :
  (0 ≤ b ≤ e)%Z → (length (slice l b e) ≤ Z.to_nat (e - b))%nat.
Proof.
  intros Hbe. unfold slice.
  destruct (b <? 0)%Z eqn:Eb; [lia|]. destruct (e <? 0)%Z eqn:Ee; [lia|].
  rewrite length_take. lia.
Qed.

Lemma getSupportResistanceLevels_ok (candles : list Candle) (lookback : Z) :
  candles ≠ [] → (0 ≤ lookback)%Z →
  ∃ r, getSupportResistanceLevels candles lookback = Ok r
       ∧ (length (supports r) ≤ 5)%nat
       ∧ (length (resistances r) ≤ 5)%nat.
Proof.
  intros Hne Hlb. unfold getSupportResistanceLevels.
  set (recent := slice_from candles (- lookback)).
  assert (Hrecent : (0 < len recent)%Z).
  { subst recent. unfold slice_from, slice, len.
    destruct candles as [|c candles]; [done|].
    rewrite length_take, length_drop. simpl length.
    destruct (- lookback <? 0)%Z eqn:E1;
      (destruct (Z.of_nat (S (length candles)) <? 0)%Z eqn:E2; [lia|]); lia. }
  match goal with |- context [for_loop_r ?lo ?hi ?body ?s] =>
    assert (Hloop : ∃ st, for_loop_r lo hi body s = Ok st)
  end.
  { destruct (decide (len recent - 2 ≤ 2)%Z) as [Hshort|Hlong].
    - rewrite for_loop_r_empty by done. eauto.
    - match goal with |- context [for_loop_r ?lo ?hi ?body ?s] =>
        destruct (for_loop_r_ind (λ _ _, True) lo hi body s) as (st & -> & _)
      end; [lia | done | | eauto].
      intros i [hs ls] Hi _.
      cget_in recent i current. cget_in recent (i - 1)%Z prev1.
      cget_in recent (i - 2)%Z prev2. cget_in recent (i + 1)%Z next1.
      cget_in recent (i + 2)%Z next2. eauto. }
  destruct Hloop as ([swingHighs swingLows] & ->). rewrite bind_Ok.
  cget_in recent (len recent - 1)%Z lastCandle.
  eexists. split; [reflexivity|]. cbn [supports resistances].
  split; apply (length_slice_le _ 0 5); lia.
Qed.

Lemma currentATR_of_ok (candles : list Candle) (entry : num) :
  ∃ atr, currentATR_of candles entry = Ok atr
         ∧ ((len candles ≤ 14)%Z → atr = (entry * 0.02)%js).
Proof.
  unfold currentATR_of.
  destruct (calculateATR_ok candles 14) as (atr & -> & Hshort).
  rewrite bind_Ok. eexists. split; [reflexivity|].
  intros Hlen; rewrite (Hshort Hlen).
  destruct candles as [|c l]; [done|].
  rewrite idx_replicate; [done|].
  unfold len; rewrite length_replicate; simpl length; lia.
Qed.

Lemma calculateDynamicRiskLevels_ok (candles : list Candle)
    (entry : num) (direction : Direction) (sl tp : num) :
  ∃ r, calculateDynamicRiskLevels candles entry direction sl tp = Ok r
       ∧ entryPrice r = entry
       ∧ ((len candles ≤ 14)%Z → atrValue r = (entry * 0.02)%js).
Proof.
  unfold calculateDynamicRiskLevels.
  destruct (currentATR_of_ok candles entry) as (atr & -> & Hshort).
  rewrite !bind_Ok.
  destruct (adjustMultipliers _ sl tp) as [s t].
  destruct direction; (eexists; split; [reflexivity|]); done.
Qed.

(** On an empty candle list the support/resistance scan throws, reading
    the last candle, and so does the smart blend, although the ATR-based
    calculator returns levels there.  On any other list the scan returns
    at most five supports and five resistances, and with fewer than five
    candles, too few for a swing, it falls back to 95% and 105% of the
    last close. *)
Theorem getSupportResistanceLevels_edges (candles : list Candle)
    (lookback : Z) :
  (5 ≤ lookback)%Z →
  (candles = [] →
   getSupportResistanceLevels candles lookback = Throw TypeError
   ∧ (∀ entry direction,
        getSmartRiskLevels candles entry direction = Throw TypeError
        ∧ ∃ r, calculateDynamicRiskLevels candles entry direction
                 default_atrMultiplierSL default_atrMultiplierTP = Ok r))
  ∧ (candles ≠ [] →
     ∃ r lastCandle,
       getSupportResistanceLevels candles lookback = Ok r
       ∧ last candles = Some lastCandle
       ∧ (length (supports r) ≤ 5)%nat
       ∧ (length (resistances r) ≤ 5)%nat
       ∧ pivotPoint r
         = (((Fin (high lastCandle) + low lastCandle) + close lastCandle)
            / 3)%js
       ∧ ((len candles < 5)%Z →
          supports r = [] ∧ resistances r = []
          ∧ nearestSupport r = (Fin (close lastCandle) * 0.95)%js
          ∧ nearestResistance r = (Fin (close lastCandle) * 1.05)%js)).
Proof.
  intros Hlb. split.
  - intros ->.
    assert (Hempty : ∀ k, getSupportResistanceLevels [] k = Throw TypeError).
    { intros k. unfold getSupportResistanceLevels, slice_from, slice.
      rewrite drop_nil, take_nil. done. }
    split; [apply Hempty|]. intros entry direction.
    destruct (calculateDynamicRiskLevels_ok [] entry direction
                default_atrMultiplierSL default_atrMultiplierTP)
      as (r & Hr & _).
    split; [|eauto].
    unfold getSmartRiskLevels. by rewrite Hr, bind_Ok, Hempty.
  - intros Hne.
    destruct (getSupportResistanceLevels_ok candles lookback Hne ltac:(lia))
      as (r & Hr & Hs & Hres).
    assert (Hlast : ∃ lastCandle, last candles = Some lastCandle).
    { destruct candles as [|c l] using rev_ind; [done|].
      rewrite last_snoc. eauto. }
    destruct Hlast as [lastCandle Hlast].
    exists r, lastCandle. split; [done|]. split; [done|].
    split; [done|]. split; [done|].
    revert Hr. unfold getSupportResistanceLevels.
    set (recent := slice_from candles (- lookback)).
    assert (Hlen0 : (0 < length candles)%nat).
    { destruct candles; [done | simpl; lia]. }
    assert (Hslice : recent
              = drop (Z.to_nat (Z.max (len candles - lookback) 0)) candles).
    { subst recent. unfold slice_from, slice.
      destruct (- lookback <? 0)%Z eqn:E1; [|lia].
      destruct (len candles <? 0)%Z eqn:E2; [unfold len in *; lia|].
      replace (len candles + - lookback)%Z with (len candles - lookback)%Z
        by lia.
      apply take_ge. rewrite length_drop. unfold len. lia. }
    set (n := Z.to_nat (Z.max (len candles - lookback) 0)) in Hslice.
    assert (Hn : (n < length candles)%nat) by (unfold n, len; lia).
    assert (Hrec : (len candles < 5)%Z → recent = candles).
    { intros Hlen. rewrite Hslice.
      replace n with 0%nat by (unfold n, len in *; lia). apply drop_0. }
    assert (Hlastc : cget recent (len recent - 1) = Ok lastCandle).
    { rewrite Hslice. unfold cget, idx, len. rewrite length_drop.
      destruct (Z.of_nat (length candles - n) - 1 <? 0)%Z eqn:E2; [lia|].
      rewrite lookup_drop.
      replace (n + Z.to_nat (Z.of_nat (length candles - n) - 1))%nat
        with (pred (length candles)) by lia.
      rewrite <- last_lookup. by rewrite Hlast. }
    clearbody recent.
    destruct (for_loop_r 2 (len recent - 2) _ _) as [[hs ls]|e] eqn:Hloop;
      [|done].
    rewrite bind_Ok, Hlastc, bind_Ok. intros [= <-].
    cbn [pivotPoint supports resistances nearestSupport nearestResistance].
    split; [done|]. intros Hshort.
    rewrite Hrec in Hloop by lia.
    rewrite for_loop_r_empty in Hloop by lia. injection Hloop as <- <-.
    done.
Qed.

Lemma getSupportResistanceLevels_edges_witness :
  ∃ r, getSupportResistanceLevels (replicate 3 (wick_candle 101 99)) 50 = Ok r
       ∧ nearestSupport r = (Fin 100 * 0.95)%js
       ∧ nearestResistance r = (Fin 100 * 1.05)%js.
Proof.
  destruct (getSupportResistanceLevels_edges
              (replicate 3 (wick_candle 101 99)) 50 ltac:(lia))
    as [_ Hsome].
  destruct Hsome as (r & lastCandle & Hr & Hlast & _ & _ & _ & Hshort);
    [done|].
  injection Hlast as <-.
  destruct Hshort as (_ & _ & Hs & Hres); [by compute|].
  by exists r.
Defined.


(** The percentage distance of a level from the entry price. *)
Lemma percent_distance (u v entry d : Q) :
  0 < entry → 0 < d → u - v == d ∨ u - v == - d →
  ∃ q, (nabs ((Fin u - Fin v) / Fin entry) * 100)%js = Fin q
       ∧ q == d / entry * 100.
Proof.
  intros He Hd Huv. cbn [nsub ndiv].
  replace (Qeq_bool entry 0) with false
    by (symmetry; apply Qeq_bool_false_iff; lra).
  cbn [nabs nmul]. eexists. split; [reflexivity|].
  rewrite !Qred_correct.
  assert (Hpos : 0 <= d / entry).
  { apply Qle_shift_div_l; lra. }
  destruct Huv as [-> | ->].
  - by rewrite Qabs_pos.
  - assert (Hneg : - d / entry == - (d / entry)) by (field; lra).
    rewrite Hneg, Qabs_opp. by rewrite Qabs_pos.
Qed.

(** On well-formed candles, for a positive entry price and positive
    multipliers, [calculateDynamicRiskLevels] places the stop-loss one
    adjusted stop multiple of the ATR from the entry and the three
    targets at 0.5, 1 and 1.5 adjusted target multiples on the other
    side, so that the levels are ordered, and it reports the ratio of
    the two adjusted multipliers as risk/reward ratio.  With at most 14
    candles there is no ATR and 2% of the entry price stands in.  (The
    values are those of exact arithmetic: numbers are exact rationals,
    and the doubles of the code agree with them up to rounding.) *)
Theorem calculateDynamicRiskLevels_tiers (candles : list Candle)
    (entry sl tp : Q) (direction : Direction) :
  Forall well_formed candles → 0 < entry → 0 < sl → 0 < tp →
  ∃ r a s t,
    calculateDynamicRiskLevels candles (Fin entry) direction (Fin sl) (Fin tp)
    = Ok r
    ∧ atrValue r = Fin a ∧ 0 < a
    ∧ adjustMultipliers (volatilityLevel r) (Fin sl) (Fin tp) = (Fin s, Fin t)
    ∧ ((len candles ≤ 14)%Z → a == entry * 0.02)
    ∧ ordered_levels direction r
    ∧ let sign := match direction with long => 1 | short => - (1) end in
      is_val (stopLoss r) (entry - sign * (a * s))
      ∧ is_val (takeProfit1 r) (entry + sign * (a * t * 0.5))
      ∧ is_val (takeProfit2 r) (entry + sign * (a * t))
      ∧ is_val (takeProfit3 r) (entry + sign * (a * t * 1.5))
      ∧ is_val (riskRewardRatio r) (t / s).
Proof.
  intros Hwf Hentry Hsl Htp.
  destruct (currentATR_positive candles entry Hwf Hentry) as (a & Hatr & Ha).
  assert (Hshort : (len candles ≤ 14)%Z → a == entry * 0.02).
  { intros Hlen.
    destruct (currentATR_of_ok candles (Fin entry)) as (atr & Hatr' & Hs).
    rewrite Hatr in Hatr'. injection Hatr' as <-.
    specialize (Hs Hlen). injection Hs as ->. apply Qred_correct. }
  assert (Hadj : ∀ v, ∃ s t,
            adjustMultipliers v (Fin sl) (Fin tp) = (Fin s, Fin t)
            ∧ 0 < s ∧ 0 < t).
  { intros []; simpl; eexists _, _; (split; [reflexivity|]);
      rewrite ?Qred_correct; lra. }
  destruct (Hadj (classifyVolatility (atrPercent_of candles (Fin a))))
    as (s & t & Hst & Hs & Ht).
  assert (Hd : 0 < a * s) by (by apply Qmult_lt_0_compat).
  assert (He : 0 < a * t) by (by apply Qmult_lt_0_compat).
  assert (Hratio : ∀ q1 q2,
            q1 == a * s / entry * 100 → q2 == a * t / entry * 100 →
            is_val (Fin q2 / Fin q1)%js (t / s)).
  { intros q1 q2 H1 H2. cbn [ndiv].
    assert (Hq1 : 0 < q1).
    { rewrite H1. apply Qmult_lt_0_compat; [|done].
      apply Qlt_shift_div_l; lra. }
    replace (Qeq_bool q1 0) with false
      by (symmetry; apply Qeq_bool_false_iff; lra).
    cbn [is_val]. rewrite Qred_correct, H1, H2. field. lra. }
  destruct direction;
    (eexists _, a, s, t;
     split; [unfold calculateDynamicRiskLevels;
             rewrite Hatr, bind_Ok, Hst; reflexivity|]);
    cbn [atrValue volatilityLevel];
    (split; [done|]); (split; [done|]); (split; [done|]);
    (split; [done|]);
    (split; [unfold ordered_levels, ngt;
             cbn [stopLoss entryPrice takeProfit1 takeProfit2 takeProfit3
                  nadd nsub nmul];
             rewrite !nlt_fin, !Qred_correct;
             generalize dependent (a * s); generalize dependent (a * t);
             intros; repeat split; lra|]);
    cbn [stopLoss takeProfit1 takeProfit2 takeProfit3 riskRewardRatio
         stopLossPercent takeProfitPercent].
  - destruct (percent_distance entry
                (Qred (entry - Qred (a * s))) entry (a * s) Hentry Hd)
      as (q1 & Hq1 & Hv1); [left; rewrite !Qred_correct; ring|].
    destruct (percent_distance (Qred (entry + Qred (a * t))) entry entry
                (a * t) Hentry He)
      as (q2 & Hq2 & Hv2); [left; rewrite !Qred_correct; ring|].
    cbn [nadd nsub nmul] in Hq1, Hq2 |- *. rewrite Hq1, Hq2.
    split; [|split; [|split; [|split]]];
      [cbn [is_val]; rewrite !Qred_correct; ring .. | by apply Hratio].
  - destruct (percent_distance entry
                (Qred (entry + Qred (a * s))) entry (a * s) Hentry Hd)
      as (q1 & Hq1 & Hv1); [right; rewrite !Qred_correct; ring|].
    destruct (percent_distance (Qred (entry - Qred (a * t))) entry entry
                (a * t) Hentry He)
      as (q2 & Hq2 & Hv2); [right; rewrite !Qred_correct; ring|].
    cbn [nadd nsub nmul] in Hq1, Hq2 |- *. rewrite Hq1, Hq2.
    split; [|split; [|split; [|split]]];
      [cbn [is_val]; rewrite !Qred_correct; ring .. | by apply Hratio].
Qed.

Lemma quiet_candles_well_formed : Forall well_formed quiet_candles.
Proof.
  apply Forall_forall. intros c Hc.
  apply elem_of_replicate in Hc as [-> _]. by compute.
Qed.

Lemma calculateDynamicRiskLevels_tiers_witness :
  ∃ r, calculateDynamicRiskLevels quiet_candles 100 long 2 3 = Ok r
       ∧ ordered_levels long r
       ∧ volatilityLevel r = vol_low.
Proof.
  destruct (calculateDynamicRiskLevels_tiers quiet_candles 100 2 3 long
              quiet_candles_well_formed)
    as (r & a & s & t & Hr & _ & _ & Hst & _ & Hord & _);
    [by compute ..|].
  exists r. split; [exact Hr|]. split; [exact Hord|].
  vm_compute in Hr. injection Hr as <-. reflexivity.
Defined.




End RiskOperations.

(** ** The Council: bounded scores, signals, market regime *)

Section CouncilOperations.
Import Indicators Council.
Context `{Runtime}.
Local Open Scope Q_scope.

Lemma clamp_within (x : num) :
  within_or_nan (-100) 100 (nmax (-100) (nmin 100 x)).
Proof.
  destruct x as [q| | |]; try done; cbn [nmin nlt].
  destruct (Qltb q 100) eqn:E1;
    [apply Qltb_iff in E1 | apply Qltb_false_iff in E1]; cbn [nmax nlt].
  - destruct (Qltb (-100) q) eqn:E2;
      [apply Qltb_iff in E2 | apply Qltb_false_iff in E2]; simpl; lra.
  - simpl. lra.
Qed.

Lemma Qn_succ (n : nat) :
  inject_Z (Z.of_nat (S n)) == inject_Z (Z.of_nat n) + 1.
Proof. rewrite Nat2Z.inj_succ. unfold Z.succ. by rewrite inject_Z_plus. Qed.

Lemma sum_scores_within (vs : list ModuleVote) (A : Q) (acc : num) :
  within_or_nan (- A) A acc →
  Forall (λ v, within_or_nan (-100) 100 (score v)) vs →
  within_or_nan (- (A + 100 * inject_Z (Z.of_nat (length vs))))
                (A + 100 * inject_Z (Z.of_nat (length vs)))
                (fold_left (λ a b, a + score b)%js vs acc).
Proof.
  intros Hacc Hvs. revert A acc Hacc.
  induction Hvs as [|v vs Hv _ IH]; intros A acc Hacc.
  - simpl. destruct acc as [q| | |]; try done. simpl in *.
    change (inject_Z (Z.of_nat 0)) with 0. lra.
  - cbn [fold_left length].
    assert (Hstep : within_or_nan (- (A + 100)) (A + 100) (acc + score v)%js).
    { destruct acc as [q| | |], (score v) as [x| | |]; try done.
      simpl in *. rewrite Qred_correct. lra. }
    specialize (IH _ _ Hstep).
    destruct (fold_left _ vs _) as [q| | |]; try done.
    cbn [within_or_nan] in *. rewrite Qn_succ. lra.
Qed.

Lemma average_within (x : num) (n : nat) :
  (0 < n)%nat →
  within_or_nan (- (0 + 100 * inject_Z (Z.of_nat n)))
                (0 + 100 * inject_Z (Z.of_nat n)) x →
  within_or_nan (-100) 100 (x / nnum n)%js.
Proof.
  intros Hn Hx. destruct x as [q| | |]; try done.
  unfold nnum, znum. cbn [ndiv]. rewrite znum_nonzero by lia.
  cbn [within_or_nan] in *. rewrite Qred_correct.
  assert (Hpos : 0 < inject_Z (Z.of_nat n)).
  { replace 0 with (inject_Z 0) by done. rewrite <- Zlt_Qlt. lia. }
  split.
  - apply Qle_shift_div_l; [done|]. lra.
  - apply Qle_shift_div_r; [done|]. lra.
Qed.

Lemma council_votes_parts (candles : list Candle) :
  ∃ orion hermes,
    getOrionVote candles = Ok orion
    ∧ getHermesVote candles = Ok hermes
    ∧ council_votes candles
      = Ok ([orion; getAtlasVote candles; getAetherVote candles; hermes;
             getChronosVote candles; getPoseidonVote candles]
            ++ [getArgusVote [orion; getAtlasVote candles;
                              getAetherVote candles; hermes;
                              getChronosVote candles;
                              getPoseidonVote candles]]).
Proof.
  unfold council_votes.
  assert (Ho : ∃ orion, getOrionVote candles = Ok orion).
  { unfold getOrionVote. destruct (calculateADX_ok candles 14) as [adx ->].
    rewrite bind_Ok. eauto. }
  assert (Hh : ∃ hermes, getHermesVote candles = Ok hermes).
  { unfold getHermesVote.
    destruct (calculateStochastic_ok candles 14 3) as [st ->]; [lia|].
    rewrite bind_Ok. eauto. }
  destruct Ho as [orion Ho], Hh as [hermes Hh]. rewrite Ho, Hh.
  rewrite !bind_Ok. by exists orion, hermes.
Qed.

Ltac clamp_score :=
  lazymatch goal with
  | |- within_or_nan _ _ (nmax _ (nmin _ ?x)) =>
      generalize x; intros; apply clamp_within
  end.

Lemma getOrionVote_score (candles : list Candle) :
  match getOrionVote candles with
  | Ok v => within_or_nan (-100) 100 (score v)
  | Throw _ => True
  end.
Proof.
  unfold getOrionVote. destruct (calculateADX candles 14) as [adx|e]; [|done].
  rewrite bind_Ok. cbv zeta. cbv beta iota. cbn [score]. clamp_score.
Qed.

Lemma getHermesVote_score (candles : list Candle) :
  match getHermesVote candles with
  | Ok v => within_or_nan (-100) 100 (score v)
  | Throw _ => True
  end.
Proof.
  unfold getHermesVote.
  destruct (calculateStochastic candles 14 3) as [st|e]; [|done].
  rewrite bind_Ok. cbv zeta. cbv beta iota. cbn [score]. clamp_score.
Qed.

Lemma count_direction_le (a : SignalAction) (vs : list ModuleVote) :
  (count_direction a vs ≤ length vs)%nat.
Proof. apply length_filter. Qed.

Lemma confidence_within (avg : num) (b s : nat) (f1 f2 : bool) :
  within_or_nan (-100) 100 avg →
  let c0 := ((nabs avg * 0.5) + (nmax (nnum b) (nnum s) * 10))%js in
  let c1 := if f1 then nmax 65 c0 else c0 in
  let c2 := if f2 then nmax 85 c1 else c1 in
  within_or_nan 0 100 (nmin 100 c2).
Proof.
  intros Havg. destruct avg as [q| | |]; try done.
  2: { cbv zeta. cbn [nabs nmul nadd]. by destruct f1, f2. }
  assert (Hc0 : ∃ x, ((nabs (Fin q) * 0.5)
                      + (nmax (nnum b) (nnum s) * 10))%js = Fin x ∧ 0 <= x).
  { unfold nnum, znum. cbn [nabs nmul nmax nlt].
    assert (Hb : 0 <= inject_Z (Z.of_nat b)).
    { replace 0 with (inject_Z 0) by done. rewrite <- Zle_Qle. lia. }
    assert (Hs : 0 <= inject_Z (Z.of_nat s)).
    { replace 0 with (inject_Z 0) by done. rewrite <- Zle_Qle. lia. }
    pose proof (Qabs_nonneg q) as Hq.
    destruct (Qltb _ _); cbn [nmul nadd]; eexists; (split; [reflexivity|]);
      rewrite !Qred_correct; nra. }
  destruct Hc0 as (x & -> & Hx). cbv zeta.
  assert (Hmax : ∀ (k : Q) (f : bool) (y : Q), 0 <= y →
            ∃ z, (if f then nmax (Fin k) (Fin y) else Fin y) = Fin z ∧ 0 <= z).
  { intros k [] y Hy; [|eauto]. cbn [nmax nlt].
    destruct (Qltb k y) eqn:E; [eauto|].
    apply Qltb_false_iff in E. exists k. split; [done | lra]. }
  destruct (Hmax 65 f1 x Hx) as (y & -> & Hy).
  destruct (Hmax 85 f2 y Hy) as (z & -> & Hz).
  cbn [nmin nlt]. destruct (Qltb z 100) eqn:E;
    [apply Qltb_iff in E | apply Qltb_false_iff in E]; simpl; lra.
Qed.

(** On 50 candles or more, every vote's score, the Guardian's average
    included, and the overall score of the decision are [NaN] or lie
    between -100 and 100; the confidence of the decision is [NaN] or
    lies between 0 and 100; the Guardian's own confidence lies between
    90 and 96. *)
Theorem council_scores_bounded (candles : list Candle)
    (symbol uuid : string) (now : Z) :
  (50 ≤ len candles)%Z →
  ∃ d argus,
    generateCouncilDecision candles symbol uuid now = Ok d
    ∧ Forall (λ v, within_or_nan (-100) 100 (score v)) (votes d)
    ∧ within_or_nan (-100) 100 (overallScore d)
    ∧ within_or_nan 0 100 (decisionConfidence d)
    ∧ last (votes d) = Some argus
    ∧ module argus = "Argus"
    ∧ within_or_nan 90 96 (confidence argus).
Proof.
  intros Hlen. unfold generateCouncilDecision.
  destruct (len candles <? 50)%Z eqn:E; [apply Z.ltb_lt in E; lia|].
  destruct (council_votes_parts candles) as (orion & hermes & Ho & Hh & ->).
  rewrite bind_Ok.
  set (six := [orion; getAtlasVote candles; getAetherVote candles; hermes;
               getChronosVote candles; getPoseidonVote candles]).
  assert (Hsix : Forall (λ v, within_or_nan (-100) 100 (score v)) six).
  { pose proof (getOrionVote_score candles) as Hos. rewrite Ho in Hos.
    pose proof (getHermesVote_score candles) as Hhs. rewrite Hh in Hhs.
    repeat apply Forall_cons_2; [done | | | done | | | apply Forall_nil_2].
    - unfold getAtlasVote. cbv zeta.
      repeat match goal with |- context [let '(_, _) := ?x in _] =>
        destruct x end.
      cbn [score]. clamp_score.
    - unfold getAetherVote. destruct (aether_inputs candles) as [[[u l] m] p].
      cbn [score]. clamp_score.
    - unfold getChronosVote. cbn [score]. clamp_score.
    - unfold getPoseidonVote. cbn [score]. clamp_score. }
  assert (Hargus : within_or_nan (-100) 100 (score (getArgusVote six))).
  { cbn [getArgusVote score]. apply average_within; [simpl; lia|].
    apply (sum_scores_within _ 0); [by compute | done]. }
  assert (Hall : Forall (λ v, within_or_nan (-100) 100 (score v))
                        (six ++ [getArgusVote six])).
  { apply Forall_app. split; [done|]. by constructor. }
  assert (Havg : within_or_nan (-100) 100
            (fold_left (λ a b, a + score b)%js (six ++ [getArgusVote six])
                       (Fin 0)
             / nnum (length (six ++ [getArgusVote six])))%js).
  { apply average_within; [simpl; lia|].
    apply (sum_scores_within _ 0); [by compute | done]. }
  assert (Hlast : last (six ++ [getArgusVote six]) = Some (getArgusVote six))
    by apply last_snoc.
  assert (Hconf : within_or_nan 90 96 (confidence (getArgusVote six))).
  { cbn [getArgusVote confidence].
    match goal with |- context [count_direction ?a six] =>
      pose proof (count_direction_le a six) as Hc;
      generalize dependent (count_direction a six)
    end.
    intros c Hc. change (length six) with 6%nat in Hc.
    unfold nnum, znum. cbn [nadd within_or_nan]. rewrite Qred_correct.
    assert (H0 : 0 <= inject_Z (Z.of_nat c)).
    { replace 0 with (inject_Z 0) by done. rewrite <- Zle_Qle. lia. }
    assert (H6 : inject_Z (Z.of_nat c) <= 6).
    { replace 6 with (inject_Z 6) by done. rewrite <- Zle_Qle. lia. }
    lra. }
  generalize dependent (six ++ [getArgusVote six]). intros vs Hall Havg Hlast.
  destruct (or_else _ 50 <? 24)%js; [|destruct (or_else _ 50 >? 78)%js;
    [|destruct (4 <=? count_direction buy vs)%nat;
      [|destruct (4 <=? count_direction sell vs)%nat]]].
  all: eexists _, (getArgusVote six); split; [reflexivity|].
  all: cbn [votes overallScore decisionConfidence].
  all: split; [done|]; split; [done|].
  all: split; [by apply confidence_within|].
  all: split; [done|]; split; [reflexivity | done].
Qed.

(** The compatibility exports follow the decision.  On fewer than 50
    candles there is no signal and the composite score is 0 with
    sentiment hold.  On 50 candles or more the composite score carries
    the overall score and the action of the decision, and there is no
    signal when the Council holds and exactly one otherwise, a buy or a
    sell at the last close with the confidence of the decision. *)
Theorem generateSignals_follow_decision (candles : list Candle)
    (uuid : string) (now : Z) :
  ((len candles < 50)%Z →
   generateSignals candles uuid now = Ok []
   ∧ calculateCompositeScore candles uuid now
     = Ok {| totalScore := 0; breakdown := []; sentiment := hold |})
  ∧ ((50 ≤ len candles)%Z →
     ∃ d lastCandle,
       generateCouncilDecision candles "TEMP" uuid now = Ok d
       ∧ last candles = Some lastCandle
       ∧ calculateCompositeScore candles uuid now
         = Ok {| totalScore := overallScore d; breakdown := [];
                 sentiment := finalAction d |}
       ∧ (finalAction d = hold → generateSignals candles uuid now = Ok [])
       ∧ (finalAction d ≠ hold →
          ∃ sg, generateSignals candles uuid now = Ok [sg]
                ∧ sig_action sg = finalAction d
                ∧ (sig_action sg = buy ∨ sig_action sg = sell)
                ∧ sig_price sg = Fin (close lastCandle)
                ∧ sig_confidence sg = decisionConfidence d
                ∧ sig_symbol sg = "TEMP")).
Proof.
  split.
  - intros Hlen. unfold generateSignals, calculateCompositeScore,
      generateCouncilDecision.
    apply Z.ltb_lt in Hlen. rewrite Hlen. done.
  - intros Hlen.
    destruct (generateCouncilDecision_enough candles "TEMP" uuid now Hlen)
      as (d & Hd & _ & Hact).
    assert (Hsym : symbol d = "TEMP").
    { revert Hd. unfold generateCouncilDecision.
      destruct (len candles <? 50)%Z; [by intros [= <-]|].
      destruct (council_votes candles) as [vs|e]; [|done].
      rewrite bind_Ok.
      destruct (_ <? 24)%js; [by intros [= <-]|].
      destruct (_ >? 78)%js; [by intros [= <-]|].
      destruct (4 <=? _)%nat; [by intros [= <-]|].
      destruct (4 <=? _)%nat; by intros [= <-]. }
    assert (Hlast : ∃ lastCandle,
              last candles = Some lastCandle
              ∧ cget candles (len candles - 1) = Ok lastCandle).
    { destruct candles as [|c l] using rev_ind; [unfold len in Hlen; simpl in Hlen; lia|].
      exists c. rewrite last_snoc. split; [done|].
      unfold cget, idx, len. rewrite length_app. simpl length.
      destruct (_ <? 0)%Z eqn:E; [lia|].
      replace (Z.to_nat (Z.of_nat (length l + 1) - 1)) with (length l) by lia.
      by rewrite lookup_app_r, Nat.sub_diag by lia. }
    destruct Hlast as (lastCandle & Hlast & Hget).
    exists d, lastCandle. split; [done|]. split; [done|].
    unfold calculateCompositeScore, generateSignals. rewrite Hd, !bind_Ok.
    split; [done|]. split.
    + intros Hhold. by rewrite bool_decide_eq_true_2.
    + intros Hnot. rewrite bool_decide_eq_false_2 by done.
      rewrite Hget, bind_Ok. eexists. split; [reflexivity|].
      cbn [sig_action sig_price sig_confidence sig_symbol].
      split; [done|]. split; [|done].
      revert Hnot. rewrite Hact. unfold council_action.
      destruct (_ <? 24)%js; [by left|].
      destruct (_ >? 78)%js; [by right|].
      destruct (4 <=? _)%nat; [by left|].
      destruct (4 <=? _)%nat; [by right | done].
Qed.

(** [detectMarketRegime] never throws, and with at most 28 candles, too
    few for an ADX(14), it reports a ranging market. *)
Theorem detectMarketRegime_short (candles : list Candle) :
  ∃ regime, detectMarketRegime candles = Ok regime
            ∧ ((len candles ≤ 28)%Z → regime = ranging).
Proof.
  unfold detectMarketRegime, calculateADX.
  destruct (len candles <=? Z.of_nat 14 * 2)%Z eqn:Hlen.
  - rewrite bind_Ok. rewrite len_map.
    assert (Hadx : or_else (idx (replicate (length candles) (@None num))
                                (len candles - 1)) 0 = Fin 0).
    { destruct candles as [|c l]; [done|].
      rewrite idx_replicate; [done|]. unfold len. simpl length. lia. }
    rewrite Hadx. eexists. split; [reflexivity | done].
  - apply Z.leb_gt in Hlen.
    destruct (calculateADX_ok candles 14) as [adx Hadx].
    unfold calculateADX in Hadx.
    destruct (len candles <=? Z.of_nat 14 * 2)%Z eqn:Hlen'; [lia|].
    rewrite Hadx, bind_Ok.
    destruct (_ >? 25)%js; [|destruct (_ <? 15)%js];
      (eexists; split; [reflexivity|]; lia).
Qed.


End CouncilOperations.

Lemma council_scores_bounded_witness :
  let candles :=
    replicate 50 {| date := 0; open := 100; high := 101; low := 99;
                    close := 100; volume := 10 |} in
  (50 ≤ len candles)%Z
  ∧ ∃ d, @Council.generateCouncilDecision example_runtime candles
           "BTCUSDT" "0000" 0 = Ok d
         ∧ within_or_nan (-100) 100 (Council.overallScore d)
         ∧ within_or_nan 0 100 (Council.decisionConfidence d).
Proof.
  intros candles. split; [by compute|].
  destruct (@council_scores_bounded example_runtime candles
              "BTCUSDT" "0000" 0) as (d & argus & Hd & _ & Hs & Hc & _);
    [by compute|].
  exists d. split; [exact Hd|]. split; [exact Hs | exact Hc].
Defined.

Lemma generateSignals_follow_decision_witness :
  let candles :=
    replicate 50 {| date := 0; open := 100; high := 101; low := 99;
                    close := 100; volume := 10 |} in
  (50 ≤ len candles)%Z
  ∧ ∃ d, @Council.generateCouncilDecision example_runtime candles
           "TEMP" "0000" 0 = Ok d
         ∧ @Council.calculateCompositeScore example_runtime candles "0000" 0
           = Ok {| Council.totalScore := Council.overallScore d;
                   Council.breakdown := [];
                   Council.sentiment := Council.finalAction d |}.
Proof.
  intros candles. split; [by compute|].
  destruct (@generateSignals_follow_decision example_runtime candles
              "0000" 0) as [_ Henough].
  destruct Henough as (d & lastCandle & Hd & _ & Hscore & _); [by compute|].
  exists d. split; [exact Hd | exact Hscore].
Defined.

Lemma detectMarketRegime_short_witness :
  Council.detectMarketRegime
    (replicate 10 {| date := 0; open := 100; high := 101; low := 99;
                     close := 100; volume := 10 |})
  = Ok Council.ranging.
Proof.
  destruct (detectMarketRegime_short
              (replicate 10 {| date := 0; open := 100; high := 101;
                               low := 99; close := 100; volume := 10 |}))
    as (regime & Hr & Hshort).
  rewrite Hr. f_equal. apply Hshort. by compute.
Defined.

(** ** The backtest engine: boundary and bookkeeping *)

Section BacktestOperations.
Import Indicators Backtest.
Context `{Runtime}.
Local Open Scope Q_scope.

(** The invariant rule for a loop that may throw, when the loop is known
    to have returned. *)
Lemma for_loop_r_inv {St} (P : Z → St → Prop) lo hi
    (bodyr : Z → St → result St) (s st : St) :
  (lo ≤ hi)%Z →
  P lo s →
  (∀ i s, (lo ≤ i < hi)%Z → P i s →
          match bodyr i s with Ok s' => P (i + 1)%Z s' | Throw _ => True end) →
  for_loop_r lo hi bodyr s = Ok st → P hi st.
Proof.
  intros Hle Hinit Hstep.
  assert (Hall : ∀ n : nat, (lo + Z.of_nat n ≤ hi)%Z → ∀ st,
            for_loop_r lo (lo + Z.of_nat n) bodyr s = Ok st →
            P (lo + Z.of_nat n)%Z st).
  { induction n as [|n IH]; intros Hn st' Hloop.
    - rewrite Z.add_0_r in *. rewrite for_loop_r_empty in Hloop by lia.
      by injection Hloop as <-.
    - replace (lo + Z.of_nat (S n))%Z with (lo + Z.of_nat n + 1)%Z in * by lia.
      rewrite for_loop_r_snoc in Hloop by lia.
      destruct (for_loop_r lo (lo + Z.of_nat n) bodyr s) as [s1|e] eqn:E;
        [|done].
      rewrite bind_Ok in Hloop.
      specialize (Hstep (lo + Z.of_nat n)%Z s1 ltac:(lia)
                        (IH ltac:(lia) s1 eq_refl)).
      by rewrite Hloop in Hstep. }
  intros Hloop. specialize (Hall (Z.to_nat (hi - lo))).
  replace (lo + Z.of_nat (Z.to_nat (hi - lo)))%Z with hi in Hall by lia.
  apply Hall; [lia | done].
Qed.

Lemma backtest_step_inv (cfg : BacktestConfig) (candles : list Candle)
    (indicators : jsv) (i : Z) (st : LoopState) :
  (50 ≤ i)%Z → backtest_inv i st →
  match backtest_step cfg candles indicators i st with
  | Ok st' => backtest_inv (i + 1) st'
  | Throw _ => True
  end.
Proof.
  intros Hi (Hcurve & Htrades & Hbuys & Hsells). unfold backtest_step.
  destruct (cget candles i) as [candle|e]; [|done]. rewrite bind_Ok.
  cbv zeta.
  destruct (generateSignal i candles indicators (strategy cfg)) as [sg|e];
    [|done].
  rewrite bind_Ok.
  assert (Hnext : ∀ curve : list (Z * num) , ∀ x,
            length curve = Z.to_nat (i - 50) →
            length (curve ++ [x]) = Z.to_nat (i + 1 - 50)).
  { intros curve x Hc. rewrite length_app, Hc. simpl. lia. }
  destruct (position st) as [pos|] eqn:Hpos.
  - lazymatch goal with
    | |- match mbind ?f ?m with _ => _ end =>
        destruct m as [[exitReason|]|e]; [| |done]
    end; rewrite bind_Ok; cbv beta iota zeta; unfold backtest_inv;
      cbn [ls_equityCurve ls_trades ls_signals position].
    + rewrite !List.filter_app, !length_app. cbn.
      split; [first [by apply Hnext | lia]|]. split; [|lia].
      apply Forall_app. split; [done|]. constructor; [|done].
      repeat split; by eexists.
    + split; [first [by apply Hnext | lia]|]. done.
  - destruct sg.
    + destruct (getSignalReason _ _ _ _) as [r|e]; [|done].
      rewrite bind_Ok. cbv zeta. unfold backtest_inv.
      cbn [ls_equityCurve ls_trades ls_signals position].
      rewrite !List.filter_app, !length_app. cbn.
      split; [first [by apply Hnext | lia]|]. split; [done|]. lia.
    + unfold backtest_inv.
      cbn [ls_equityCurve ls_trades ls_signals position].
      split; [first [by apply Hnext | lia]|]. split; [done|]. lia.
    + unfold backtest_inv.
      cbn [ls_equityCurve ls_trades ls_signals position].
      split; [first [by apply Hnext | lia]|]. split; [done|]. lia.
Qed.

Lemma close_remaining_inv (candles : list Candle) (i : Z) (st : LoopState) :
  backtest_inv i st →
  match close_remaining candles st with
  | Ok (_, ts) =>
      Forall completed ts
      ∧ length (List.filter is_buy_signal (ls_signals st)) = length ts
      ∧ (length (List.filter is_sell_signal (ls_signals st)) ≤ length ts)%nat
  | Throw _ => True
  end.
Proof.
  intros (_ & Htrades & Hbuys & Hsells). unfold close_remaining.
  destruct (position st) as [pos|].
  - destruct (cget candles (len candles - 1)) as [lastCandle|e]; [|done].
    rewrite bind_Ok. cbv zeta. rewrite length_app. simpl length.
    split; [|lia].
    apply Forall_app. split; [done|]. constructor; [|done].
    repeat split; by eexists.
  - split; [done|]. lia.
Qed.

Lemma pnl_or_0_sign (t : BacktestTrade) :
  (pnl_or_0 t <=? 0)%js = negb (pnl_or_0 t >? 0)%js.
Proof.
  unfold pnl_or_0, ngt. destruct (pnl t) as [[q| | |]|]; try done.
  cbn [truthy]. destruct (Qeq_bool q 0); [done|]. cbn [negb nle nlt].
  unfold Qltb. by rewrite negb_involutive.
Qed.

Lemma filter_partition {A} (f g : A → bool) (l : list A) :
  (∀ x, g x = negb (f x)) →
  (length (List.filter f l) + length (List.filter g l) = length l)%nat.
Proof.
  intros Hfg. induction l as [|x l IH]; [done|]. simpl.
  rewrite (Hfg x). destruct (f x); simpl; lia.
Qed.

Lemma runBacktest_bookkeeping_result (symbol : string)
    (candles : list Candle) (config : PartialConfig) (now : Z) :
  match runBacktest symbol candles config now with
  | Ok r =>
      length (equityCurve r) = Z.to_nat (len candles - 50)
      ∧ totalTrades r = length (trades r)
      ∧ (winningTrades r + losingTrades r = totalTrades r)%nat
      ∧ Forall completed (trades r)
      ∧ length (List.filter is_buy_signal (signals r)) = totalTrades r
      ∧ (length (List.filter is_sell_signal (signals r)) ≤ totalTrades r)%nat
  | Throw _ => True
  end.
Proof.
  unfold runBacktest.
  destruct (len candles <? 50)%Z eqn:Hlen.
  { apply Z.ltb_lt in Hlen. cbn. repeat split; try done; lia. }
  apply Z.ltb_ge in Hlen. cbv zeta.
  destruct (for_loop_r 50 (len candles) _ _) as [st|e] eqn:Hloop; [|done].
  assert (Hinv : backtest_inv (len candles) st).
  { eapply (for_loop_r_inv backtest_inv); [exact Hlen | | | exact Hloop].
    - repeat split; done.
    - intros i s Hi Hs. apply backtest_step_inv; [lia | done]. }
  rewrite bind_Ok.
  pose proof (close_remaining_inv candles _ st Hinv) as Hclose.
  destruct (close_remaining candles st) as [[capital trades]|e]; [|done].
  rewrite bind_Ok.
  destruct (cget candles 50) as [c50|e]; [|done]. rewrite bind_Ok.
  destruct (cget candles (len candles - 1)) as [cl|e]; [|done].
  rewrite bind_Ok. cbv beta iota.
  cbn [equityCurve totalTrades winningTrades losingTrades Backtest.trades
       signals].
  destruct Hinv as (Hcurve & _). destruct Hclose as (Hdone & Hbuys & Hsells).
  split; [done|]. split; [done|].
  split; [apply filter_partition, pnl_or_0_sign|]. done.
Qed.

(** The bookkeeping of a backtest that returns: one equity point per
    bar from bar 50 on; every trade of the result is completed (the
    position open at the end is closed at the last price); every trade
    is a win or a loss, a pnl of 0 counting as a loss; and every trade
    was opened by a buy signal of its own, while a sell signal is
    missing for the trade closed at the end. *)
Theorem runBacktest_bookkeeping (symbol : string) (candles : list Candle)
    (config : PartialConfig) (now : Z) (r : BacktestResult) :
  runBacktest symbol candles config now = Ok r →
  length (equityCurve r) = Z.to_nat (len candles - 50)
  ∧ totalTrades r = length (trades r)
  ∧ (winningTrades r + losingTrades r = totalTrades r)%nat
  ∧ Forall completed (trades r)
  ∧ length (List.filter is_buy_signal (signals r)) = totalTrades r
  ∧ (length (List.filter is_sell_signal (signals r)) ≤ totalTrades r)%nat.
Proof.
  intros Hr.
  pose proof (runBacktest_bookkeeping_result symbol candles config now) as Hb.
  rewrite Hr in Hb. exact Hb.
Qed.

(** At the boundary: fewer than 50 candles give the empty result, with
    the configured capital untouched, and exactly 50 candles make
    [runBacktest] throw, whatever the strategy: the loop has no bar to
    run on and the result reads the date of [candles[50]]. *)
Theorem runBacktest_boundary (symbol : string) (candles : list Candle)
    (config : PartialConfig) (now : Z) :
  ((len candles < 50)%Z →
   ∃ r, runBacktest symbol candles config now = Ok r
        ∧ trades r = [] ∧ equityCurve r = [] ∧ signals r = []
        ∧ finalCapital r = initialCapital (merge_config config)
        ∧ totalReturn r = Fin 0)
  ∧ ((len candles = 50)%Z →
     runBacktest symbol candles config now = Throw TypeError).
Proof.
  unfold runBacktest. split; intros Hlen.
  - apply Z.ltb_lt in Hlen. rewrite Hlen. eexists. split; [reflexivity|].
    done.
  - destruct (len candles <? 50)%Z eqn:E; [apply Z.ltb_lt in E; lia|].
    cbv zeta. rewrite Hlen, for_loop_r_empty by lia.
    rewrite bind_Ok. unfold close_remaining. cbn [position].
    rewrite bind_Ok. rewrite (cget_outside candles 50) by lia. done.
Qed.

End BacktestOperations.

Lemma runBacktest_boundary_witness :
  let candles :=
    replicate 50 {| date := 0; open := 100; high := 101; low := 99;
                    close := 100; volume := 10 |} in
  let config :=
    {| Backtest.p_strategy := None; Backtest.p_initialCapital := None;
       Backtest.p_positionSize := None; Backtest.p_stopLoss := None;
       Backtest.p_takeProfit := None; Backtest.p_commission := None |} in
  len candles = 50%Z
  ∧ @Backtest.runBacktest example_runtime "BTCUSDT" candles config 0
    = Throw TypeError.
Proof.
  intros candles config. split; [reflexivity|].
  destruct (@runBacktest_boundary example_runtime "BTCUSDT" candles config 0)
    as [_ Hthrow].
  apply Hthrow. reflexivity.
Defined.

Lemma runBacktest_bookkeeping_witness :
  let candles :=
    replicate 52 {| date := 0; open := 100; high := 100; low := 100;
                    close := 100; volume := 10 |} in
  let config :=
    {| Backtest.p_strategy := None; Backtest.p_initialCapital := None;
       Backtest.p_positionSize := None; Backtest.p_stopLoss := None;
       Backtest.p_takeProfit := None; Backtest.p_commission := None |} in
  ∃ r, @Backtest.runBacktest example_runtime "BTCUSDT" candles config 0 = Ok r
       ∧ length (Backtest.equityCurve r) = 2%nat
       ∧ Backtest.totalTrades r = length (Backtest.trades r).
Proof.
  intros candles config.
  destruct (@Backtest.runBacktest example_runtime "BTCUSDT" candles config 0)
    as [r|e] eqn:Hr; [|by vm_compute in Hr].
  exists r. split; [reflexivity|].
  destruct (@runBacktest_bookkeeping example_runtime "BTCUSDT" candles
              config 0 r Hr) as (Hcurve & Htotal & _).
  split; [exact Hcurve | exact Htotal].
Defined.

(** ** The indicators: warm-up, ranges, flat series *)

Section IndicatorOperations.
Import Indicators.
Context `{Runtime}.
Local Open Scope Q_scope.

Lemma length_slice {A} (l : list A) b e :
  (0 ≤ b ≤ e)%Z → (e ≤ len l)%Z → length (slice l b e) = Z.to_nat (e - b).
Proof.
  intros Hbe He. unfold slice, len in *.
  destruct (b <? 0)%Z eqn:Eb; [lia|]. destruct (e <? 0)%Z eqn:Ee; [lia|].
  rewrite length_take, length_drop. lia.
Qed.

Lemma len_inj {A B} (a : list A) (b : list B) :
  len a = len b → length a = length b.
Proof. unfold len. lia. Qed.


Lemma elem_of_slice {A} (l : list A) b e i x :
  (0 ≤ b ≤ i)%Z → (i < e)%Z → (e ≤ len l)%Z →
  idx l i = Some x → x ∈ slice l b e.
Proof.
  intros Hb Hi He Hx. unfold slice, idx, len in *.
  destruct (i <? 0)%Z eqn:Ei; [lia|].
  destruct (b <? 0)%Z eqn:Eb; [lia|]. destruct (e <? 0)%Z eqn:Ee; [lia|].
  apply elem_of_take. exists (Z.to_nat i - Z.to_nat b)%nat. split; [|lia].
  rewrite lookup_drop. rewrite <- Hx. f_equal. lia.
Qed.

Lemma for_loop_fill_shape {A} (f : Z → A) lo hi (arr : list A) :
  len (for_loop lo hi (λ i a, aset a i (f i)) arr) = len arr
  ∧ ∀ k, (k < lo ∨ hi ≤ k)%Z →
         idx (for_loop lo hi (λ i a, aset a i (f i)) arr) k = idx arr k.
Proof.
  destruct (decide (lo ≤ hi)%Z) as [Hle|Hgt];
    [|by rewrite for_loop_empty by lia].
  apply (for_loop_ind
    (λ j a, len a = len arr
            ∧ ∀ k, (k < lo ∨ hi ≤ k)%Z → idx a k = idx arr k)).
  - done.
  - done.
  - intros i a Hi [Hlen Hother]. split; [by rewrite len_aset|].
    intros k Hk. rewrite idx_aset_ne by lia. by apply Hother.
Qed.

Lemma sum_within_from (xs : list num) (lo hi a : Q) :
  Forall (within lo hi) xs →
  ∃ s, fold_left nadd xs (Fin a) = Fin s
       ∧ a + inject_Z (Z.of_nat (length xs)) * lo <= s
       ∧ s <= a + inject_Z (Z.of_nat (length xs)) * hi.
Proof.
  intros Hxs. revert a. induction Hxs as [|x xs Hx _ IH]; intros a.
  - exists a. split; [done|]. change (inject_Z (Z.of_nat (length []))) with 0.
    lra.
  - destruct x as [q| | |]; try done. cbn [fold_left nadd].
    destruct (IH (Qred (a + q))) as (s & -> & Hlo & Hhi).
    exists s. split; [done|]. cbn [length within] in *.
    rewrite Qred_correct in Hlo, Hhi. rewrite Qn_succ. lra.
Qed.

Lemma mean_within (xs : list num) (lo hi : Q) (n : nat) :
  (0 < n)%nat → length xs = n → Forall (within lo hi) xs →
  within lo hi (sum_list xs / znum (Z.of_nat n))%js.
Proof.
  intros Hn Hlen Hxs. unfold sum_list.
  destruct (sum_within_from xs lo hi 0 Hxs) as (s & -> & Hlo & Hhi).
  rewrite Hlen in Hlo, Hhi. unfold znum. cbn [ndiv].
  rewrite znum_nonzero by lia. cbn [within]. rewrite Qred_correct.
  assert (Hpos : 0 < inject_Z (Z.of_nat n)).
  { replace 0 with (inject_Z 0) by done. rewrite <- Zlt_Qlt. lia. }
  split.
  - apply Qle_shift_div_l; [done|]. lra.
  - apply Qle_shift_div_r; [done|]. lra.
Qed.

Lemma Forall_within_map (qs : list Q) (lo hi : Q) :
  Forall (λ q, lo <= q <= hi) qs → Forall (within lo hi) (map Fin qs).
Proof. intros Hqs. apply Forall_fmap. exact Hqs. Qed.

(** A window of [period] values that ends at index [k]. *)
Lemma window_within (qs : list Q) (lo hi : Q) (period : nat) k :
  (1 ≤ period)%nat → (Z.of_nat period - 1 ≤ k < len qs)%Z →
  Forall (λ q, lo <= q <= hi) qs →
  within lo hi
    (sum_list (slice (map Fin qs) (k - Z.of_nat period + 1) (k + 1))
     / znum (Z.of_nat period))%js.
Proof.
  intros Hp Hk Hqs. apply mean_within; [lia | |].
  - rewrite length_slice; [lia | lia | rewrite len_map; lia].
  - apply Forall_slice. by apply Forall_within_map.
Qed.

(** The simple moving average has the length of its input, is [null]
    during the warm-up (everywhere, when there are fewer values than the
    period), and from index [period - 1] on lies between any bounds that
    hold for the input. *)
Theorem calculateSMA_within (qs : list Q) (period : nat) (lo hi : Q) :
  (1 ≤ period)%nat →
  Forall (λ q, lo <= q <= hi) qs →
  let sma := calculateSMA (map Fin qs) period in
  length sma = length qs
  ∧ (∀ i, (0 ≤ i < len qs)%Z →
          (i < Z.of_nat period - 1 ∨ len qs < Z.of_nat period)%Z →
          idx sma i = Some None)
  ∧ (∀ i, (Z.of_nat period - 1 ≤ i < len qs)%Z →
          ∃ v, idx sma i = Some (Some (Fin v)) ∧ lo <= v <= hi).
Proof.
  intros Hp Hqs sma. subst sma. split; [|split].
  - unfold calculateSMA. destruct (_ <? _)%Z;
      [by rewrite length_replicate, length_map|].
    match goal with |- context [for_loop ?lo ?hi _ ?arr] =>
      destruct (for_loop_fill_shape
        (λ i, Some (sum_list (slice (map Fin qs) (i - Z.of_nat period + 1)
                                    (i + 1))
                    / znum (Z.of_nat period))%js) lo hi arr) as [Hlen _]
    end.
    apply len_inj in Hlen. rewrite Hlen.
    by rewrite length_replicate, length_map.
  - intros i Hi Hwarm. unfold calculateSMA. rewrite len_map.
    destruct (len qs <? Z.of_nat period)%Z eqn:E.
    + apply idx_replicate. rewrite length_map. unfold len in Hi. lia.
    + apply Z.ltb_ge in E.
      match goal with |- context [for_loop ?lo ?hi _ ?arr] =>
        destruct (for_loop_fill_shape
          (λ i, Some (sum_list (slice (map Fin qs) (i - Z.of_nat period + 1)
                                      (i + 1))
                      / znum (Z.of_nat period))%js) lo hi arr) as [_ Hother]
      end.
      rewrite Hother by lia. apply idx_replicate.
      rewrite length_map. unfold len in Hi. lia.
  - intros i Hi. rewrite calculateSMA_at by (rewrite ?len_map; lia).
    pose proof (window_within qs lo hi period i Hp Hi Hqs) as Hw.
    destruct (_ / _)%js as [v| | |]; try done. by exists v.
Qed.

Lemma rd_within (qs : list Q) (lo hi : Q) i :
  Forall (λ q, lo <= q <= hi) qs → (0 ≤ i < len qs)%Z →
  within lo hi (rd (map Fin qs) i).
Proof.
  intros Hqs Hi. unfold rd. rewrite idx_map.
  destruct (idx_inside qs i Hi) as [q Hq]. rewrite Hq. simpl.
  rewrite Forall_forall in Hqs. apply Hqs.
  unfold idx in Hq. destruct (i <? 0)%Z; [done|].
  by apply list_elem_of_lookup_2 in Hq.
Qed.

(** The smoothing factor [2 / (period + 1)]. *)
Lemma smoothing_factor (period : nat) :
  (1 ≤ period)%nat →
  ∃ k, (2 / (znum (Z.of_nat period) + 1))%js = Fin k ∧ 0 < k <= 1.
Proof.
  intros Hp. unfold znum. cbn [nadd ndiv].
  assert (Hpos : 1 <= inject_Z (Z.of_nat period)).
  { replace 1 with (inject_Z 1) by done. rewrite <- Zle_Qle. lia. }
  replace (Qeq_bool (Qred (inject_Z (Z.of_nat period) + 1)) 0) with false
    by (symmetry; apply Qeq_bool_false_iff; rewrite Qred_correct; lra).
  eexists. split; [reflexivity|]. rewrite !Qred_correct. split.
  - apply Qlt_shift_div_l; lra.
  - apply Qle_shift_div_r; lra.
Qed.

Lemma ema_step_within (lo hi v e k : Q) :
  lo <= v <= hi → lo <= e <= hi → 0 < k <= 1 →
  within lo hi ((Fin v * Fin k) + (Fin e * (1 - Fin k)))%js.
Proof.
  intros Hv He Hk. cbn [nmul nsub nadd within]. rewrite !Qred_correct.
  split; nra.
Qed.

(** The exponential moving average has the length of its input, is
    [null] during the warm-up (everywhere, when there are fewer values
    than the period), starts at index [period - 1] with the simple
    average of the first [period] values, and from there on lies between
    any bounds that hold for the input. *)
Theorem calculateEMA_within (qs : list Q) (period : nat) (lo hi : Q) :
  (1 ≤ period)%nat →
  Forall (λ q, lo <= q <= hi) qs →
  let ema := calculateEMA (map Fin qs) period in
  length ema = length qs
  ∧ (∀ i, (0 ≤ i < len qs)%Z →
          (i < Z.of_nat period - 1 ∨ len qs < Z.of_nat period)%Z →
          idx ema i = Some None)
  ∧ (∀ i, (Z.of_nat period - 1 ≤ i < len qs)%Z →
          ∃ v, idx ema i = Some (Some (Fin v)) ∧ lo <= v <= hi)
  ∧ ((Z.of_nat period ≤ len qs)%Z →
     idx ema (Z.of_nat period - 1)
     = idx (calculateSMA (map Fin qs) period) (Z.of_nat period - 1)).
Proof.
  intros Hp Hqs ema. subst ema. unfold calculateEMA. cbv zeta.
  rewrite len_map.
  destruct (len qs <? Z.of_nat period)%Z eqn:E.
  { apply Z.ltb_lt in E. rewrite ?length_replicate, ?length_map.
    split; [done|]. split; [|split; intros; lia].
    intros i Hi _. apply idx_replicate. rewrite ?length_map.
    unfold len in Hi. lia. }
  apply Z.ltb_ge in E. cbv zeta.
  destruct (smoothing_factor period Hp) as (k & -> & Hk).
  set (p := Z.of_nat period) in *.
  set (seed := (sum_list (slice (map Fin qs) 0 p) / znum p)%js).
  assert (Hseed : within lo hi seed).
  { subst seed p. apply mean_within; [lia | |].
    - rewrite length_slice; [lia | lia | rewrite len_map; lia].
    - apply Forall_slice. by apply Forall_within_map. }
  assert (Hsma : idx (calculateSMA (map Fin qs) period) (p - 1)
                 = Some (Some seed)).
  { rewrite calculateSMA_at by (rewrite ?len_map; lia).
    replace (p - 1 - Z.of_nat period + 1)%Z with 0%Z by lia.
    by replace (p - 1 + 1)%Z with p by lia. }
  set (start := aset (replicate (length (map Fin qs)) None) (p - 1)
                     (Some seed)).
  assert (Hloop :
    let st := for_loop p (len qs) (λ i '(ema, emaValues),
                let ema := ((rd (map Fin qs) i * Fin k)
                            + (ema * (1 - Fin k)))%js in
                (ema, aset emaValues i (Some ema))) (seed, start) in
    within lo hi st.1
    ∧ length st.2 = length qs
    ∧ (∀ i, (p - 1 ≤ i < len qs)%Z →
            ∃ v, idx st.2 i = Some (Some v) ∧ within lo hi v)
    ∧ (∀ i, (0 ≤ i < p - 1)%Z → idx st.2 i = Some None)
    ∧ idx st.2 (p - 1) = Some (Some seed)).
  { cbv zeta.
    apply (for_loop_ind
      (λ j st, within lo hi st.1
               ∧ length st.2 = length qs
               ∧ (∀ i, (p - 1 ≤ i < j)%Z →
                       ∃ v, idx st.2 i = Some (Some v) ∧ within lo hi v)
               ∧ (∀ i, (0 ≤ i < p - 1)%Z → idx st.2 i = Some None)
               ∧ idx st.2 (p - 1) = Some (Some seed))).
    - lia.
    - cbn [fst snd]. subst start.
      assert (Hin : (0 ≤ p - 1 < len (replicate (length (map Fin qs))
                                                (@None num)))%Z).
      { unfold len. rewrite ?length_replicate, ?length_map.
        unfold len in E. lia. }
      split; [done|]. split; [by rewrite length_aset, ?length_replicate,
                                 ?length_map|].
      split; [|split].
      + intros i Hi. replace i with (p - 1)%Z by lia.
        rewrite idx_aset_eq by done. eauto.
      + intros i Hi. rewrite idx_aset_ne by lia. apply idx_replicate.
        rewrite ?length_map. unfold len in E. lia.
      + by rewrite idx_aset_eq.
    - intros i [e arr] Hi (He & Hlen & Hfilled & Hwarm & Hfirst).
      cbn [fst snd] in *.
      pose proof (rd_within qs lo hi i Hqs ltac:(lia)) as Hv.
      destruct (rd (map Fin qs) i) as [v| | |]; try done.
      destruct e as [e| | |]; try done.
      pose proof (ema_step_within lo hi v e k Hv He Hk) as Hnew.
      split; [done|]. split; [by rewrite length_aset|].
      assert (Hin : (0 ≤ i < len arr)%Z) by (unfold len in *; lia).
      split; [|split].
      + intros j Hj. destruct (decide (j = i)) as [->|Hne].
        * rewrite idx_aset_eq by done. eauto.
        * rewrite idx_aset_ne by done. apply Hfilled. lia.
      + intros j Hj. rewrite idx_aset_ne by lia. by apply Hwarm.
      + rewrite idx_aset_ne by lia. done. }
  cbv zeta in Hloop.
  destruct Hloop as (_ & Hlen & Hfilled & Hwarm & Hfirst).
  split; [done|]. split; [|split].
  - intros i Hi [Hlt|Hshort]; [|lia]. apply Hwarm. lia.
  - intros i Hi. destruct (Hfilled i Hi) as (v & -> & Hv).
    destruct v as [q| | |]; try done. by exists q.
  - intros _. by rewrite Hfirst, Hsma.
Qed.

(** With fewer values than the slower of its two periods, MACD has no
    value anywhere: the MACD line, the signal line and the histogram
    are all [null]. *)
Theorem calculateMACD_short (values : list num)
    (fastPeriod slowPeriod signalPeriod : nat) :
  (len values < Z.of_nat fastPeriod ∨ len values < Z.of_nat slowPeriod)%Z →
  calculateMACD values fastPeriod slowPeriod signalPeriod
  = {| macd := replicate (length values) None;
       signal := replicate (length values) None;
       histogram := replicate (length values) None |}.
Proof.
  intros Hshort. unfold calculateMACD.
  set (fastEMA := calculateEMA values fastPeriod).
  set (slowEMA := calculateEMA values slowPeriod).
  assert (Hnull : ∀ i, (0 ≤ i < len values)%Z →
            not_null (idx fastEMA i) && not_null (idx slowEMA i) = false).
  { intros i Hi. subst fastEMA slowEMA. unfold calculateEMA.
    destruct Hshort as [Hf|Hs].
    - apply Z.ltb_lt in Hf. rewrite Hf.
      rewrite idx_replicate by (unfold len in Hi; lia). done.
    - apply Z.ltb_lt in Hs. rewrite Hs.
      rewrite idx_replicate by (unfold len in Hi; lia).
      apply andb_false_r. }
  assert (Hmacd :
    for_loop 0 (len values) (λ i macdLine,
      if not_null (idx fastEMA i) && not_null (idx slowEMA i)
      then aset macdLine i
             (Some (to_num (idx fastEMA i) - to_num (idx slowEMA i))%js)
      else macdLine) (replicate (length values) None)
    = replicate (length values) None).
  { apply (for_loop_ind (λ _ a, a = replicate (length values) None)).
    - unfold len. lia.
    - done.
    - intros i a Hi ->. by rewrite Hnull. }
  cbv zeta. rewrite Hmacd.
  assert (Hvalid :
    for_loop 0 (len (replicate (length values) (@None num)))
      (λ i '(validMacd, firstValidIndex),
        if not_null (idx (replicate (length values) (@None num)) i)
        then (validMacd
                ++ [to_num (idx (replicate (length values) (@None num)) i)],
              if (firstValidIndex =? -1)%Z then i else firstValidIndex)
        else (validMacd, firstValidIndex)) ([], (-1)%Z)
    = ([], (-1)%Z)).
  { apply (for_loop_ind (λ _ st, st = ([], (-1)%Z))).
    - unfold len. lia.
    - done.
    - intros i st Hi ->.
      rewrite idx_replicate; [done|].
      unfold len in Hi. rewrite length_replicate in Hi. lia. }
  rewrite Hvalid.
  assert (Hsig : calculateEMA [] signalPeriod = []).
  { unfold calculateEMA. destruct (len [] <? Z.of_nat signalPeriod)%Z; [done|].
    cbv zeta. rewrite for_loop_empty by (unfold len; simpl; lia).
    cbn [snd]. unfold aset. by destruct (_ <? 0)%Z. }
  rewrite Hsig. rewrite for_loop_empty by done. done.
Qed.

Lemma calculateMACD_short_witness :
  calculateMACD (map Fin [1; 2; 3; 4; 5]) 12 26 9
  = {| macd := replicate 5 None; signal := replicate 5 None;
       histogram := replicate 5 None |}.
Proof. apply calculateMACD_short. left. by compute. Defined.

Lemma calculateSMA_within_witness :
  ∃ v, idx (calculateSMA (map Fin [1; 2; 3; 4]) 2) 3 = Some (Some (Fin v))
       ∧ 1 <= v <= 4.
Proof.
  destruct (calculateSMA_within [1; 2; 3; 4] 2 1 4) as (_ & _ & Hv);
    [lia | repeat (apply Forall_cons_2; [by compute|]); apply Forall_nil_2 |].
  apply Hv. by compute.
Defined.

Lemma calculateEMA_within_witness :
  ∃ v, idx (calculateEMA (map Fin [1; 2; 3; 4]) 2) 3 = Some (Some (Fin v))
       ∧ 1 <= v <= 4.
Proof.
  destruct (calculateEMA_within [1; 2; 3; 4] 2 1 4) as (_ & _ & Hv & _);
    [lia | repeat (apply Forall_cons_2; [by compute|]); apply Forall_nil_2 |].
  apply Hv. by compute.
Defined.



(** On well-formed candles the average true range never throws, is
    [null] everywhere when there are not more candles than the period,
    and holds no negative value. *)
Theorem calculateATR_values (candles : list Candle) (period : nat) :
  (1 ≤ period)%nat → Forall well_formed candles →
  ∃ atr, calculateATR candles period = Ok atr
         ∧ ((len candles ≤ Z.of_nat period)%Z →
            atr = replicate (length candles) None)
         ∧ (∀ i v, idx atr i = Some (Some v) → nonneg v).
Proof.
  intros Hp Hwf.
  destruct (calculateATR_nonneg candles period Hp Hwf) as (atr & Hatr & Hnn).
  destruct (calculateATR_ok candles period) as (atr' & Hatr' & Hshort).
  rewrite Hatr in Hatr'. injection Hatr' as <-.
  by exists atr.
Qed.

Lemma min_list_spec {A} (f : A → Q) (w : list A) :
  (w = [] ∧ min_list (map (λ a, Fin (f a)) w) = PInf)
  ∨ ∃ m, min_list (map (λ a, Fin (f a)) w) = Fin m
         ∧ Forall (λ a, m <= f a) w.
Proof.
  induction w as [|a w IH]; [by left|]. right.
  unfold min_list in *. cbn [map foldr].
  destruct IH as [[-> _]|(m & -> & Hm)].
  - exists (f a). split; [done|]. apply Forall_cons_2; [lra | done].
  - cbn [nmin nlt]. destruct (Qltb m (f a)) eqn:E.
    + apply Qltb_iff in E. exists m. split; [done|].
      apply Forall_cons_2; [lra | done].
    + apply Qltb_false_iff in E. exists (f a). split; [done|].
      apply Forall_cons_2; [lra|].
      eapply Forall_impl; [exact Hm|]. intros x Hx. cbn beta in Hx. lra.
Qed.

Lemma max_list_spec {A} (f : A → Q) (w : list A) :
  (w = [] ∧ max_list (map (λ a, Fin (f a)) w) = NInf)
  ∨ ∃ m, max_list (map (λ a, Fin (f a)) w) = Fin m
         ∧ Forall (λ a, f a <= m) w.
Proof.
  induction w as [|a w IH]; [by left|]. right.
  unfold max_list in *. cbn [map foldr].
  destruct IH as [[-> _]|(m & -> & Hm)].
  - exists (f a). split; [done|]. apply Forall_cons_2; [lra | done].
  - cbn [nmax nlt]. destruct (Qltb (f a) m) eqn:E.
    + apply Qltb_iff in E. exists m. split; [done|].
      apply Forall_cons_2; [lra | done].
    + apply Qltb_false_iff in E. exists (f a). split; [done|].
      apply Forall_cons_2; [lra|].
      eapply Forall_impl; [exact Hm|]. intros x Hx. cbn beta in Hx. lra.
Qed.

(** The extremes of a window that holds the candle [c]. *)
Lemma window_extremes (w : list Candle) (c : Candle) :
  c ∈ w → close_inside c →
  ∃ lo hi, min_list (map (λ c, Fin (low c)) w) = Fin lo
           ∧ max_list (map (λ c, Fin (high c)) w) = Fin hi
           ∧ lo <= close c <= hi.
Proof.
  intros Hc [Hl Hh].
  destruct (min_list_spec low w) as [[-> _]|(lo & Hlo & Hmin)];
    [by apply elem_of_nil in Hc|].
  destruct (max_list_spec high w) as [[-> _]|(hi & Hhi & Hmax)];
    [by apply elem_of_nil in Hc|].
  exists lo, hi. split; [done|]. split; [done|].
  rewrite Forall_forall in Hmin, Hmax.
  specialize (Hmin c Hc). specialize (Hmax c Hc). cbn beta in *. lra.
Qed.

Lemma ratio_within (x d : Q) :
  0 <= x <= d → ¬ d == 0 → 0 <= x / d <= 1.
Proof.
  intros [Hx Hd] Hne. assert (Hpos : 0 < d) by lra. split.
  - apply Qle_shift_div_l; [done | lra].
  - apply Qle_shift_div_r; [done | lra].
Qed.

Lemma stochastic_value_within (c lo hi : Q) :
  lo <= c <= hi → (Fin hi === Fin lo)%js = false →
  within 0 100 (((Fin c - Fin lo) / (Fin hi - Fin lo)) * Fin 100)%js.
Proof.
  intros Hc Hne. cbn [neqb] in Hne. apply Qeq_bool_false_iff in Hne.
  cbn [nsub ndiv].
  destruct (Qeq_bool (Qred (hi - lo)) 0) eqn:E.
  { apply Qeq_bool_iff in E. rewrite Qred_correct in E.
    exfalso. apply Hne. lra. }
  cbn [nmul within]. rewrite !Qred_correct.
  destruct (ratio_within (c - lo) (hi - lo)) as [H0 H1]; [lra | lra |]. lra.
Qed.

Lemma williams_value_within (c lo hi : Q) :
  lo <= c <= hi → (Fin hi === Fin lo)%js = false →
  within (-100) 0 (((Fin hi - Fin c) / (Fin hi - Fin lo)) * Fin (-100))%js.
Proof.
  intros Hc Hne. cbn [neqb] in Hne. apply Qeq_bool_false_iff in Hne.
  cbn [nsub ndiv].
  destruct (Qeq_bool (Qred (hi - lo)) 0) eqn:E.
  { apply Qeq_bool_iff in E. rewrite Qred_correct in E.
    exfalso. apply Hne. lra. }
  cbn [nmul within]. rewrite !Qred_correct.
  destruct (ratio_within (hi - c) (hi - lo)) as [H0 H1]; [lra | lra |]. lra.
Qed.

Lemma Forall_aset {A} (P : A → Prop) (l : list A) i v :
  Forall P l → P v → Forall P (aset l i v).
Proof.
  intros Hl Hv. unfold aset. destruct (i <? 0)%Z; [done|].
  by apply Forall_insert.
Qed.

Lemma Forall_idx {A} (P : A → Prop) (l : list A) i x :
  Forall P l → idx l i = Some x → P x.
Proof.
  intros Hl Hx. unfold idx in Hx. destruct (i <? 0)%Z; [done|].
  by eapply Forall_lookup_1.
Qed.

Lemma Forall_not_null (P : num → Prop) (l : list (option num)) :
  Forall (null_or P) l → Forall P (omap id l).
Proof.
  induction 1 as [|[v|] l Hv _ IH]; [done | | done].
  cbn. by apply Forall_cons_2.
Qed.

(** The candle at an index inside the series, and the extremes of the
    window of [p] candles that ends there. *)
Lemma window_at (candles : list Candle) (p i : Z) :
  (1 ≤ p)%Z → (p - 1 ≤ i < len candles)%Z → Forall close_inside candles →
  ∃ c lo hi,
    cget candles i = Ok c
    ∧ min_list (map (λ c, Fin (low c)) (slice candles (i - p + 1) (i + 1)))
      = Fin lo
    ∧ max_list (map (λ c, Fin (high c)) (slice candles (i - p + 1) (i + 1)))
      = Fin hi
    ∧ lo <= close c <= hi.
Proof.
  intros Hp Hi Hall.
  destruct (cget_inside candles i) as (c & Hget & Hc); [lia|].
  destruct (window_extremes (slice candles (i - p + 1) (i + 1)) c)
    as (lo & hi & Hlo & Hhi & Hb).
  - by apply (elem_of_slice candles (i - p + 1) (i + 1) i); [lia ..|].
  - by apply (Forall_idx close_inside candles i).
  - by exists c, lo, hi.
Qed.

(** On candles whose close lies between their low and their high,
    Williams %R never throws, keeps the length of the series and holds
    only values between -100 and 0. *)
Theorem calculateWilliamsR_range (candles : list Candle) (period : nat) :
  (1 ≤ period)%nat → Forall close_inside candles →
  ∃ wr, calculateWilliamsR candles period = Ok wr
        ∧ length wr = length candles
        ∧ ∀ i v, idx wr i = Some (Some v) → within (-100) 0 v.
Proof.
  intros Hp Hall.
  assert (Hgoal : ∃ wr, calculateWilliamsR candles period = Ok wr
            ∧ length wr = length candles
            ∧ Forall (null_or (within (-100) 0)) wr).
  { unfold calculateWilliamsR. cbv zeta.
    destruct (len candles <? Z.of_nat period)%Z eqn:Hshort.
    { eexists. split; [done|]. split; [apply length_replicate|].
      by apply Forall_replicate. }
    apply Z.ltb_ge in Hshort.
    apply (for_loop_r_ind
      (λ _ wr, length wr = length candles
               ∧ Forall (null_or (within (-100) 0)) wr)); [lia | |].
    { split; [apply length_replicate | by apply Forall_replicate]. }
    intros i wr Hi [Hlen Hwr].
    destruct (window_at candles (Z.of_nat period) i)
      as (c & lo & hi & -> & -> & -> & Hb); [lia | lia | done |].
    rewrite bind_Ok.
    destruct (Fin hi === Fin lo)%js eqn:Hflat; cbn [negb]; [by eexists|].
    eexists. split; [done|]. split; [by rewrite length_aset|].
    apply Forall_aset; [done|]. by apply williams_value_within. }
  destruct Hgoal as (wr & Hwr & Hlen & Hvals). exists wr.
  split; [done|]. split; [done|]. intros i v Hv.
  exact (Forall_idx _ wr i (Some v) Hvals Hv).
Qed.

Lemma calculateWilliamsR_range_witness :
  ∃ wr, calculateWilliamsR swing_candles 14 = Ok wr
        ∧ length wr = length swing_candles.
Proof.
  destruct (calculateWilliamsR_range swing_candles 14) as (wr & Hwr & Hl & _);
    [lia | |].
  - apply Forall_forall. intros c Hc. vm_compute in Hc.
    repeat (apply elem_of_cons in Hc as [->|Hc]; [by compute|]).
    by apply elem_of_nil in Hc.
  - exists wr. exact (conj Hwr Hl).
Defined.

(** On candles whose close lies between their low and their high, the
    stochastic oscillator never throws, and both its %K and its %D line
    keep the length of the series and hold only values between 0 and
    100. *)
Theorem calculateStochastic_range (candles : list Candle)
    (kPeriod dPeriod : nat) :
  (1 ≤ kPeriod)%nat → (1 ≤ dPeriod)%nat → Forall close_inside candles →
  ∃ st, calculateStochastic candles kPeriod dPeriod = Ok st
        ∧ length (k st) = length candles
        ∧ length (d st) = length candles
        ∧ (∀ i v, idx (k st) i = Some (Some v) → within 0 100 v)
        ∧ (∀ i v, idx (d st) i = Some (Some v) → within 0 100 v).
Proof.
  intros Hk Hd Hall.
  assert (Hgoal : ∃ st, calculateStochastic candles kPeriod dPeriod = Ok st
            ∧ length (k st) = length candles
            ∧ length (d st) = length candles
            ∧ Forall (null_or (within 0 100)) (k st)
            ∧ Forall (null_or (within 0 100)) (d st)).
  { unfold calculateStochastic. cbv zeta.
    destruct (len candles <? Z.of_nat kPeriod)%Z eqn:Hshort.
    { eexists. split; [done|]. cbn [k d]. rewrite length_replicate.
      split; [done|]. split; [done|]. split; by apply Forall_replicate. }
    apply Z.ltb_ge in Hshort.
    match goal with
    | |- context [for_loop_r ?lo ?hi ?body ?s] =>
        destruct (for_loop_r_ind
          (λ _ kv, length kv = length candles
                   ∧ Forall (null_or (within 0 100)) kv) lo hi body s)
          as (kv & -> & Hlen & Hkv)
    end; [lia | | |].
    { split; [apply length_replicate | by apply Forall_replicate]. }
    { intros i kv Hi [Hlen Hkv].
      destruct (window_at candles (Z.of_nat kPeriod) i)
        as (c & lo & hi & -> & -> & -> & Hb); [lia | lia | done |].
      rewrite bind_Ok.
      destruct (Fin hi === Fin lo)%js eqn:Hflat; cbn [negb].
      - eexists. split; [done|]. split; [by rewrite length_aset|].
        apply Forall_aset; [done|]. cbn. lra.
      - eexists. split; [done|]. split; [by rewrite length_aset|].
        apply Forall_aset; [done|]. by apply stochastic_value_within. }
    rewrite bind_Ok. eexists. split; [done|]. cbn [k d].
    split; [done|].
    assert (Hdv : ∀ lo hi dv,
      length dv = length candles → Forall (null_or (within 0 100)) dv →
      let dv' := for_loop lo hi (λ i dValues,
        let kSlice := omap id (slice kv (i - Z.of_nat dPeriod + 1) (i + 1)) in
        if (len kSlice =? Z.of_nat dPeriod)%Z
        then aset dValues i
               (Some (sum_list kSlice / znum (Z.of_nat dPeriod))%js)
        else dValues) dv in
      length dv' = length candles ∧ Forall (null_or (within 0 100)) dv').
    { intros lo hi dv Hl Hdv dv'. subst dv'.
      destruct (decide (lo ≤ hi)%Z) as [Hle|Hgt];
        [|by rewrite for_loop_empty by lia].
      apply (for_loop_ind
        (λ _ dv, length dv = length candles
                 ∧ Forall (null_or (within 0 100)) dv)); [done | done |].
      intros i dv0 Hi [Hl0 Hdv0]. cbv zeta.
      destruct (len _ =? Z.of_nat dPeriod)%Z eqn:Hfull; [|done].
      apply Z.eqb_eq in Hfull. split; [by rewrite length_aset|].
      apply Forall_aset; [done|]. cbn [null_or].
      apply mean_within; [lia | unfold len in Hfull; lia |].
      by apply Forall_not_null, Forall_slice. }
    destruct (Hdv (Z.of_nat kPeriod + Z.of_nat dPeriod - 2)%Z (len candles)
                (replicate (length candles) None)) as [Hl' Hd'];
      [apply length_replicate | by apply Forall_replicate |].
    exact (conj Hl' (conj Hkv Hd')). }
  destruct Hgoal as (st & Hst & Hlk & Hld & Hkv & Hdv). exists st.
  split; [done|]. split; [done|]. split; [done|].
  split; intros i v Hv.
  - exact (Forall_idx _ (k st) i (Some v) Hkv Hv).
  - exact (Forall_idx _ (d st) i (Some v) Hdv Hv).
Qed.

Lemma calculateStochastic_range_witness :
  ∃ st, calculateStochastic swing_candles 14 3 = Ok st
        ∧ length (k st) = length swing_candles.
Proof.
  destruct (calculateStochastic_range swing_candles 14 3)
    as (st & Hst & Hl & _); [lia | lia | |].
  - apply Forall_forall. intros c Hc. vm_compute in Hc.
    repeat (apply elem_of_cons in Hc as [->|Hc]; [by compute|]).
    by apply elem_of_nil in Hc.
  - exists st. exact (conj Hst Hl).
Defined.

Lemma calculateATR_values_witness :
  ∃ atr, calculateATR quiet_candles 14 = Ok atr
         ∧ ∀ i v, idx atr i = Some (Some v) → nonneg v.
Proof.
  destruct (calculateATR_values quiet_candles 14) as (atr & Hatr & _ & Hnn);
    [lia | exact quiet_candles_well_formed |].
  exists atr. exact (conj Hatr Hnn).
Defined.

Lemma calculateWilliamsR_ok (candles : list Candle) (period : nat) :
  (1 ≤ period)%nat → ∃ wr, calculateWilliamsR candles period = Ok wr.
Proof.
  intros Hp. unfold calculateWilliamsR. cbv zeta.
  destruct (len candles <? Z.of_nat period)%Z eqn:Hshort; [eauto|].
  apply Z.ltb_ge in Hshort.
  destruct (for_loop_r_ind (λ _ _, True) (Z.of_nat period - 1) (len candles)
    (λ i wrValues,
      let slice_ := slice candles (i - Z.of_nat period + 1) (i + 1) in
      let highestHigh := max_list (map (λ c, Fin (high c)) slice_) in
      let lowestLow := min_list (map (λ c, Fin (low c)) slice_) in
      ci ← cget candles i;
      let close := close ci in
      if negb (highestHigh === lowestLow)%js
      then Ok (aset wrValues i
                 (Some (((highestHigh - close) / (highestHigh - lowestLow))
                        * -100)%js))
      else Ok wrValues) (replicate (length candles) None))
    as (wr & Hwr & _); [lia | done | | eauto].
  intros i wr Hi _. cbv zeta.
  destruct (cget_inside candles i) as (c & -> & _); [lia|].
  rewrite bind_Ok. destruct (negb _); eauto.
Qed.

(** [getAllIndicators] never throws, whatever candles it is given, and
    returns its seventeen rows in a fixed order; for an empty list of
    candles every value is [undefined] and every signal it gives is
    HOLD. *)
Theorem getAllIndicators_total (candles : list Candle) :
  ∃ rows, getAllIndicators candles = Ok rows
    ∧ map ir_name rows
      = ["RSI (14)"; "MACD"; "MACD Signal"; "MACD Histogram";
         "Bollinger Upper"; "Bollinger Middle"; "Bollinger Lower";
         "Stochastic %K"; "Stochastic %D"; "CCI (20)"; "ADX (14)";
         "ATR (14)"; "Williams %R"; "SMA 20"; "SMA 50"; "EMA 12"; "EMA 26"]
    ∧ (candles = [] →
       Forall (λ row, ir_value row = None
                      ∧ (ir_signal row = None ∨ ir_signal row = Some ind_hold))
              rows).
Proof.
  unfold getAllIndicators. cbv zeta.
  destruct (calculateStochastic_ok candles 14 3) as [st ->]; [lia|].
  rewrite bind_Ok.
  destruct (calculateADX_ok candles 14) as [adx ->]. rewrite bind_Ok.
  destruct (calculateATR_ok candles 14) as (atr & -> & _). rewrite bind_Ok.
  destruct (calculateWilliamsR_ok candles 14) as [wr ->]; [lia|].
  rewrite bind_Ok.
  eexists. split; [reflexivity|]. split; [reflexivity|].
  intros ->.
  repeat (apply Forall_cons_2;
          [split; [reflexivity | first [by left | by right]]|]).
  apply Forall_nil_2.
Qed.

End IndicatorOperations.



Lemma getAllIndicators_total_witness :
  ∃ rows, @Indicators.getAllIndicators example_runtime [] = Ok rows
          ∧ length rows = 17%nat
          ∧ Forall (λ row, Indicators.ir_value row = None) rows.
Proof.
  destruct (@getAllIndicators_total example_runtime [])
    as (rows & Hrows & Hnames & Hempty).
  exists rows. split; [exact Hrows|]. split.
  - rewrite <- (length_map Indicators.ir_name), Hnames. reflexivity.
  - eapply Forall_impl; [exact (Hempty eq_refl)|].
    intros row [Hvalue _]. exact Hvalue.
Defined.
